(** * redisfs: a FUSE filesystem stored in a Redis key space

    A shallow embedding of [src/redisfs.c], [src/pathutil.c] and
    [src/redisfs-snapshot.c].

    - C integers are [Z] with the conversions written out ([to_int],
      [to_u32], [to_u64]); C strings and redis values are [string].
    - The redis server is a finite map from keys to values (a string or a
      set of strings); [exec] gives the reply and the new map of each
      command the filesystem issues.
    - The hiredis connection is a record: the database behind it, whether a
      handle exists, the replies not yet read and the commands sent so far.
      Handlers run in a state monad over it whose failure outcome stands for
      a call without a defined result: a null pointer dereference, a read
      that blocks for ever, or a read or write outside an allocation, whose
      behaviour C leaves undefined.
    - [pthread_mutex_lock]/[unlock] and the [_g_debug] printing have no
      effect on a single run of one handler and are left out. *)

From Stdlib Require Import ZArith Lia String Ascii List Bool.
From stdpp Require Import gmap strings list fin_maps.

Local Open Scope string_scope.
Local Open Scope list_scope.
Local Open Scope Z_scope.

(** ** C integer conversions (x86-64: int is 32 bits, long is 64 bits) *)

Module CInt.

Definition INT_MAX : Z := 2 ^ 31 - 1.
Definition INT_MIN : Z := - 2 ^ 31.
Definition LLONG_MAX : Z := 2 ^ 63 - 1.
Definition LLONG_MIN : Z := - 2 ^ 63.

(** Conversion to [int]: the low 32 bits, read as a signed number. *)
Definition to_int (z : Z) : Z := (z + 2 ^ 31) mod 2 ^ 32 - 2 ^ 31.

(** Conversion to [unsigned int] ([mode_t], [uid_t], [gid_t]). *)
Definition to_u32 (z : Z) : Z := z mod 2 ^ 32.

(** Conversion to [unsigned long] ([size_t], [nlink_t]). *)
Definition to_u64 (z : Z) : Z := z mod 2 ^ 64.

Definition is_int (z : Z) : Prop := INT_MIN <= z <= INT_MAX.

(** errno values and file type bits of Linux. *)
Definition EPERM : Z := 1.
Definition ENOENT : Z := 2.
Definition EIO : Z := 5.
Definition ENOTEMPTY : Z := 39.
Definition S_IFDIR : Z := 16384.   (* 0040000 *)
Definition S_IFLNK : Z := 40960.   (* 0120000 *)

End CInt.
Export CInt.

(** ** Decimal text: what [%d] prints and what [atoi] reads *)

Module Decimal.

Definition digit_char (d : Z) : ascii := ascii_of_nat (48 + Z.to_nat d).

Definition is_digit (c : ascii) : bool :=
  let n := nat_of_ascii c in (48 <=? n)%nat && (n <=? 57)%nat.

Definition digit_val (c : ascii) : Z := Z.of_nat (nat_of_ascii c) - 48.

(** The digits of [n >= 0], most significant first, in front of [acc]. *)
Fixpoint dec_digits (fuel : nat) (n : Z) (acc : string) : string :=
  match fuel with
  | O => acc
  | S f =>
      let acc' := String (digit_char (n mod 10)) acc in
      if n <? 10 then acc' else dec_digits f (n / 10) acc'
  end.

Definition dec_nonneg (n : Z) : string :=
  dec_digits (S (Z.to_nat (Z.log2 n))) n "".

(** [dec z] is the text [printf("%d")] gives for [z]. *)
Definition dec (z : Z) : string :=
  if z <? 0 then String "-"%char (dec_nonneg (- z)) else dec_nonneg z.

(** [isspace] of the C locale. *)
Definition is_space (c : ascii) : bool :=
  let n := nat_of_ascii c in
  (n =? 32)%nat || ((9 <=? n)%nat && (n <=? 13)%nat).

Fixpoint skip_spaces (s : string) : string :=
  match s with
  | String c r => if is_space c then skip_spaces r else s
  | EmptyString => s
  end.

(** The value of the leading digits of [s], after [acc]. *)
Fixpoint atoi_digits (acc : Z) (s : string) : Z :=
  match s with
  | String c r =>
      if is_digit c then atoi_digits (acc * 10 + digit_val c) r else acc
  | EmptyString => acc
  end.

(** Optional white space, an optional sign, then digits. *)
Definition signed_value (s : string) : Z :=
  match skip_spaces s with
  | String "-"%char r => - atoi_digits 0 r
  | String "+"%char r => atoi_digits 0 r
  | r => atoi_digits 0 r
  end.

(** [strtol(s, NULL, 10)]: saturates at the bounds of [long]. *)
Definition strtol (s : string) : Z :=
  Z.max LLONG_MIN (Z.min LLONG_MAX (signed_value s)).

(** [atoi(s)] is [(int) strtol(s, NULL, 10)]. *)
Definition atoi (s : string) : Z := to_int (strtol s).

(** What [%d] prints for an argument that the callee reads as an [int]. *)
Definition fmt_d (z : Z) : string := dec (to_int z).

(** redis's [string2ll]: only the canonical decimal text of a 64-bit
    signed integer is a number. *)
Definition string2ll (s : string) : option Z :=
  let z := signed_value s in
  if String.eqb (dec z) s && (LLONG_MIN <=? z) && (z <=? LLONG_MAX)
  then Some z else None.

End Decimal.
Export Decimal.

(** ** C strings *)

(** What [%s], [strcpy] and [sprintf] read of a byte string: the bytes
    before the first NUL. *)
Fixpoint c_str (s : string) : string :=
  match s with
  | EmptyString => EmptyString
  | String ch r =>
      if Ascii.eqb ch Ascii.zero then EmptyString else String ch (c_str r)
  end.

(** ** pathutil.c *)

Module PathUtil.

(** [strrchr(s, '/')], as the offset of the last slash. *)
Fixpoint strrchr_slash (s : string) : option nat :=
  match s with
  | EmptyString => None
  | String c r =>
      match strrchr_slash r with
      | Some i => Some (S i)
      | None => if Ascii.eqb c "/"%char then Some O else None
      end
  end.

Fixpoint str_take (n : nat) (s : string) : string :=
  match n, s with
  | S n', String c r => String c (str_take n' r)
  | _, _ => EmptyString
  end.

Fixpoint str_drop (n : nat) (s : string) : string :=
  match n, s with
  | S n', String _ r => str_drop n' r
  | _, _ => s
  end.

(** [get_parent]: cut the copy at the last slash; an empty result is "/";
    no slash at all gives [NULL] (here [None]). *)
Definition get_parent (path : string) : option string :=
  match strrchr_slash path with
  | Some i =>
      let parent := str_take i path in
      Some (if String.eqb parent "" then "/" else parent)
  | None => None
  end.

(** [get_basename]: what follows the last slash, or all of [path]. *)
Definition get_basename (path : string) : string :=
  match strrchr_slash path with
  | Some i => str_drop (S i) path
  | None => path
  end.

End PathUtil.
Export PathUtil.

(** ** The redis server: keys, values, commands and replies *)

Module Redis.

(** The attributes of an inode, in the order [remove_inode] deletes them. *)
Inductive attr : Set :=
  | NAME | TYPE | MODE | GID | UID | ATIME | CTIME | MTIME
  | SIZE | DATA | LINK | TARGET.

Definition all_attrs : list attr :=
  [NAME; TYPE; MODE; GID; UID; ATIME; CTIME; MTIME; SIZE; DATA; LINK; TARGET].

(** The three shapes of key under the configured prefix:
    [P:GLOBAL:INODE], [P:INODE:i:A] and [P:DIRENT:i].  The inode part is
    kept as text: the code prints it with [%d] from an [int] and with
    [%s] from a set member. *)
Inductive key : Set :=
  | GLOBAL_INODE
  | INODE (i : string) (a : attr)
  | DIRENT (i : string).

#[global] Instance attr_eq_dec : EqDecision attr.
Proof. solve_decision. Defined.

#[global] Instance key_eq_dec : EqDecision key.
Proof. solve_decision. Defined.

Definition attr_to_nat (a : attr) : nat :=
  match a with
  | NAME => 0 | TYPE => 1 | MODE => 2 | GID => 3 | UID => 4 | ATIME => 5
  | CTIME => 6 | MTIME => 7 | SIZE => 8 | DATA => 9 | LINK => 10
  | TARGET => 11
  end%nat.

Definition attr_of_nat (n : nat) : option attr := all_attrs !! n.

#[global] Instance attr_countable : Countable attr.
Proof. apply (inj_countable attr_to_nat attr_of_nat). by intros []. Defined.

Definition key_encode (k : key) : unit + (string * attr) + string :=
  match k with
  | GLOBAL_INODE => inl (inl tt)
  | INODE i a => inl (inr (i, a))
  | DIRENT i => inr i
  end.

Definition key_decode (x : unit + (string * attr) + string) : key :=
  match x with
  | inl (inl _) => GLOBAL_INODE
  | inl (inr (i, a)) => INODE i a
  | inr i => DIRENT i
  end.

#[global] Instance key_countable : Countable key.
Proof. apply (inj_countable' key_encode key_decode). by intros []. Defined.

(** A key holds a string or a set of strings. *)
Inductive value : Type :=
  | VStr (s : string)
  | VSet (m : gset string).

(** hiredis reply objects. *)
#[warnings="-register-all"]
Inductive reply : Type :=
  | RNil
  | RInt (n : Z)
  | RStr (s : string)
  | RStatus (s : string)
  | RErr (s : string)
  | RArr (elements : list reply).

(** The commands redisfs sends. *)
Inductive cmd : Type :=
  | PING
  | INCR (k : key)
  | INCRBY (k : key) (n : Z)
  | GET (k : key)
  | SET (k : key) (v : string)
  | MSET (kvs : list (key * string))
  | MGET (ks : list key)
  | DEL (k : key)
  | APPEND (k : key) (v : string)
  | GETRANGE (k : key) (first last : Z)
  | SUBSTR (k : key) (first last : Z)
  | SADD (k : key) (m : string)
  | SREM (k : key) (m : string)
  | SMEMBERS (k : key).

Definition wrongtype : string :=
  "WRONGTYPE Operation against a key holding the wrong kind of value".
Definition not_an_integer : string :=
  "ERR value is not an integer or out of range".
Definition would_overflow : string :=
  "ERR increment or decrement would overflow".
Definition wrong_arity : string :=
  "ERR wrong number of arguments".

Definition in_llong (z : Z) : bool := (LLONG_MIN <=? z) && (z <=? LLONG_MAX).

Definition incrby (k : key) (n : Z) (d : gmap key value)
  : reply * gmap key value :=
  match d !! k with
  | Some (VSet _) => (RErr wrongtype, d)
  | o =>
      match match o with Some (VStr s) => string2ll s | _ => Some 0 end with
      | Some v =>
          if in_llong (v + n)
          then (RInt (v + n), <[k := VStr (dec (v + n))]> d)
          else (RErr would_overflow, d)
      | None => (RErr not_an_integer, d)
      end
  end.

(** The bytes [first .. last] of [s], both ends included, negative
    offsets counting from the end (redis's [getrangeCommand]). *)
Definition range_of (s : string) (first last : Z) : string :=
  let len := Z.of_nat (String.length s) in
  let first := if first <? 0 then len + first else first in
  let last := if last <? 0 then len + last else last in
  let first := Z.max 0 first in
  let last := Z.max 0 last in
  let last := if len <=? last then len - 1 else last in
  if (last <? first) || (len =? 0) then ""
  else str_take (Z.to_nat (last - first + 1)) (str_drop (Z.to_nat first) s).

Definition getrange (k : key) (first last : Z) (d : gmap key value) : reply :=
  if in_llong first && in_llong last then
    match d !! k with
    | None => RStr ""
    | Some (VStr s) => RStr (range_of s first last)
    | Some (VSet _) => RErr wrongtype
    end
  else RErr not_an_integer.

Definition mget1 (d : gmap key value) (k : key) : reply :=
  match d !! k with
  | Some (VStr s) => RStr s
  | _ => RNil
  end.

Definition mset (kvs : list (key * string)) (d : gmap key value)
  : gmap key value :=
  foldl (fun d kv => <[kv.1 := VStr kv.2]> d) d kvs.

(** The reply to a command and the database after it. *)
Definition exec (c : cmd) (d : gmap key value) : reply * gmap key value :=
  match c with
  | PING => (RStatus "PONG", d)
  | INCR k => incrby k 1 d
  | INCRBY k n => incrby k n d
  | GET k =>
      (match d !! k with
       | None => RNil
       | Some (VStr s) => RStr s
       | Some (VSet _) => RErr wrongtype
       end, d)
  | SET k v => (RStatus "OK", <[k := VStr v]> d)
  | MSET kvs => (RStatus "OK", mset kvs d)
  | MGET ks =>
      (match ks with
       | [] => RErr wrong_arity
       | _ => RArr (mget1 d <$> ks)
       end, d)
  | DEL k => (RInt (match d !! k with Some _ => 1 | None => 0 end), delete k d)
  | APPEND k v =>
      match d !! k with
      | None => (RInt (Z.of_nat (String.length v)), <[k := VStr v]> d)
      | Some (VStr s) =>
          (RInt (Z.of_nat (String.length (s ++ v))), <[k := VStr (s ++ v)]> d)
      | Some (VSet _) => (RErr wrongtype, d)
      end
  | GETRANGE k first last => (getrange k first last d, d)
  | SUBSTR k first last => (getrange k first last d, d)
  | SADD k m =>
      match d !! k with
      | None => (RInt 1, <[k := VSet {[m]}]> d)
      | Some (VSet s) =>
          if decide (m ∈ s) then (RInt 0, d)
          else (RInt 1, <[k := VSet ({[m]} ∪ s)]> d)
      | Some (VStr _) => (RErr wrongtype, d)
      end
  | SREM k m =>
      match d !! k with
      | None => (RInt 0, d)
      | Some (VSet s) =>
          if decide (m ∈ s) then
            (RInt 1,
             if decide (s ∖ {[m]} = ∅) then delete k d
             else <[k := VSet (s ∖ {[m]})]> d)
          else (RInt 0, d)
      | Some (VStr _) => (RErr wrongtype, d)
      end
  | SMEMBERS k =>
      (match d !! k with
       | None => RArr []
       | Some (VSet s) => RArr (RStr <$> elements s)
       | Some (VStr _) => RErr wrongtype
       end, d)
  end.

(** [reply->str]: [None] is the null pointer. *)
Definition reply_str (r : reply) : option string :=
  match r with
  | RStr s | RStatus s | RErr s => Some s
  | _ => None
  end.

(** [reply->type == REDIS_REPLY_STRING]. *)
Definition is_string (r : reply) : bool :=
  match r with RStr _ => true | _ => false end.

End Redis.
Export Redis.

(** ** The hiredis connection and the monad of handlers *)

Module Conn.

Record conn : Type := Conn {
  db : gmap key value;      (* the server's key space *)
  connected : bool;         (* [_g_redis != NULL] *)
  inbuf : list reply;       (* replies sent by the server, not yet read *)
  log : list cmd            (* every command sent so far *)
}.

(** A computation either returns a value or has no defined result
    ([None]): the process dies on a null pointer, blocks on a reply that
    will not come, or reads or writes outside an allocation, which C
    leaves undefined and after which the real process may do anything,
    also return.  The connection is kept as it was at that point. *)
Definition M (A : Type) : Type := conn -> option A * conn.

Definition ret {A} (a : A) : M A := fun s => (Some a, s).

Definition bind {A B} (m : M A) (f : A -> M B) : M B :=
  fun s =>
    match m s with
    | (Some a, s') => f a s'
    | (None, s') => (None, s')
    end.

Definition crash {A} : M A := fun s => (None, s).

(** A pure step that may dereference a null pointer. *)
Definition lift {A} (o : option A) : M A :=
  match o with Some a => ret a | None => crash end.

End Conn.
Export Conn.

Notation "x <- c1 ;; c2" := (bind c1 (fun x => c2))
  (at level 100, c1 at next level, right associativity).
Notation "c1 ;; c2" := (bind c1 (fun _ => c2))
  (at level 100, right associativity).

(** ** redisfs.c *)

Module RedisFS.

(** The options of the command line that the handlers read. *)
Record config : Set := Config {
  _g_read_only : bool;
  _g_fast : bool
}.

(** What a handler reads from its surroundings: the clock, the
    credentials of the process that made the request
    ([fuse_get_context()]) and those of the filesystem process itself
    ([getuid()], [getgid()]).  Every [time(NULL)] of one call reads the
    same second. *)
Record env : Set := Env {
  time_now : Z;
  fuse_uid : Z;
  fuse_gid : Z;
  getuid : Z;
  getgid : Z
}.

Record stat : Set := Stat {
  st_mode : Z;
  st_nlink : Z;
  st_uid : Z;
  st_gid : Z;
  st_size : Z;
  st_atime : Z;
  st_mtime : Z;
  st_ctime : Z
}.

(** [memset(stbuf, 0, sizeof(struct stat))]. *)
Definition zero_stat : stat := Stat 0 0 0 0 0 0 0 0.

Definition set_mode (v : Z) (b : stat) : stat :=
  Stat v (st_nlink b) (st_uid b) (st_gid b) (st_size b) (st_atime b) (st_mtime b) (st_ctime b).
Definition set_nlink (v : Z) (b : stat) : stat :=
  Stat (st_mode b) v (st_uid b) (st_gid b) (st_size b) (st_atime b) (st_mtime b) (st_ctime b).
Definition set_uid (v : Z) (b : stat) : stat :=
  Stat (st_mode b) (st_nlink b) v (st_gid b) (st_size b) (st_atime b) (st_mtime b) (st_ctime b).
Definition set_gid (v : Z) (b : stat) : stat :=
  Stat (st_mode b) (st_nlink b) (st_uid b) v (st_size b) (st_atime b) (st_mtime b) (st_ctime b).
Definition set_size (v : Z) (b : stat) : stat :=
  Stat (st_mode b) (st_nlink b) (st_uid b) (st_gid b) v (st_atime b) (st_mtime b) (st_ctime b).
Definition set_atime (v : Z) (b : stat) : stat :=
  Stat (st_mode b) (st_nlink b) (st_uid b) (st_gid b) (st_size b) v (st_mtime b) (st_ctime b).
Definition set_mtime (v : Z) (b : stat) : stat :=
  Stat (st_mode b) (st_nlink b) (st_uid b) (st_gid b) (st_size b) (st_atime b) v (st_ctime b).
Definition set_ctime (v : Z) (b : stat) : stat :=
  Stat (st_mode b) (st_nlink b) (st_uid b) (st_gid b) (st_size b) (st_atime b) (st_mtime b) v.

(** *** hiredis calls *)

(** [redisAppendCommand]: the command joins the output buffer.  The
    server runs the buffered commands in order at the next read, and
    every handler reads after its last append, so the command is run
    here and its reply queued. *)
Definition redisAppendCommand (c : cmd) : M unit := fun s =>
  if connected s then
    let '(r, d) := exec c (db s) in
    (Some tt, Conn d true (inbuf s ++ [r]) (log s ++ [c]))
  else (None, s).

(** [redisGetReply]: the oldest unread reply. *)
Definition redisGetReply : M reply := fun s =>
  match inbuf s with
  | r :: rest => (Some r, Conn (db s) (connected s) rest (log s))
  | [] => (None, s)
  end.

Definition redisCommand (c : cmd) : M reply :=
  redisAppendCommand c ;; redisGetReply.

(** [redisConnectWithTimeout]: a fresh connection to the same server
    (the process exits when there is none). *)
Definition redisConnectWithTimeout : M unit := fun s =>
  (Some tt, Conn (db s) true [] (log s)).

Definition have_handle : M bool := fun s => (Some (connected s), s).

Definition redis_alive : M unit :=
  h <- have_handle ;;
  if h then
    reply <- redisCommand PING ;;
    match reply_str reply with
    | Some str => if String.eqb str "PONG" then ret tt
                  else redisConnectWithTimeout
    | None => redisConnectWithTimeout
    end
  else redisConnectWithTimeout.

Fixpoint append_all (cs : list cmd) : M unit :=
  match cs with
  | [] => ret tt
  | c :: cs' => redisAppendCommand c ;; append_all cs'
  end.

(** [n] times [redisGetReply] and [freeReplyObject]. *)
Fixpoint drain (n : nat) : M unit :=
  match n with
  | O => ret tt
  | S n' => redisGetReply ;; drain n'
  end.

(** *** Helpers *)

Definition get_next_inode : M Z :=
  redis_alive ;;
  reply <- redisCommand (INCR GLOBAL_INODE) ;;
  ret (match reply with RInt n => to_int n | _ => -1 end).

Definition remove_inode (inode : Z) : M unit :=
  if inode <? 0 then ret tt
  else
    redis_alive ;;
    append_all ((fun a => DEL (INODE (fmt_d inode) a)) <$> all_attrs) ;;
    drain (length all_attrs).

(** [_g_prefix], the prefix of every key name, as it is initialised: the
    filesystem is the one started without [--prefix].  The keys of the
    model leave the prefix out; its length counts in the buffer below. *)
Definition _g_prefix : string := "skx".

(** The text that one turn of the loop of [find_inode] and [fs_readdir]
    prints behind what [memcommand] holds. *)
Definition member_text (member : reply) : string :=
  match reply_str member with
  | Some str => (" " ++ _g_prefix ++ ":INODE:" ++ str ++ ":NAME")%string
  | None => ""
  end.

(** [strlen(memcommand)] after the loop: "MGET", then one key name for
    each member of the directory set. *)
Fixpoint memcommand_length (members : list reply) : Z :=
  match members with
  | [] => Z.of_nat (String.length "MGET")
  | m :: ms => Z.of_nat (String.length (member_text m)) + memcommand_length ms
  end.

(** [memcommand = malloc(1048576)]: the text and the zero byte that ends
    it are inside the allocation.  When they are not, [sprintf] writes
    past it. *)
Definition memcommand_fits (members : list reply) : bool :=
  memcommand_length members <? 1048576.

(** The keys of the [MGET] that [find_inode] and [fs_readdir] build from
    the members of a directory set. *)
Fixpoint name_keys (members : list reply) : option (list key) :=
  match members with
  | [] => Some []
  | m :: ms =>
      match reply_str m, name_keys ms with
      | Some str, Some ks => Some (INODE str NAME :: ks)
      | _, _ => None
      end
  end.

(** The loop of [find_inode] over the members and their names: every
    member whose name is [entry] overwrites [val]. *)
Fixpoint scan_names (entry : string) (members names : list reply) (val : Z)
  : option Z :=
  match members, names with
  | [], _ => Some val
  | m :: ms, n :: ns =>
      match reply_str n, reply_str m with
      | Some name, Some str =>
          scan_names entry ms ns (if String.eqb name entry then atoi str else val)
      | Some name, None =>
          if String.eqb name entry then None else scan_names entry ms ns val
      | None, _ => None
      end
  | _ :: _, [] => None
  end.

Definition reply_elements (r : reply) : option (list reply) :=
  match r with RArr l => Some l | _ => None end.

(** The part of [find_inode] after the recursive call: fetch the
    members of the parent's set, their names with one [MGET], and scan. *)
Definition find_in_directory (parent_inode : Z) (entry : string) : M Z :=
  reply <- redisCommand (SMEMBERS (DIRENT (fmt_d parent_inode))) ;;
  match reply with
  | RArr members =>
      ks <- lift (name_keys members) ;;
      if memcommand_fits members then
        r <- redisCommand (MGET ks) ;;
        match members with
        | [] => ret (-1)
        | _ =>
            names <- lift (reply_elements r) ;;
            lift (scan_names entry members names (-1))
        end
      else crash
  | _ => ret (-1)
  end.

Fixpoint find_inode_rec (fuel : nat) (path : string) : M Z :=
  if String.eqb path "/" then ret (-99)
  else
    match fuel with
    | O => crash
    | S fuel' =>
        redis_alive ;;
        match get_parent path with
        | None => crash
        | Some parent =>
            parent_inode <- find_inode_rec fuel' parent ;;
            find_in_directory parent_inode (get_basename path)
        end
    end.

(** Each call of [find_inode] on a path other than "/" recurses on a
    strictly shorter path, so the length of the path is enough fuel. *)
Definition find_inode (path : string) : M Z :=
  find_inode_rec (String.length path) path.

(** [find_inode] on the result of [get_parent]; [strcmp] on [NULL] has
    no defined result. *)
Definition find_inode_ptr (path : option string) : M Z :=
  match path with
  | Some p => find_inode p
  | None => crash
  end.

Definition is_directory (path : string) : M Z :=
  redis_alive ;;
  inode <- find_inode path ;;
  if inode =? -1 then ret (-1)
  else
    reply <- redisCommand (GET (INODE (fmt_d inode) TYPE)) ;;
    ret (match reply with
         | RStr str => if String.eqb str "DIR" then 1 else 0
         | _ => 0
         end).

Definition count_directory_entries (path : string) : M Z :=
  redis_alive ;;
  inode <- find_inode path ;;
  reply <- redisCommand (SMEMBERS (DIRENT (fmt_d inode))) ;;
  ret (match reply with
       | RArr members => to_int (Z.of_nat (length members))
       | _ => 0
       end).

(** *** The FUSE operations *)

(** [reply->element[i]].  A reply that is not an array has a null
    [element] pointer, and reading it has no defined result.  [fs_getattr] also
    reads one slot past the end of a six element array; what it finds
    there is the argument [past_end] ([None]: a null pointer). *)
Definition element (r : reply) (i : nat) (past_end : option reply)
  : option (option reply) :=
  match r with
  | RArr l => Some (match l !! i with Some x => Some x | None => past_end end)
  | _ => None
  end.

(** [if (reply->element[i] != NULL && reply->element[i]->type ==
    REDIS_REPLY_STRING) field = atoi(reply->element[j]->str);] *)
Definition getattr_field (rep : reply) (past_end : option reply)
    (i j : nat) (set : Z -> stat -> stat) (stbuf : stat) : option stat :=
  match element rep i past_end with
  | None => None
  | Some None => Some stbuf
  | Some (Some e) =>
      if is_string e then
        match element rep j past_end with
        | Some (Some src) =>
            match reply_str src with
            | Some str => Some (set (atoi str) stbuf)
            | None => None
            end
        | _ => None
        end
      else Some stbuf
  end.

Definition opt_bind {A B} (o : option A) (f : A -> option B) : option B :=
  match o with Some a => f a | None => None end.

(** The seven tests on the first reply of [fs_getattr], in order. *)
Definition getattr_times (rep : reply) (past_end : option reply)
    (stbuf : stat) : option stat :=
  opt_bind (getattr_field rep past_end 0 0 set_ctime stbuf) (fun b =>
  opt_bind (getattr_field rep past_end 1 1 set_atime b) (fun b =>
  opt_bind (getattr_field rep past_end 2 2 set_mtime b) (fun b =>
  opt_bind (getattr_field rep past_end 3 3 (fun v => set_gid (to_u32 v)) b) (fun b =>
  opt_bind (getattr_field rep past_end 4 3 (fun v => set_uid (to_u32 v)) b) (fun b =>
  opt_bind (getattr_field rep past_end 5 4 (fun v => set_nlink (to_u64 v)) b) (fun b =>
  getattr_field rep past_end 6 5 set_ctime b)))))).

(** The second reply of [fs_getattr]: TYPE, MODE and SIZE. *)
Definition getattr_type (rep : reply) (stbuf : stat) : option stat :=
  match element rep 0 None with
  | None => None
  | Some (Some (RStr type)) =>
      opt_bind
        (match element rep 1 None with
         | Some (Some (RStr mode)) => Some (set_mode (to_u32 (atoi mode)) stbuf)
         | Some _ => Some stbuf
         | None => None
         end) (fun b =>
      if String.eqb type "DIR" then
        Some (set_mode (Z.lor (st_mode b) S_IFDIR) b)
      else if String.eqb type "LINK" then
        Some (set_size 0 (set_nlink 1 (set_mode (Z.lor (st_mode b) S_IFLNK) b)))
      else if String.eqb type "FILE" then
        match element rep 2 None with
        | Some (Some (RStr size)) => Some (set_size (atoi size) b)
        | Some _ => Some b
        | None => None
        end
      else Some b)
  | Some _ => Some stbuf
  end.

Definition fs_getattr (e : env) (past_end : option reply) (path : string)
  : M (Z * stat) :=
  redis_alive ;;
  let stbuf := zero_stat in
  if String.eqb path "/" then
    let t := time_now e in
    ret (0, Stat (Z.lor S_IFDIR 493) 1 (getuid e) (getgid e) 0 t t t)
  else
    inode <- find_inode path ;;
    if inode =? -1 then ret (- ENOENT, stbuf)
    else
      let i := fmt_d inode in
      redisAppendCommand
        (MGET [INODE i CTIME; INODE i ATIME; INODE i MTIME;
               INODE i GID; INODE i UID; INODE i LINK]) ;;
      reply <- redisGetReply ;;
      stbuf <- lift (getattr_times reply past_end stbuf) ;;
      reply <- redisCommand (MGET [INODE i TYPE; INODE i MODE; INODE i SIZE]) ;;
      stbuf <- lift (getattr_type reply stbuf) ;;
      ret (0, stbuf).

(** The attribute block that [fs_mkdir] and [fs_create] write with one
    [MSET]. *)
Definition new_entry (e : env) (inode : Z) (entry type : string) (mode : Z)
  : list (key * string) :=
  let i := fmt_d inode in
  [(INODE i NAME, entry); (INODE i TYPE, type); (INODE i MODE, fmt_d mode);
   (INODE i UID, fmt_d (fuse_uid e)); (INODE i GID, fmt_d (fuse_gid e));
   (INODE i SIZE, fmt_d 0); (INODE i CTIME, fmt_d (time_now e));
   (INODE i MTIME, fmt_d (time_now e)); (INODE i ATIME, fmt_d (time_now e));
   (INODE i LINK, "1")].

Definition fs_mkdir (c : config) (e : env) (path : string) (mode : Z) : M Z :=
  if _g_read_only c then ret (- EPERM)
  else
    redis_alive ;;
    let parent := get_parent path in
    let entry := get_basename path in
    new_inode <- get_next_inode ;;
    parent_inode <- find_inode_ptr parent ;;
    redisAppendCommand (SADD (DIRENT (fmt_d parent_inode)) (fmt_d new_inode)) ;;
    redisAppendCommand (MSET (new_entry e new_inode entry "DIR" mode)) ;;
    drain 2 ;;
    ret 0.

Definition fs_rmdir (c : config) (path : string) : M Z :=
  if _g_read_only c then ret (- EPERM)
  else
    redis_alive ;;
    isdir <- is_directory path ;;
    if isdir =? 0 then ret (- ENOENT)
    else
      count <- count_directory_entries path ;;
      if negb (count =? 0) then ret (- ENOTEMPTY)
      else
        parent_inode <- find_inode_ptr (get_parent path) ;;
        inode <- find_inode path ;;
        if inode =? -1 then ret (- ENOENT)
        else
          redisCommand (SREM (DIRENT (fmt_d parent_inode)) (fmt_d inode)) ;;
          remove_inode inode ;;
          ret 0.

(** [buf] holds the [size] bytes of the request. *)
Definition fs_write (c : config) (e : env) (path : string) (buf : string)
    (offset : Z) : M Z :=
  let size := Z.of_nat (String.length buf) in
  if _g_read_only c then ret (- EPERM)
  else
    redis_alive ;;
    inode <- find_inode path ;;
    let i := fmt_d inode in
    (if offset =? 0 then
       redisAppendCommand
         (MSET [(INODE i SIZE, fmt_d size); (INODE i MTIME, fmt_d (time_now e));
                (INODE i DATA, buf)]) ;;
       drain 1
     else
       redisAppendCommand (INCRBY (INODE i SIZE) (to_int size)) ;;
       redisAppendCommand (APPEND (INODE i DATA) buf) ;;
       (if _g_fast c then ret tt
        else
          redisAppendCommand (SET (INODE i MTIME) (fmt_d (time_now e))) ;;
          drain 1) ;;
       drain 2) ;;
    ret (to_int size).

(** [memcpy(buf, src, n)] from a reply string: hiredis keeps a
    terminating zero byte behind the [len] bytes of the string; a longer
    copy reads outside the allocation, which is undefined ([None]). *)
Definition memcpy_from (src : option string) (n : Z) : option string :=
  match src with
  | Some str =>
      if n <=? Z.of_nat (String.length str) + 1
      then Some (str_take (Z.to_nat n) (str ++ String zero EmptyString))
      else None
  | None => None
  end.

(** Returns the status and the bytes copied to the start of [buf]. *)
Definition fs_read (path : string) (size offset : Z) : M (Z * string) :=
  redis_alive ;;
  inode <- find_inode path ;;
  if inode =? -1 then ret (- ENOENT, "")
  else
    let i := fmt_d inode in
    reply <- redisCommand (GET (INODE i SIZE)) ;;
    str <- lift (reply_str reply) ;;
    let sz := to_u64 (atoi str) in
    let size := if sz <? size then sz else size in
    let size := if to_u64 (offset + size) >? sz then to_u64 (sz - offset) else size in
    reply <- redisCommand
               (GETRANGE (INODE i DATA) (to_u64 offset) (to_u64 (size + offset))) ;;
    reply <- match reply with
             | RErr _ =>
                 redisCommand
                   (SUBSTR (INODE i DATA) (to_u64 offset) (to_u64 (size + offset)))
             | _ => ret reply
             end ;;
    copied <- (if size >? 0 then lift (memcpy_from (reply_str reply) size)
               else ret "") ;;
    ret (to_int size, copied).

Definition fs_symlink (c : config) (e : env) (target path : string) : M Z :=
  if _g_read_only c then ret (- EPERM)
  else
    redis_alive ;;
    parent_inode <- find_inode_ptr (get_parent path) ;;
    let entry := get_basename path in
    key <- get_next_inode ;;
    let i := fmt_d key in
    redisAppendCommand (SADD (DIRENT (fmt_d parent_inode)) (fmt_d key)) ;;
    append_all
      [SET (INODE i NAME) entry; SET (INODE i TYPE) "LINK";
       SET (INODE i TARGET) target; SET (INODE i MODE) (fmt_d 292);
       SET (INODE i UID) (fmt_d (fuse_uid e));
       SET (INODE i GID) (fmt_d (fuse_gid e)); SET (INODE i SIZE) (fmt_d 0);
       SET (INODE i CTIME) (fmt_d (time_now e));
       SET (INODE i MTIME) (fmt_d (time_now e));
       SET (INODE i ATIME) (fmt_d (time_now e)); SET (INODE i LINK) "1"] ;;
    drain 11 ;;
    ret 0.

(** Returns the status and the text copied to [buf], which has [size]
    bytes.  [strcpy] copies the target up to its first zero byte, and a
    zero byte behind it, without looking at [size]: when they are more
    than [size] bytes it writes past [buf]. *)
Definition fs_readlink (path : string) (size : Z) : M (Z * string) :=
  redis_alive ;;
  inode <- find_inode path ;;
  if inode =? -1 then ret (- ENOENT, "")
  else
    reply <- redisCommand (GET (INODE (fmt_d inode) TARGET)) ;;
    match reply with
    | RStr str =>
        if Z.of_nat (String.length (c_str str)) <? to_u64 size
        then ret (0, c_str str)
        else crash
    | _ => ret (- ENOENT, "")
    end.

(** The names handed to [filler], after "." and "..". *)
Fixpoint readdir_names (names : list reply) : option (list string) :=
  match names with
  | [] => Some []
  | n :: ns =>
      match reply_str n, readdir_names ns with
      | Some str, Some l => Some (str :: l)
      | _, _ => None
      end
  end.

(** Returns the status and the entries given to [filler]. *)
Definition fs_readdir (path : string) : M (Z * list string) :=
  redis_alive ;;
  inode <- find_inode path ;;
  if inode =? -1 then ret (0, ["."; ".."])
  else
    reply <- redisCommand (SMEMBERS (DIRENT (fmt_d inode))) ;;
    match reply with
    | RArr members =>
        ks <- lift (name_keys members) ;;
        if memcommand_fits members then
          r <- redisCommand (MGET ks) ;;
          match members with
          | [] => ret (0, ["."; ".."])
          | _ =>
              names <- lift (reply_elements r) ;;
              l <- lift (readdir_names (take (length members) names)) ;;
              if (length names <? length members)%nat then crash
              else ret (0, "." :: ".." :: l)
          end
        else crash
    | _ => ret (0, ["."; ".."])
    end.

Definition touch_atime (e : env) (c : config) (path : string) : M Z :=
  if _g_fast c then ret 0
  else
    inode <- find_inode path ;;
    if inode =? -1 then ret 0
    else
      redisCommand (SET (INODE (fmt_d inode) ATIME) (fmt_d (time_now e))) ;;
      ret 0.

Definition fs_open (c : config) (e : env) (path : string) : M Z :=
  touch_atime e c path.

Definition fs_access (c : config) (e : env) (path : string) : M Z :=
  touch_atime e c path.

Definition fs_create (c : config) (e : env) (path : string) (mode : Z) : M Z :=
  if _g_read_only c then ret (- EPERM)
  else
    redis_alive ;;
    parent_inode <- find_inode_ptr (get_parent path) ;;
    let entry := get_basename path in
    key <- get_next_inode ;;
    redisAppendCommand (SADD (DIRENT (fmt_d parent_inode)) (fmt_d key)) ;;
    redisAppendCommand (MSET (new_entry e key entry "FILE" mode)) ;;
    drain 2 ;;
    ret 0.

Definition fs_chown (c : config) (e : env) (path : string) (uid gid : Z)
  : M Z :=
  if _g_read_only c then ret (- EPERM)
  else
    redis_alive ;;
    inode <- find_inode path ;;
    if inode =? -1 then ret (- ENOENT)
    else
      let i := fmt_d inode in
      redisCommand
        (MSET [(INODE i UID, fmt_d uid); (INODE i GID, fmt_d gid);
               (INODE i MTIME, fmt_d (time_now e))]) ;;
      ret 0.

Definition fs_chmod (c : config) (e : env) (path : string) (mode : Z) : M Z :=
  if _g_read_only c then ret (- EPERM)
  else
    redis_alive ;;
    inode <- find_inode path ;;
    if inode =? -1 then ret (- ENOENT)
    else
      let i := fmt_d inode in
      redisCommand
        (MSET [(INODE i MODE, fmt_d mode); (INODE i MTIME, fmt_d (time_now e))]) ;;
      ret 0.

(** [atime] and [mtime] are [tv[0].tv_sec] and [tv[1].tv_sec]. *)
Definition fs_utimens (c : config) (path : string) (atime mtime : Z) : M Z :=
  if _g_read_only c then ret (- EPERM)
  else
    redis_alive ;;
    inode <- find_inode path ;;
    if inode =? -1 then ret (- ENOENT)
    else
      let i := fmt_d inode in
      redisCommand
        (MSET [(INODE i ATIME, fmt_d atime); (INODE i MTIME, fmt_d mtime)]) ;;
      ret 0.

Definition fs_unlink (c : config) (path : string) : M Z :=
  if _g_read_only c then ret (- EPERM)
  else
    redis_alive ;;
    inode <- find_inode path ;;
    if inode =? -1 then ret (- ENOENT)
    else
      parent_inode <- find_inode_ptr (get_parent path) ;;
      redisCommand (SREM (DIRENT (fmt_d parent_inode)) (fmt_d inode)) ;;
      remove_inode inode ;;
      ret 0.

Definition fs_rename (c : config) (old path : string) : M Z :=
  if _g_read_only c then ret (- EPERM)
  else
    redis_alive ;;
    old_inode <- find_inode old ;;
    if old_inode =? -1 then ret (- ENOENT)
    else
      redisCommand (SET (INODE (fmt_d old_inode) NAME) (get_basename path)) ;;
      parent_inode <- find_inode_ptr (get_parent old) ;;
      redisCommand (SREM (DIRENT (fmt_d parent_inode)) (fmt_d old_inode)) ;;
      parent_inode <- find_inode_ptr (get_parent path) ;;
      redisCommand (SADD (DIRENT (fmt_d parent_inode)) (fmt_d old_inode)) ;;
      ret 0.

(** [size], the requested length, is not read. *)
Definition fs_truncate (c : config) (e : env) (path : string) (size : Z)
  : M Z :=
  if _g_read_only c then ret (- EPERM)
  else
    redis_alive ;;
    isdir <- is_directory path ;;
    if negb (isdir =? 0) then ret (- ENOENT)
    else
      inode <- find_inode path ;;
      if inode =? -1 then ret (- ENOENT)
      else
        let i := fmt_d inode in
        redisCommand (DEL (INODE i DATA)) ;;
        redisCommand
          (MSET [(INODE i SIZE, "0"); (INODE i MTIME, fmt_d (time_now e))]) ;;
        ret 0.

(** *** The same lookups as functions of the database

    These are not part of the program: they say what [find_inode]
    computes on a connection with no unread reply, and the lemmas
    [find_in_directory_ready] and [find_inode_ready] below prove it.
    [None] is a lookup without a defined result: one that meets a
    directory set too long for the buffer, or a member without NAME. *)

(** A connection with a handle and no unread reply. *)
Definition ready (d : gmap key value) (l : list cmd) : conn := Conn d true [] l.

Fixpoint scan_set (d : gmap key value) (entry : string) (members : list string)
    (val : Z) : option Z :=
  match members with
  | [] => Some val
  | m :: ms =>
      match d !! INODE m NAME with
      | Some (VStr name) =>
          scan_set d entry ms (if String.eqb name entry then atoi m else val)
      | _ => None
      end
  end.

(** The members of a directory set fit the buffer of [find_inode] and
    [fs_readdir]. *)
Definition set_fits (s : gset string) : bool :=
  memcommand_fits (RStr <$> elements s).

Definition dir_scan (d : gmap key value) (dir entry : string) : option Z :=
  match d !! DIRENT dir with
  | Some (VSet s) =>
      if set_fits s then scan_set d entry (elements s) (-1) else None
  | _ => Some (-1)
  end.

Fixpoint resolve_rec (fuel : nat) (d : gmap key value) (path : string)
  : option Z :=
  if String.eqb path "/" then Some (-99)
  else
    match fuel with
    | O => None
    | S fuel' =>
        match get_parent path with
        | None => None
        | Some parent =>
            match resolve_rec fuel' d parent with
            | Some parent_inode =>
                dir_scan d (fmt_d parent_inode) (get_basename path)
            | None => None
            end
        end
    end.

Definition resolve (d : gmap key value) (path : string) : option Z :=
  resolve_rec (String.length path) d path.



(** The members of the directory set of inode text [dir]. *)
Definition members (d : gmap key value) (dir : string) : gset string :=
  match d !! DIRENT dir with
  | Some (VSet s) => s
  | _ => ∅
  end.

(** The database after a list of commands, one after the other. *)
Definition exec_all (cs : list cmd) (d : gmap key value) : gmap key value :=
  foldl (fun d c => (exec c d).2) d cs.

(** The commands of [fs_write] once the path is resolved to [inode]. *)
Definition write_cmds (c : config) (e : env) (inode : Z) (buf : string)
    (offset : Z) : list cmd :=
  let i := fmt_d inode in
  let size := Z.of_nat (String.length buf) in
  if offset =? 0 then
    [MSET [(INODE i SIZE, fmt_d size); (INODE i MTIME, fmt_d (time_now e));
           (INODE i DATA, buf)]]
  else
    [INCRBY (INODE i SIZE) (to_int size); APPEND (INODE i DATA) buf]
    ++ (if _g_fast c then []
        else [SET (INODE i MTIME) (fmt_d (time_now e))]).

(** The keys a command may write. *)
Definition written (c : cmd) : list key :=
  match c with
  | PING | GET _ | MGET _ | GETRANGE _ _ _ | SUBSTR _ _ _ | SMEMBERS _ => []
  | INCR k | INCRBY k _ | SET k _ | DEL k | APPEND k _ | SADD k _ | SREM k _ =>
      [k]
  | MSET kvs => kvs.*1
  end.

(** What [get_next_inode] returns on database [d], and the database it
    leaves. *)
Definition next_inode (d : gmap key value) : Z :=
  match (exec (INCR GLOBAL_INODE) d).1 with
  | RInt n => to_int n
  | _ => -1
  end.

Definition after_incr (d : gmap key value) : gmap key value :=
  (exec (INCR GLOBAL_INODE) d).2.

(** The two commands of [fs_mkdir] and [fs_create], and the twelve of
    [fs_symlink], that enter inode [inode] in directory [parent_inode]. *)
Definition link_cmds (e : env) (parent_inode inode : Z) (entry type : string)
    (mode : Z) : list cmd :=
  [SADD (DIRENT (fmt_d parent_inode)) (fmt_d inode);
   MSET (new_entry e inode entry type mode)].

Definition symlink_cmds (e : env) (parent_inode inode : Z)
    (entry target : string) : list cmd :=
  let i := fmt_d inode in
  [SADD (DIRENT (fmt_d parent_inode)) (fmt_d inode);
   SET (INODE i NAME) entry; SET (INODE i TYPE) "LINK";
   SET (INODE i TARGET) target; SET (INODE i MODE) (fmt_d 292);
   SET (INODE i UID) (fmt_d (fuse_uid e));
   SET (INODE i GID) (fmt_d (fuse_gid e)); SET (INODE i SIZE) (fmt_d 0);
   SET (INODE i CTIME) (fmt_d (time_now e));
   SET (INODE i MTIME) (fmt_d (time_now e));
   SET (INODE i ATIME) (fmt_d (time_now e)); SET (INODE i LINK) "1"].

(** The commands of [remove_inode], and those of [fs_unlink] and
    [fs_rmdir] once the entry and its parent are resolved. *)
Definition remove_cmds (inode : Z) : list cmd :=
  if inode <? 0 then []
  else (fun a => DEL (INODE (fmt_d inode) a)) <$> all_attrs.



(** What [is_directory] and [count_directory_entries] return for a path
    that resolves to [inode]. *)
Definition is_dir (d : gmap key value) (inode : Z) : Z :=
  match d !! INODE (fmt_d inode) TYPE with
  | Some (VStr str) => if String.eqb str "DIR" then 1 else 0
  | _ => 0
  end.

Definition entry_count (d : gmap key value) (inode : Z) : Z :=
  to_int (Z.of_nat (size (members d (fmt_d inode)))).

(** The file type bits that [fs_getattr] ors into [st_mode] for an
    entry of type [type]. *)
Definition type_bits (type : string) : Z :=
  if String.eqb type "DIR" then S_IFDIR
  else if String.eqb type "LINK" then S_IFLNK
  else 0.

(** *** Well-formed stores

    The invariants of the data model that the scenarios below start
    from. *)

(** The value of the inode counter; an absent key counts as 0. *)
Definition counter (d : gmap key value) : option Z :=
  match d !! GLOBAL_INODE with
  | None => Some 0
  | Some (VStr s) => string2ll s
  | Some (VSet _) => None
  end.

Definition named (d : gmap key value) (m name : string) : Prop :=
  d !! INODE m NAME = Some (VStr name).

Record well_formed (d : gmap key value) (c : Z) : Prop := WellFormed {
  (* the counter holds the number [c] *)
  wf_counter : counter d = Some c /\ 0 <= c;
  (* directory keys hold sets *)
  wf_sets : forall dir v, d !! DIRENT dir = Some v -> exists s, v = VSet s;
  (* only the root and allocated inodes have entries *)
  wf_dirs : forall dir m, m ∈ members d dir ->
            dir = "-99" \/ exists i, dir = dec i /\ 0 < i <= c;
  (* every member is the number of an allocated inode *)
  wf_members : forall dir m, m ∈ members d dir ->
               exists i, m = dec i /\ 0 < i <= c;
  (* every member has a name *)
  wf_named : forall dir m, m ∈ members d dir -> exists name, named d m name;
  (* names are unique within a directory *)
  wf_unique : forall dir m1 m2 name,
              m1 ∈ members d dir -> m2 ∈ members d dir ->
              named d m1 name -> named d m2 name -> m1 = m2
}.

(** No entry of directory [dir] is called [entry]. *)
Definition fresh_name (d : gmap key value) (dir entry : string) : Prop :=
  forall m, m ∈ members d dir -> ~ named d m entry.

(** *** The size invariant *)

(** The contents of a file: an absent DATA key is the empty file. *)
Definition file_data (d : gmap key value) (i : string) : option string :=
  match d !! INODE i DATA with
  | None => Some ""
  | Some (VStr data) => Some data
  | Some (VSet _) => None
  end.

(** SIZE holds the length of DATA. *)
Definition size_matches (d : gmap key value) (i : string) : Prop :=
  exists data,
    file_data d i = Some data /\
    d !! INODE i SIZE = Some (VStr (dec (Z.of_nat (String.length data)))).

Definition sizes_ok (d : gmap key value) : Prop :=
  forall i, d !! INODE i TYPE = Some (VStr "FILE") -> size_matches d i.

(** What the operations keep true of the store, together with
    [sizes_ok]: the counter holds a number, no member of a directory is
    above it, and no inode above it has data. *)
Record store_inv (d : gmap key value) (cnt : Z) : Prop := StoreInv {
  inv_counter : counter d = Some cnt /\ 0 <= cnt;
  inv_members : forall dir m, m ∈ members d dir -> atoi m <= cnt;
  inv_no_data : forall i, cnt < i -> d !! INODE (dec i) DATA = None;
  inv_sizes : sizes_ok d
}.

(** Between two calls the connection has no unread reply, or the one
    reply that [fs_symlink] leaves unread. *)
Definition in_step (s : conn) : Prop :=
  inbuf s = [] \/ inbuf s = [RStatus "OK"].

(** The calls of [redisfs_operations], with their arguments. *)
Inductive operation : Type :=
  | Getattr (past_end : option reply) (path : string)
  | Readdir (path : string)
  | Mkdir (path : string) (mode : Z)
  | Rmdir (path : string)
  | Write (path buf : string) (offset : Z)
  | Read (path : string) (size offset : Z)
  | Symlink (target path : string)
  | Readlink (path : string) (size : Z)
  | Open (path : string)
  | Access (path : string)
  | Create (path : string) (mode : Z)
  | Chown (path : string) (uid gid : Z)
  | Chmod (path : string) (mode : Z)
  | Utimens (path : string) (atime mtime : Z)
  | Unlink (path : string)
  | Rename (old path : string)
  | Truncate (path : string) (size : Z).

(** Forget the value a call returns. *)
Definition call {A} (m : M A) : M unit := m ;; ret tt.

Definition run (c : config) (e : env) (o : operation) : M unit :=
  match o with
  | Getattr past_end path => call (fs_getattr e past_end path)
  | Readdir path => call (fs_readdir path)
  | Mkdir path mode => call (fs_mkdir c e path mode)
  | Rmdir path => call (fs_rmdir c path)
  | Write path buf offset => call (fs_write c e path buf offset)
  | Read path size offset => call (fs_read path size offset)
  | Symlink target path => call (fs_symlink c e target path)
  | Readlink path size => call (fs_readlink path size)
  | Open path => call (fs_open c e path)
  | Access path => call (fs_access c e path)
  | Create path mode => call (fs_create c e path mode)
  | Chown path uid gid => call (fs_chown c e path uid gid)
  | Chmod path mode => call (fs_chmod c e path mode)
  | Utimens path atime mtime => call (fs_utimens c path atime mtime)
  | Unlink path => call (fs_unlink c path)
  | Rename old path => call (fs_rename c old path)
  | Truncate path size => call (fs_truncate c e path size)
  end.

(** The sizes an operation can handle: a new inode number fits an
    [int]; the bytes of a write fit an [int] and the file they are
    appended to stays within what redis counts. *)
Definition fits (d : gmap key value) (cnt : Z) (o : operation) : Prop :=
  match o with
  | Mkdir _ _ | Create _ _ | Symlink _ _ => cnt + 1 <= INT_MAX
  | Write path buf offset =>
      Z.of_nat (String.length buf) <= INT_MAX /\
      forall inode data,
        resolve d path = Some inode ->
        file_data d (fmt_d inode) = Some data ->
        Z.of_nat (String.length data) + Z.of_nat (String.length buf)
        <= LLONG_MAX
  | _ => True
  end.

(** A computation keeps the invariant: from a ready connection it ends,
    returning or not, on a ready connection whose store satisfies the
    invariant with the same counter. *)
Definition keeps (cnt : Z) {A} (m : M A) : Prop :=
  forall d l, store_inv d cnt ->
  exists r d' l', m (ready d l) = (r, ready d' l') /\ store_inv d' cnt.

(** A computation only reads: from a ready connection it ends,
    returning or not, on a ready connection to the same store. *)
Definition reads_only {A} (m : M A) : Prop :=
  forall d l, exists r l', m (ready d l) = (r, ready d l').

(** The two commands of [fs_truncate]. *)
Definition truncate_cmds (e : env) (inode : Z) : list cmd :=
  let i := fmt_d inode in
  [DEL (INODE i DATA);
   MSET [(INODE i SIZE, "0"); (INODE i MTIME, fmt_d (time_now e))]].

(** The outcome of a call keeps the invariant: the store satisfies it,
    with a counter that has not gone down, and a call that returned left
    the connection in a state the next call can start from. *)
Definition preserved (cnt : Z) {A} (out : option A * conn) : Prop :=
  (exists cnt', cnt <= cnt' /\ store_inv (db out.2) cnt') /\
  (out.1 <> None -> in_step out.2).

(** What the three operations that write SIZE and DATA of a file leave
    in the store [d'], on a mount that is not read-only, from a store [d]
    whose counter is [cnt]. *)
Definition effect (cnt : Z) (o : operation) (d d' : gmap key value) : Prop :=
  match o with
  | Create path mode =>
      forall parent parent_inode,
        get_parent path = Some parent -> resolve d parent = Some parent_inode ->
        let i := fmt_d (cnt + 1) in
        d' !! INODE i TYPE = Some (VStr "FILE") /\
        d' !! INODE i SIZE = Some (VStr "0") /\
        d' !! INODE i DATA = None
  | Write path buf offset =>
      forall inode data,
        resolve d path = Some inode ->
        d !! INODE (fmt_d inode) TYPE = Some (VStr "FILE") ->
        file_data d (fmt_d inode) = Some data ->
        let i := fmt_d inode in
        let size := Z.of_nat (String.length buf) in
        if offset =? 0 then
          d' !! INODE i SIZE = Some (VStr (dec size)) /\
          d' !! INODE i DATA = Some (VStr buf)
        else
          exists n,
            d !! INODE i SIZE = Some (VStr (dec n)) /\
            d' !! INODE i SIZE = Some (VStr (dec (n + size))) /\
            d' !! INODE i DATA = Some (VStr (data ++ buf))
  | Truncate path size =>
      forall inode,
        resolve d path = Some inode -> inode <> -1 -> is_dir d inode = 0 ->
        d' !! INODE (fmt_d inode) DATA = None /\
        d' !! INODE (fmt_d inode) SIZE = Some (VStr "0")
  | _ => True
  end.

(** The connection states that calls which fit and return lead to,
    from an empty store and no handle, with the value of the counter. *)
Inductive reachable (c : config) (e : env) : conn -> Z -> Prop :=
  | reach_start : reachable c e (Conn ∅ false [] []) 0
  | reach_step s cnt o s' cnt' :
      reachable c e s cnt -> fits (db s) cnt o ->
      run c e o s = (Some tt, s') -> counter (db s') = Some cnt' ->
      reachable c e s' cnt'.

(** *** Starting up *)




End RedisFS.
Export RedisFS.

(** ** redisfs-snapshot.c

    The snapshot tool works on the key space of the server as it is,
    with the full names of the keys. *)

Module Snapshot.

(** The commands the tool sends. *)
Inductive command : Type :=
  | KEYS (pattern : string)
  | KTYPE (k : string)
  | KGET (k : string)
  | KSET (k v : string)
  | KSMEMBERS (k : string)
  | KSADD (k m : string).

Section Server.

(** The glob matching of the server: pattern, then key. *)
Variable stringmatch : string -> string -> bool.

(** The reply to a command and the key space after it. *)
Definition run (c : command) (d : gmap string value)
  : reply * gmap string value :=
  match c with
  | KEYS pattern =>
      (RArr (RStr <$> List.filter (stringmatch pattern) (map_to_list d).*1), d)
  | KTYPE k =>
      (RStatus (match d !! k with
                | None => "none"
                | Some (VStr _) => "string"
                | Some (VSet _) => "set"
                end), d)
  | KGET k =>
      (match d !! k with
       | None => RNil
       | Some (VStr s) => RStr s
       | Some (VSet _) => RErr wrongtype
       end, d)
  | KSET k v => (RStatus "OK", <[k := VStr v]> d)
  | KSMEMBERS k =>
      (match d !! k with
       | None => RArr []
       | Some (VSet s) => RArr (RStr <$> elements s)
       | Some (VStr _) => RErr wrongtype
       end, d)
  | KSADD k m =>
      match d !! k with
      | None => (RInt 1, <[k := VSet {[m]}]> d)
      | Some (VSet s) =>
          if decide (m ∈ s) then (RInt 0, d)
          else (RInt 1, <[k := VSet ({[m]} ∪ s)]> d)
      | Some (VStr _) => (RErr wrongtype, d)
      end
  end.

(** [reply->elements] and [reply->element]: a reply that is no array
    has none. *)
Definition reply_elements (r : reply) : list reply :=
  match r with RArr l => l | _ => [] end.

(** The inner loop of [clone_keys]: one [SADD] for each member.  [None]
    is a member without bytes, which a reply to [SMEMBERS] never has. *)
Fixpoint clone_members (new_key : string) (members : list reply)
    (d : gmap string value) : option (gmap string value) :=
  match members with
  | [] => Some d
  | r :: rest =>
      match reply_str r with
      | Some m => clone_members new_key rest (run (KSADD new_key m) d).2
      | None => None
      end
  end.

(** The body of the outer loop, for one element of the reply to [KEYS].
    [None]: the element has no string, the key is shorter than the
    prefix, so that [old_key + strlen(prefix)] points past it, or the
    reply to [TYPE] has no string for [strcmp]. *)
Definition clone_key (prefix new_prefix : string) (elt : reply)
    (d : gmap string value) : option (gmap string value) :=
  match elt with
  | RStr bytes =>
      if (String.length bytes <? String.length prefix)%nat then None
      else
        let old_key := c_str bytes in
        let new_key :=
          (new_prefix ++ c_str (str_drop (String.length prefix) bytes))%string in
        let '(r, d) := run (KTYPE old_key) d in
        match reply_str r with
        | None => None
        | Some type =>
            if String.eqb type "string" then
              let '(cur, d) := run (KGET old_key) d in
              match cur with
              | RStr v => Some (run (KSET new_key v) d).2
              | _ => Some d
              end
            else if String.eqb type "set" then
              let '(cur, d) := run (KSMEMBERS old_key) d in
              clone_members new_key (reply_elements cur) d
            else Some d
        end
  | _ => None
  end.

Fixpoint clone_each (prefix new_prefix : string) (elts : list reply)
    (d : gmap string value) : option (gmap string value) :=
  match elts with
  | [] => Some d
  | elt :: rest =>
      match clone_key prefix new_prefix elt d with
      | Some d' => clone_each prefix new_prefix rest d'
      | None => None
      end
  end.

(** [clone_keys], on a server that answers. *)
Definition clone_keys (prefix new_prefix : string) (d : gmap string value)
  : option (gmap string value) :=
  let '(reply, d) := run (KEYS (prefix ++ "*")%string) d in
  match reply with
  | RArr elts => clone_each prefix new_prefix elts d
  | _ => Some d
  end.

End Server.

(** What a key under the new prefix holds after a key with value [v] was
    cloned onto it, when it held [old] before: a string replaces what was
    there, the members of a set are added to a set that was there. *)
Definition cloned_onto (v : value) (old : option value) : value :=
  match v, old with
  | VStr s, _ => VStr s
  | VSet m, Some (VSet m') => VSet (m' ∪ m)
  | VSet _, Some (VStr s) => VStr s
  | VSet m, None => VSet m
  end.

(** The matching of the server for a pattern that is a literal text
    followed by [*]: the keys that begin with the text. *)
Fixpoint begins_with (p k : string) : bool :=
  match p, k with
  | EmptyString, _ => true
  | String a p', String b k' => Ascii.eqb a b && begins_with p' k'
  | String _ _, EmptyString => false
  end.

Definition literal_star (pattern key : string) : bool :=
  begins_with (str_take (String.length pattern - 1) pattern) key.

End Snapshot.

(** * Part II: properties *)

Example get_parent_etc_passwd : get_parent "/etc/passwd" = Some "/etc".
Proof. reflexivity. Qed.

Example get_parent_root : get_parent "/" = Some "/".
Proof. reflexivity. Qed.

Example get_parent_top : get_parent "/steve" = Some "/".
Proof. reflexivity. Qed.

Example get_parent_no_slash : get_parent "fsdfkldsjf" = None.
Proof. reflexivity. Qed.

Example get_basename_etc_passwd : get_basename "/etc/passwd" = "passwd".
Proof. reflexivity. Qed.

Example get_basename_slashes :
  get_basename "/fsfsddddddddddddddddddddd////steve" = "steve".
Proof. reflexivity. Qed.

Example dec_examples :
  dec 0 = "0" /\ dec 1688 = "1688" /\ dec (-99) = "-99" /\ fmt_d (2 ^ 32 - 1) = "-1".
Proof. repeat split; reflexivity. Qed.

Example atoi_examples :
  atoi "1688" = 1688 /\ atoi "-99" = -99 /\ atoi "  42abc" = 42 /\ atoi "FILE" = 0.
Proof. repeat split; reflexivity. Qed.

(** ** Decimal text *)

Section DecimalFacts.

Lemma to_int_range z : is_int (to_int z).
Proof.
  unfold is_int, to_int, INT_MIN, INT_MAX.
  pose proof (Z.mod_pos_bound (z + 2 ^ 31) (2 ^ 32)). lia.
Qed.

Lemma to_int_id z : is_int z -> to_int z = z.
Proof.
  unfold is_int, to_int, INT_MIN, INT_MAX. intros H.
  rewrite Z.mod_small; lia.
Qed.

Lemma atoi_range s : is_int (atoi s).
Proof. apply to_int_range. Qed.

Lemma digit_cases d :
  0 <= d < 10 ->
  d = 0 \/ d = 1 \/ d = 2 \/ d = 3 \/ d = 4 \/ d = 5 \/ d = 6 \/ d = 7 \/
  d = 8 \/ d = 9.
Proof. lia. Qed.

Lemma digit_char_digit d :
  0 <= d < 10 ->
  is_digit (digit_char d) = true /\ digit_val (digit_char d) = d /\
  is_space (digit_char d) = false /\
  Ascii.eqb (digit_char d) "-" = false /\ Ascii.eqb (digit_char d) "+" = false.
Proof.
  intros H. destruct (digit_cases d H) as [-> | [-> | [-> | [-> | [-> |
    [-> | [-> | [-> | [-> | ->]]]]]]]]]; repeat split; reflexivity.
Qed.

Lemma mod10_digit n : 0 <= n mod 10 < 10.
Proof. apply Z.mod_pos_bound. lia. Qed.

(** Reading back the digits that [dec_digits] wrote. *)
Lemma atoi_dec_digits fuel :
  forall n acc, 0 <= n < 10 ^ Z.of_nat fuel ->
  exists k, 0 <= k /\
    forall a, atoi_digits a (dec_digits fuel n acc)
              = atoi_digits (a * 10 ^ k + n) acc.
Proof.
  induction fuel as [| f IH]; intros n acc Hn.
  - exists 0. split; [lia |]. intros a. simpl in *.
    replace n with 0 by lia. f_equal; lia.
  - cbn [dec_digits]. destruct (Z.ltb_spec n 10) as [Hlt | Hge].
    + exists 1. split; [lia |]. intros a. cbn [atoi_digits].
      destruct (digit_char_digit (n mod 10) (mod10_digit n)) as (-> & -> & _).
      rewrite Z.mod_small by lia. f_equal; lia.
    + assert (Hdiv : 0 <= n / 10 < 10 ^ Z.of_nat f).
      { rewrite Nat2Z.inj_succ, Z.pow_succ_r in Hn by lia.
        split; [apply Z.div_pos; lia |].
        apply Z.div_lt_upper_bound; lia. }
      destruct (IH (n / 10) (String (digit_char (n mod 10)) acc) Hdiv)
        as (k & Hk & E).
      exists (k + 1). split; [lia |]. intros a. rewrite E.
      cbn [atoi_digits].
      destruct (digit_char_digit (n mod 10) (mod10_digit n)) as (-> & -> & _).
      f_equal. rewrite Z.pow_add_r by lia.
      pose proof (Z.div_mod n 10 ltac:(lia)). lia.
Qed.

Lemma dec_fuel_enough n :
  0 <= n -> n < 10 ^ Z.of_nat (S (Z.to_nat (Z.log2 n))).
Proof.
  intros Hn. rewrite Nat2Z.inj_succ, Z2Nat.id by apply Z.log2_nonneg.
  destruct (Z.eq_dec n 0) as [-> | Hnz]; [reflexivity |].
  pose proof (Z.log2_spec n ltac:(lia)) as [_ Hlt].
  eapply Z.lt_le_trans; [exact Hlt |].
  apply Z.pow_le_mono_l. lia.
Qed.

Lemma atoi_digits_dec_nonneg n :
  0 <= n -> atoi_digits 0 (dec_nonneg n) = n.
Proof.
  intros Hn. unfold dec_nonneg.
  destruct (atoi_dec_digits _ n "" (conj Hn (dec_fuel_enough n Hn)))
    as (k & _ & E).
  rewrite E. simpl. lia.
Qed.

(** The text of a number without sign starts with a digit. *)
Lemma dec_digits_head fuel :
  forall n acc, exists d r,
    0 <= d < 10 /\ dec_digits (S fuel) n acc = String (digit_char d) r.
Proof.
  induction fuel as [| f IH]; intros n acc; cbn [dec_digits].
  - exists (n mod 10), acc. split; [apply mod10_digit |].
    destruct (n <? 10); reflexivity.
  - destruct (n <? 10).
    + exists (n mod 10), acc. split; [apply mod10_digit | reflexivity].
    + apply IH.
Qed.

Lemma signed_value_minus r :
  signed_value (String "-" r) = - atoi_digits 0 r.
Proof. reflexivity. Qed.

Lemma signed_value_dec z : signed_value (dec z) = z.
Proof.
  unfold dec. destruct (Z.ltb_spec z 0) as [Hneg | Hpos].
  - rewrite signed_value_minus, atoi_digits_dec_nonneg by lia. lia.
  - pose proof (atoi_digits_dec_nonneg z Hpos) as E.
    unfold dec_nonneg in *.
    destruct (dec_digits_head (Z.to_nat (Z.log2 z)) z "") as (d & r & Hd & Er).
    rewrite Er in *. unfold signed_value. cbn [skip_spaces].
    destruct (digit_char_digit d Hd) as (_ & _ & -> & Hm & Hp).
    destruct (digit_cases d Hd) as [-> | [-> | [-> | [-> | [-> |
      [-> | [-> | [-> | [-> | ->]]]]]]]]]; exact E.
Qed.

Lemma dec_inj a b : dec a = dec b -> a = b.
Proof.
  intros E. rewrite <- (signed_value_dec a), <- (signed_value_dec b).
  by rewrite E.
Qed.

Lemma atoi_dec z : is_int z -> atoi (dec z) = z.
Proof.
  intros H. unfold atoi, strtol. rewrite signed_value_dec.
  pose proof H as H'. unfold is_int, INT_MIN, INT_MAX in H'.
  unfold LLONG_MIN, LLONG_MAX.
  rewrite Z.min_r, Z.max_r by lia. by apply to_int_id.
Qed.

Lemma fmt_d_dec z : is_int z -> fmt_d z = dec z.
Proof. intros H. unfold fmt_d. by rewrite to_int_id. Qed.

Lemma atoi_fmt_d z : atoi (fmt_d z) = to_int z.
Proof. apply atoi_dec, to_int_range. Qed.


Lemma fmt_d_atoi_idem s : fmt_d (atoi s) = dec (atoi s).
Proof. apply fmt_d_dec, atoi_range. Qed.

Lemma string2ll_dec z :
  LLONG_MIN <= z <= LLONG_MAX -> string2ll (dec z) = Some z.
Proof.
  intros H. unfold string2ll. rewrite signed_value_dec, String.eqb_refl.
  destruct (Z.leb_spec LLONG_MIN z); [| lia].
  destruct (Z.leb_spec z LLONG_MAX); [| lia]. reflexivity.
Qed.

Lemma string2ll_Some s z : string2ll s = Some z -> s = dec z.
Proof.
  unfold string2ll. destruct (String.eqb_spec (dec (signed_value s)) s) as [E | _];
    [| discriminate].
  simpl. destruct (_ && _); [| discriminate]. intros [= <-]. by symmetry.
Qed.

End DecimalFacts.

(** ** The connection *)

Section ConnFacts.

Lemma bind_run {A B} (m : M A) (k : A -> M B) s :
  bind m k s =
  match m s with
  | (Some a, s') => k a s'
  | (None, s') => (None, s')
  end.
Proof. reflexivity. Qed.

Lemma append_run c d i l :
  redisAppendCommand c (Conn d true i l)
  = (Some tt, Conn (exec c d).2 true (i ++ [(exec c d).1]) (l ++ [c])).
Proof. unfold redisAppendCommand. simpl. by destruct (exec c d). Qed.

Lemma get_reply_run d b r i l :
  redisGetReply (Conn d b (r :: i) l) = (Some r, Conn d b i l).
Proof. reflexivity. Qed.

Lemma command_ready c d l :
  redisCommand c (ready d l)
  = (Some (exec c d).1, ready (exec c d).2 (l ++ [c])).
Proof.
  unfold redisCommand, ready. by rewrite bind_run, append_run.
Qed.

Lemma alive_ready d l : redis_alive (ready d l) = (Some tt, ready d (l ++ [PING])).
Proof.
  unfold redis_alive. rewrite bind_run. cbn [have_handle ready connected].
  by rewrite bind_run, (command_ready PING).
Qed.

(** Without unread replies [redis_alive] leaves a usable connection to
    the same database. *)
Lemma alive_sync s :
  inbuf s = [] -> exists l, redis_alive s = (Some tt, ready (db s) (log s ++ l)).
Proof.
  destruct s as [d [] i l]; simpl; intros ->.
  - exists [PING]. apply alive_ready.
  - exists []. by rewrite app_nil_r.
Qed.

(** [redis_alive] always returns and never changes the database. *)
Lemma alive_total s :
  exists s', redis_alive s = (Some tt, s') /\ db s' = db s /\ connected s' = true.
Proof.
  destruct s as [d [] i l].
  - unfold redis_alive. rewrite bind_run. cbn [have_handle connected].
    unfold redisCommand. rewrite !bind_run, append_run. cbn [exec fst snd].
    destruct i as [| r i]; cbn [app].
    + rewrite get_reply_run. simpl. eauto.
    + rewrite get_reply_run.
      destruct (reply_str r) as [str |]; [destruct (String.eqb str "PONG") |];
        simpl; eauto.
  - simpl. eauto.
Qed.

End ConnFacts.

(** ** Read-only mounts *)

(** C2: with [--read-only] each of mkdir, rmdir, create, unlink, write,
    truncate, symlink, chmod, chown, utimens and rename returns [-EPERM]
    and leaves the connection exactly as it found it: the database, the
    unread replies and the list of commands sent are all unchanged, so no
    command was issued. *)
Theorem read_only_refuses (c : config) (e : env) (s : conn)
    (path other target buf : string)
    (mode offset uid gid atime mtime size : Z) :
  _g_read_only c = true ->
  fs_mkdir c e path mode s = (Some (- EPERM), s) /\
  fs_rmdir c path s = (Some (- EPERM), s) /\
  fs_create c e path mode s = (Some (- EPERM), s) /\
  fs_unlink c path s = (Some (- EPERM), s) /\
  fs_write c e path buf offset s = (Some (- EPERM), s) /\
  fs_truncate c e path size s = (Some (- EPERM), s) /\
  fs_symlink c e target path s = (Some (- EPERM), s) /\
  fs_chmod c e path mode s = (Some (- EPERM), s) /\
  fs_chown c e path uid gid s = (Some (- EPERM), s) /\
  fs_utimens c path atime mtime s = (Some (- EPERM), s) /\
  fs_rename c path other s = (Some (- EPERM), s).
Proof.
  intros Hro.
  unfold fs_mkdir, fs_rmdir, fs_create, fs_unlink, fs_write, fs_truncate,
    fs_symlink, fs_chmod, fs_chown, fs_utimens, fs_rename.
  rewrite Hro. repeat split.
Qed.

Lemma read_only_refuses_witness :
  fs_mkdir (Config true false) (Env 1000 0 0 0 0) "/d" 493
    (Conn (<[GLOBAL_INODE := VStr "7"]> ∅) true [] [PING])
  = (Some (- EPERM), Conn (<[GLOBAL_INODE := VStr "7"]> ∅) true [] [PING]).
Proof.
  exact (proj1 (read_only_refuses (Config true false) (Env 1000 0 0 0 0)
                  (Conn (<[GLOBAL_INODE := VStr "7"]> ∅) true [] [PING])
                  "/d" "/e" "/t" "abc" 493 0 0 0 0 0 0 eq_refl)).
Defined.

(** ** The root directory *)

(** C8, as the code has it: [getattr("/")] returns 0 from every state of
    the connection, with mode [S_IFDIR | 0755] (0755 is 493), link count
    1, the three times equal to the current time, and the uid and gid of
    the filesystem process itself ([getuid()], [getgid()]); the database
    is not changed. *)
Theorem getattr_root (e : env) (past_end : option reply) (s : conn) :
  exists s',
    fs_getattr e past_end "/" s
    = (Some (0, Stat (Z.lor S_IFDIR 493) 1 (getuid e) (getgid e) 0
                  (time_now e) (time_now e) (time_now e)), s')
    /\ db s' = db s.
Proof.
  destruct (alive_total s) as (s' & E & Hdb & _).
  exists s'. split; [| exact Hdb].
  unfold fs_getattr. by rewrite bind_run, E.
Qed.

(** C8 as stated fails: a request from uid 1000, gid 100 to a filesystem
    process running as root gets the root directory with uid 0 and gid 0,
    not with the uid and gid of the calling context. *)
Lemma getattr_root_not_the_caller :
  exists st s',
    fs_getattr (Env 1000 1000 100 0 0) None "/" (Conn ∅ false [] [])
    = (Some (0, st), s')
    /\ st_uid st <> fuse_uid (Env 1000 1000 100 0 0)
    /\ st_gid st <> fuse_gid (Env 1000 1000 100 0 0).
Proof.
  eexists _, _. split; [reflexivity |]. split; discriminate.
Qed.

(** ** Paths *)

Section PathFacts.

Lemma strrchr_slash_lt p i : strrchr_slash p = Some i -> (i < String.length p)%nat.
Proof.
  revert i. induction p as [| c r IH]; intros i; simpl; [discriminate |].
  destruct (strrchr_slash r) as [j |].
  - intros [= <-]. specialize (IH j eq_refl). lia.
  - destruct (Ascii.eqb c "/"); [| discriminate]. intros [= <-]. lia.
Qed.

Lemma str_take_length n p :
  (n <= String.length p)%nat -> String.length (str_take n p) = n.
Proof.
  revert p. induction n as [| n IH]; intros [| c r]; simpl; try lia.
  intros H. rewrite IH; lia.
Qed.

Lemma get_parent_shorter p q :
  get_parent p = Some q -> p <> "/" ->
  (String.length q < String.length p)%nat.
Proof.
  unfold get_parent. destruct (strrchr_slash p) as [i |] eqn:Ei; [| discriminate].
  pose proof (strrchr_slash_lt p i Ei) as Hi.
  intros [= <-] Hne.
  destruct (String.eqb_spec (str_take i p) "") as [Ee | Hn].
  - destruct p as [| c [| c' r]]; simpl in *; try lia.
    destruct (Ascii.eqb_spec c "/") as [-> | ?]; [congruence | discriminate].
  - rewrite str_take_length; lia.
Qed.

Lemma resolve_rec_fuel d f1 :
  forall f2 p, (String.length p <= f1)%nat -> (String.length p <= f2)%nat ->
  resolve_rec f1 d p = resolve_rec f2 d p.
Proof.
  induction f1 as [| f1 IH]; intros f2 p H1 H2.
  - destruct p; [| simpl in H1; lia].
    destruct f2; reflexivity.
  - destruct f2 as [| f2].
    + destruct p; [reflexivity | simpl in H2; lia].
    + cbn [resolve_rec]. destruct (String.eqb_spec p "/") as [| Hne]; [done |].
      destruct (get_parent p) as [q |] eqn:Eq; [| done].
      pose proof (get_parent_shorter p q Eq Hne).
      rewrite (IH f2 q); [done | lia | lia].
Qed.

(** The equation of [resolve], without fuel. *)
Lemma resolve_step d p :
  resolve d p =
  if String.eqb p "/" then Some (-99)
  else match get_parent p with
       | None => None
       | Some q =>
           match resolve d q with
           | Some parent_inode => dir_scan d (fmt_d parent_inode) (get_basename p)
           | None => None
           end
       end.
Proof.
  unfold resolve. destruct p as [| c r]; [reflexivity |].
  cbn [String.length resolve_rec].
  destruct (String.eqb_spec (String c r) "/") as [| Hne]; [done |].
  destruct (get_parent (String c r)) as [q |] eqn:Eq; [| done].
  pose proof (get_parent_shorter _ q Eq Hne) as Hlt. cbn [String.length] in Hlt.
  rewrite (resolve_rec_fuel d (String.length r) (String.length q) q); [done | lia | lia].
Qed.

Lemma resolve_root d : resolve d "/" = Some (-99).
Proof. reflexivity. Qed.

End PathFacts.

(** ** [find_inode] on a ready connection *)

Section FindInode.

Lemma name_keys_members ms :
  name_keys (RStr <$> ms) = Some ((fun m => INODE m NAME) <$> ms).
Proof.
  induction ms as [| m ms IH]; [done |].
  rewrite !fmap_cons. cbn [name_keys reply_str]. by rewrite IH.
Qed.

Lemma scan_names_set d entry ms :
  forall val,
    scan_names entry (RStr <$> ms)
      (mget1 d <$> ((fun m => INODE m NAME) <$> ms)) val
    = scan_set d entry ms val.
Proof.
  induction ms as [| m ms IH]; intros val; [done |].
  rewrite !fmap_cons. cbn [scan_names scan_set]. unfold mget1 at 1.
  destruct (d !! INODE m NAME) as [[name | set] |]; cbn [reply_str]; try done.
Qed.

Lemma find_in_directory_ready parent_inode entry d l :
  exists l',
    find_in_directory parent_inode entry (ready d l)
    = (dir_scan d (fmt_d parent_inode) entry, ready d (l ++ l')).
Proof.
  unfold find_in_directory, dir_scan.
  rewrite bind_run, command_ready. cbn [exec fst snd].
  destruct (d !! DIRENT (fmt_d parent_inode)) as [[str | set] |].
  - eexists. reflexivity.
  - unfold set_fits. generalize (elements set) as ms. intros ms.
    rewrite bind_run, name_keys_members. cbn [lift ret].
    destruct (memcommand_fits (RStr <$> ms)); [| by eexists].
    rewrite bind_run, command_ready.
    destruct ms as [| m ms].
    + eexists. cbn. by rewrite <- app_assoc.
    + rewrite !fmap_cons. cbn [exec fst snd reply_elements lift].
      rewrite bind_run. cbn [ret]. rewrite <- !fmap_cons, scan_names_set.
      eexists.
      destruct (scan_set d entry (m :: ms) (-1)); cbn; by rewrite <- app_assoc.
  - rewrite bind_run. cbn [name_keys lift ret].
    change (memcommand_fits []) with true. cbv iota.
    rewrite bind_run, command_ready. eexists. cbn. by rewrite <- app_assoc.
Qed.

Lemma find_inode_rec_ready fuel :
  forall p d l, exists l',
    find_inode_rec fuel p (ready d l) = (resolve_rec fuel d p, ready d (l ++ l')).
Proof.
  induction fuel as [| f IH]; intros p d l; cbn [find_inode_rec resolve_rec].
  - destruct (String.eqb p "/"); exists []; by rewrite app_nil_r.
  - destruct (String.eqb p "/"); [exists []; by rewrite app_nil_r |].
    rewrite bind_run, alive_ready.
    destruct (get_parent p) as [q |]; [| by eexists].
    destruct (IH q d (l ++ [PING])%list) as (l1 & E1). rewrite bind_run, E1.
    destruct (resolve_rec f d q) as [parent_inode |].
    + destruct (find_in_directory_ready parent_inode (get_basename p) d
                  ((l ++ [PING]) ++ l1)%list) as (l2 & E2).
      rewrite E2. exists ([PING] ++ l1 ++ l2)%list. by rewrite !app_assoc.
    + exists ([PING] ++ l1)%list. by rewrite !app_assoc.
Qed.

(** On a ready connection [find_inode] returns what [resolve] computes
    from the database, sends only reads, and leaves the connection
    ready. *)
Lemma find_inode_ready p d l :
  exists l', find_inode p (ready d l) = (resolve d p, ready d (l ++ l')).
Proof. apply find_inode_rec_ready. Qed.

Lemma find_inode_ptr_ready o d l :
  exists l',
    find_inode_ptr o (ready d l)
    = (match o with Some p => resolve d p | None => None end, ready d (l ++ l')).
Proof.
  destruct o as [p |]; [apply find_inode_ready |].
  exists []. by rewrite app_nil_r.
Qed.

End FindInode.

(** ** Negative inode numbers *)

Lemma srem_absent d dir m :
  m ∉ members d dir -> (exec (SREM (DIRENT dir) m) d).2 = d.
Proof.
  unfold members. cbn [exec].
  destruct (d !! DIRENT dir) as [[str | set] |]; try done.
  intros H. by destruct (decide (m ∈ set)).
Qed.

(** C10: [remove_inode] on a negative inode returns at once, leaving
    the connection (database, unread replies, commands sent) as it was;
    and [unlink("/")], on a filesystem that is not read-only and a
    connection with no unread reply, returns 0 and leaves the whole
    database unchanged, provided the root is not a member of its own
    directory set. *)
Theorem unlink_root_changes_nothing :
  (forall inode s, inode < 0 -> remove_inode inode s = (Some tt, s)) /\
  (forall c s,
     _g_read_only c = false -> inbuf s = [] ->
     "-99" ∉ members (db s) "-99" ->
     exists s', fs_unlink c "/" s = (Some 0, s') /\ db s' = db s).
Proof.
  split.
  - intros inode s H. unfold remove_inode.
    destruct (Z.ltb_spec inode 0); [done | lia].
  - intros c s Hro Hsync Hroot. unfold fs_unlink. rewrite Hro.
    destruct (alive_sync s Hsync) as (l0 & E0). rewrite bind_run, E0.
    destruct (find_inode_ready "/" (db s) (log s ++ l0)) as (l1 & E1).
    rewrite bind_run, E1, resolve_root.
    change (-99 =? -1) with false. cbv iota.
    change (get_parent "/") with (Some "/").
    destruct (find_inode_ptr_ready (Some "/") (db s) ((log s ++ l0) ++ l1)) as (l2 & E2).
    rewrite bind_run, E2, resolve_root.
    rewrite bind_run, command_ready.
    change (fmt_d (-99)) with "-99".
    rewrite srem_absent by done.
    eexists. split; [reflexivity | reflexivity].
Qed.

Lemma unlink_root_changes_nothing_witness :
  remove_inode (-1) (Conn ∅ true [] []) = (Some tt, Conn ∅ true [] []) /\
  exists s', fs_unlink (Config false false) "/" (Conn ∅ true [] []) = (Some 0, s')
             /\ db s' = ∅.
Proof.
  destruct unlink_root_changes_nothing as [H1 H2]. split.
  - apply H1. lia.
  - apply (H2 (Config false false) (Conn ∅ true [] [])); [reflexivity | reflexivity |].
    unfold members. simpl. rewrite lookup_empty. apply not_elem_of_empty.
Defined.

(** ** Writing *)

Section Write.

(** What [fs_write] does once the connection is usable: it resolves the
    path, sends [write_cmds] for whatever inode number came back, and
    returns the size. *)
Lemma fs_write_run c e path buf offset s inode :
  _g_read_only c = false -> inbuf s = [] ->
  resolve (db s) path = Some inode ->
  exists l0,
    fs_write c e path buf offset s
    = (Some (to_int (Z.of_nat (String.length buf))),
       ready (exec_all (write_cmds c e inode buf offset) (db s))
             (log s ++ l0 ++ write_cmds c e inode buf offset)).
Proof.
  intros Hro Hsync Hres. unfold fs_write. rewrite Hro.
  destruct (alive_sync s Hsync) as (l0 & E0). rewrite bind_run, E0.
  destruct (find_inode_ready path (db s) (log s ++ l0)) as (l1 & E1).
  rewrite bind_run, E1, Hres. unfold write_cmds.
  exists (l0 ++ l1)%list.
  destruct (offset =? 0).
  - rewrite !bind_run. unfold ready. rewrite append_run. cbn [app drain].
    rewrite bind_run, get_reply_run. cbn [ret exec_all foldl].
    by rewrite !app_assoc.
  - rewrite (bind_run (_ ;; _)).
    rewrite bind_run. unfold ready. rewrite append_run.
    rewrite bind_run, append_run. cbn [app].
    destruct (_g_fast c).
    + rewrite bind_run. cbn [ret drain]. rewrite bind_run, get_reply_run.
      rewrite bind_run, get_reply_run. cbn [ret exec_all foldl app].
      by rewrite <- !app_assoc.
    + rewrite (bind_run (_ ;; _)). rewrite bind_run, append_run. cbn [app drain].
      rewrite bind_run, get_reply_run. cbn [ret].
      rewrite bind_run, get_reply_run. rewrite bind_run, get_reply_run.
      cbn [ret exec_all foldl app].
      by rewrite <- !app_assoc.
Qed.

End Write.

(** ** What a command leaves alone *)

Section Frames.

Lemma mset_frame kvs : forall d k, k ∉ kvs.*1 -> mset kvs d !! k = d !! k.
Proof.
  unfold mset. induction kvs as [| [k0 v0] kvs IH]; intros d k Hk; [done |].
  rewrite fmap_cons in Hk. apply not_elem_of_cons in Hk as [Hne Hk].
  cbn [foldl]. rewrite IH by done. simpl. by rewrite lookup_insert_ne.
Qed.

Lemma incrby_frame k0 n d k : k <> k0 -> (incrby k0 n d).2 !! k = d !! k.
Proof.
  intros Hne. unfold incrby.
  destruct (d !! k0) as [[str | set] |]; try done.
  - destruct (string2ll str); [| done].
    destruct (in_llong _); [| done]. simpl. by rewrite lookup_insert_ne.
  - destruct (in_llong _); [| done]. simpl. by rewrite lookup_insert_ne.
Qed.

Lemma exec_frame c d k : k ∉ written c -> (exec c d).2 !! k = d !! k.
Proof.
  destruct c; cbn [written exec snd]; intros Hk; try done;
    try (apply not_elem_of_cons in Hk as [Hne _]).
  - by apply incrby_frame.
  - by apply incrby_frame.
  - by rewrite lookup_insert_ne.
  - by apply mset_frame.
  - by rewrite lookup_delete_ne.
  - destruct (d !! k0) as [[str | set] |]; simpl; try done;
      by rewrite lookup_insert_ne.
  - destruct (d !! k0) as [[str | set] |]; simpl; try done.
    + destruct (decide (m ∈ set)); simpl; [done |]. by rewrite lookup_insert_ne.
    + by rewrite lookup_insert_ne.
  - destruct (d !! k0) as [[str | set] |]; simpl; try done.
    destruct (decide (m ∈ set)); simpl; [| done].
    destruct (decide (set ∖ {[m]} = ∅)).
    + by rewrite lookup_delete_ne.
    + by rewrite lookup_insert_ne.
Qed.

Lemma exec_all_frame cs : forall d k,
  (forall c, c ∈ cs -> k ∉ written c) -> exec_all cs d !! k = d !! k.
Proof.
  unfold exec_all. induction cs as [| c cs IH]; intros d k H; [done |].
  cbn [foldl]. rewrite IH.
  - apply exec_frame, H. by left.
  - intros c' Hc'. apply H. by right.
Qed.

(** Path lookup reads the directory sets and the NAME keys only. *)
Lemma scan_set_frame d d' entry ms :
  (forall i, d' !! INODE i NAME = d !! INODE i NAME) ->
  forall val, scan_set d' entry ms val = scan_set d entry ms val.
Proof.
  intros H. induction ms as [| m ms IH]; intros val; [done |].
  cbn [scan_set]. rewrite H.
  destruct (d !! INODE m NAME) as [[name | set] |]; try done.
Qed.

Lemma resolve_rec_frame d d' :
  (forall dir, d' !! DIRENT dir = d !! DIRENT dir) ->
  (forall i, d' !! INODE i NAME = d !! INODE i NAME) ->
  forall fuel p, resolve_rec fuel d' p = resolve_rec fuel d p.
Proof.
  intros Hdir Hname. induction fuel as [| f IH]; intros p; [done |].
  cbn [resolve_rec]. destruct (String.eqb p "/"); [done |].
  destruct (get_parent p) as [q |]; [| done]. rewrite IH.
  destruct (resolve_rec f d q) as [parent_inode |]; [| done].
  unfold dir_scan. rewrite Hdir.
  destruct (d !! DIRENT (fmt_d parent_inode)) as [[str | set] |]; try done.
  destruct (set_fits set); [| done]. by apply scan_set_frame.
Qed.

Lemma resolve_frame d d' p :
  (forall dir, d' !! DIRENT dir = d !! DIRENT dir) ->
  (forall i, d' !! INODE i NAME = d !! INODE i NAME) ->
  resolve d' p = resolve d p.
Proof. intros. by apply resolve_rec_frame. Qed.

Lemma write_cmds_written c e inode buf offset cm k :
  cm ∈ write_cmds c e inode buf offset -> k ∈ written cm ->
  k = INODE (fmt_d inode) SIZE \/ k = INODE (fmt_d inode) MTIME \/
  k = INODE (fmt_d inode) DATA.
Proof.
  unfold write_cmds. intros Hcm Hk.
  destruct (offset =? 0); [| destruct (_g_fast c)]; cbn [app] in Hcm;
    repeat (apply elem_of_cons in Hcm as [-> | Hcm]);
    try (by apply elem_of_nil in Hcm);
    cbn [written fmap list_fmap fst] in Hk;
    repeat (apply elem_of_cons in Hk as [-> | Hk]);
    try (by apply elem_of_nil in Hk); auto.
Qed.

Lemma write_cmds_resolve c e inode buf offset d p :
  resolve (exec_all (write_cmds c e inode buf offset) d) p = resolve d p.
Proof.
  apply resolve_frame; intros i; apply exec_all_frame; intros cm Hcm Hk;
    destruct (write_cmds_written _ _ _ _ _ _ _ Hcm Hk) as [? | [? | ?]];
    discriminate.
Qed.

End Frames.

(** ** Writing to a path that does not resolve *)

(** C9: when the path of a write does not resolve ([find_inode] gives
    -1), [fs_write] does not return [-ENOENT]: it returns the size, and
    the commands it sends are its SIZE, MTIME and DATA commands for the
    inode number -1.  With offset 0 the three keys of inode -1 then hold
    the size, the time and the bytes; the path still does not resolve, so
    these keys belong to no directory entry. *)
Theorem write_to_missing_path c e path buf offset s :
  _g_read_only c = false -> inbuf s = [] ->
  resolve (db s) path = Some (-1) ->
  Z.of_nat (String.length buf) <= INT_MAX ->
  exists s' l0,
    fs_write c e path buf offset s = (Some (Z.of_nat (String.length buf)), s')
    /\ Z.of_nat (String.length buf) <> - ENOENT
    /\ log s' = (log s ++ l0 ++ write_cmds c e (-1) buf offset)%list
    /\ db s' = exec_all (write_cmds c e (-1) buf offset) (db s)
    /\ (forall cm k, cm ∈ write_cmds c e (-1) buf offset -> k ∈ written cm ->
          k = INODE "-1" SIZE \/ k = INODE "-1" MTIME \/ k = INODE "-1" DATA)
    /\ (offset = 0 ->
          db s' !! INODE "-1" SIZE = Some (VStr (dec (Z.of_nat (String.length buf))))
          /\ db s' !! INODE "-1" MTIME = Some (VStr (fmt_d (time_now e)))
          /\ db s' !! INODE "-1" DATA = Some (VStr buf))
    /\ resolve (db s') path = Some (-1).
Proof.
  intros Hro Hsync Hres Hsize.
  destruct (fs_write_run c e path buf offset s (-1) Hro Hsync Hres) as (l0 & E).
  assert (Hint : is_int (Z.of_nat (String.length buf))).
  { unfold is_int, INT_MIN. lia. }
  rewrite (to_int_id _ Hint) in E.
  eexists _, l0. split; [exact E |]. cbn [db log ready].
  split; [unfold ENOENT; lia |].
  split; [done |]. split; [done |].
  split; [apply write_cmds_written |].
  split; [| by rewrite write_cmds_resolve].
  intros ->. unfold write_cmds. cbn [Z.eqb exec_all foldl exec snd mset fst].
  change (fmt_d (-1)) with "-1". rewrite (fmt_d_dec _ Hint).
  repeat split.
  - rewrite lookup_insert_ne, lookup_insert_ne by done. apply lookup_insert_eq.
  - rewrite lookup_insert_ne by done. apply lookup_insert_eq.
  - apply lookup_insert_eq.
Qed.

Lemma write_to_missing_path_witness :
  exists s' l0,
    fs_write (Config false false) (Env 1000 0 0 0 0) "/nowhere" "abc" 0
      (Conn ∅ true [] [])
    = (Some 3, s')
    /\ 3 <> - ENOENT
    /\ log s' = ([] ++ l0 ++ write_cmds (Config false false) (Env 1000 0 0 0 0)
                                  (-1) "abc" 0)%list
    /\ db s' !! INODE "-1" DATA = Some (VStr "abc").
Proof.
  destruct (write_to_missing_path (Config false false) (Env 1000 0 0 0 0)
              "/nowhere" "abc" 0 (Conn ∅ true [] []))
    as (s' & l0 & E & Hne & Hlog & _ & _ & Hkeys & _).
  - reflexivity.
  - reflexivity.
  - reflexivity.
  - vm_compute. discriminate.
  - exists s', l0. repeat split; try assumption.
    by destruct (Hkeys eq_refl) as (_ & _ & ?).
Defined.

(** ** Allocating and entering a new inode *)

(** Run an append-then-read batch on an explicit connection. *)
Ltac run_batch :=
  unfold ready; cbn [append_all drain];
  repeat (first [ rewrite get_reply_run | rewrite append_run
                | rewrite bind_run | progress cbn [ret app] ]).

Section Create.

Lemma get_next_inode_ready d l :
  get_next_inode (ready d l)
  = (Some (next_inode d), ready (after_incr d) (l ++ [PING; INCR GLOBAL_INODE])).
Proof.
  unfold get_next_inode. rewrite bind_run, alive_ready, bind_run, command_ready.
  unfold next_inode, after_incr. cbn [ret]. by rewrite <- app_assoc.
Qed.

(** The counter is not a directory set nor a NAME key. *)
Lemma after_incr_frame d k : k <> GLOBAL_INODE -> after_incr d !! k = d !! k.
Proof. intros H. unfold after_incr. cbn [exec]. by apply incrby_frame. Qed.

Lemma after_incr_resolve d p : resolve (after_incr d) p = resolve d p.
Proof. apply resolve_frame; intros i; by apply after_incr_frame. Qed.

Lemma append_all_run cs : forall d i l,
  exists rs,
    append_all cs (Conn d true i l)
    = (Some tt, Conn (exec_all cs d) true (i ++ rs) (l ++ cs))
    /\ length rs = length cs.
Proof.
  induction cs as [| c cs IH]; intros d i l.
  - exists []. by rewrite !app_nil_r.
  - cbn [append_all]. rewrite bind_run, append_run.
    destruct (IH (exec c d).2 (i ++ [(exec c d).1]) (l ++ [c])) as (rs & E & Hlen).
    exists ((exec c d).1 :: rs). rewrite E. split; [| cbn [length]; by rewrite Hlen].
    by rewrite <- !app_assoc.
Qed.

Lemma drain_run rs : forall d b i l,
  drain (length rs) (Conn d b (rs ++ i) l) = (Some tt, Conn d b i l).
Proof.
  induction rs as [| r rs IH]; intros d b i l; [done |].
  cbn [length drain app]. by rewrite bind_run, get_reply_run, IH.
Qed.

(** A batch: append the commands, read as many replies. *)
Lemma pipeline_run cs d l :
  (append_all cs ;; drain (length cs)) (ready d l)
  = (Some tt, ready (exec_all cs d) (l ++ cs)).
Proof.
  destruct (append_all_run cs d [] l) as (rs & E & Hlen).
  unfold ready. rewrite bind_run, E, <- Hlen. cbn [app].
  rewrite <- (app_nil_r rs) at 2. apply drain_run.
Qed.

Lemma fs_create_run c e path mode s parent parent_inode :
  _g_read_only c = false -> inbuf s = [] ->
  get_parent path = Some parent ->
  resolve (db s) parent = Some parent_inode ->
  exists l,
    fs_create c e path mode s
    = (Some 0,
       ready (exec_all (link_cmds e parent_inode (next_inode (db s))
                          (get_basename path) "FILE" mode)
                (after_incr (db s))) l).
Proof.
  intros Hro Hsync Hpar Hres. unfold fs_create. rewrite Hro, Hpar.
  destruct (alive_sync s Hsync) as (l0 & E0). rewrite bind_run, E0.
  destruct (find_inode_ptr_ready (Some parent) (db s) (log s ++ l0)) as (l1 & E1).
  rewrite bind_run, E1, Hres.
  rewrite bind_run, get_next_inode_ready.
  run_batch. cbn [exec_all link_cmds symlink_cmds foldl]. eexists. reflexivity.
Qed.

Lemma fs_mkdir_run c e path mode s parent parent_inode :
  _g_read_only c = false -> inbuf s = [] ->
  get_parent path = Some parent ->
  resolve (db s) parent = Some parent_inode ->
  exists l,
    fs_mkdir c e path mode s
    = (Some 0,
       ready (exec_all (link_cmds e parent_inode (next_inode (db s))
                          (get_basename path) "DIR" mode)
                (after_incr (db s))) l).
Proof.
  intros Hro Hsync Hpar Hres. unfold fs_mkdir. rewrite Hro, Hpar.
  destruct (alive_sync s Hsync) as (l0 & E0). rewrite bind_run, E0.
  rewrite bind_run, get_next_inode_ready.
  destruct (find_inode_ptr_ready (Some parent) (after_incr (db s))
              ((log s ++ l0) ++ [PING; INCR GLOBAL_INODE])) as (l1 & E1).
  rewrite bind_run, E1, after_incr_resolve, Hres.
  run_batch. cbn [exec_all link_cmds symlink_cmds foldl]. eexists. reflexivity.
Qed.

(** [fs_symlink] appends twelve commands and reads eleven replies: the
    reply to the last [SET] stays unread. *)
Lemma fs_symlink_run c e target path s parent parent_inode :
  _g_read_only c = false -> inbuf s = [] ->
  get_parent path = Some parent ->
  resolve (db s) parent = Some parent_inode ->
  exists l,
    fs_symlink c e target path s
    = (Some 0,
       Conn (exec_all (symlink_cmds e parent_inode (next_inode (db s))
                         (get_basename path) target)
               (after_incr (db s))) true [RStatus "OK"] l).
Proof.
  intros Hro Hsync Hpar Hres. unfold fs_symlink. rewrite Hro, Hpar.
  destruct (alive_sync s Hsync) as (l0 & E0). rewrite bind_run, E0.
  destruct (find_inode_ptr_ready (Some parent) (db s) (log s ++ l0)) as (l1 & E1).
  rewrite bind_run, E1, Hres.
  rewrite bind_run, get_next_inode_ready.
  run_batch. cbn [exec_all link_cmds symlink_cmds foldl]. eexists. reflexivity.
Qed.

End Create.

(** ** When the allocator fails *)

Section AllocatorFailure.

Lemma get_next_inode_sync s :
  inbuf s = [] ->
  exists l,
    get_next_inode s = (Some (next_inode (db s)), ready (after_incr (db s)) l).
Proof.
  intros Hsync. unfold get_next_inode.
  destruct (alive_sync s Hsync) as (l0 & E0).
  rewrite bind_run, E0, bind_run, command_ready. eexists. reflexivity.
Qed.

(** A reply to [INCR] that is not an integer is an error, and the
    database is as before. *)
Lemma incr_failure d :
  (forall n, (exec (INCR GLOBAL_INODE) d).1 <> RInt n) ->
  next_inode d = -1 /\ after_incr d = d.
Proof.
  unfold next_inode, after_incr. cbn [exec]. unfold incrby.
  destruct (d !! GLOBAL_INODE) as [[str | set] |]; cbn [fst snd]; intros H.
  - destruct (string2ll str) as [v |]; [| done].
    destruct (in_llong (v + 1)); [| done]. by destruct (H (v + 1)).
  - done.
  - destruct (in_llong (0 + 1)); [| done]. by destruct (H (0 + 1)).
Qed.

Lemma mset_lookup_last kvs k v d :
  mset (kvs ++ [(k, v)]) d !! k = Some (VStr v).
Proof. unfold mset. rewrite foldl_app. simpl. apply lookup_insert_eq. Qed.

Lemma link_cmds_type e parent_inode inode entry type mode d :
  exec_all (link_cmds e parent_inode inode entry type mode) d
    !! INODE (fmt_d inode) TYPE = Some (VStr type).
Proof.
  unfold link_cmds, new_entry. cbn [exec_all foldl exec snd mset fst].
  repeat (rewrite lookup_insert_ne by done). apply lookup_insert_eq.
Qed.

Lemma symlink_cmds_type e parent_inode inode entry target d :
  exec_all (symlink_cmds e parent_inode inode entry target) d
    !! INODE (fmt_d inode) TYPE = Some (VStr "LINK").
Proof.
  unfold symlink_cmds. cbn [exec_all foldl exec snd].
  repeat (rewrite lookup_insert_ne by done). apply lookup_insert_eq.
Qed.

(** C4, as the code has it: when the reply to [INCR] is not an integer
    [get_next_inode] returns -1 and leaves the database as it was; mkdir,
    create and symlink do not look at that value: on a resolvable parent
    each returns 0 (not [-EIO]) after sending its set addition and its
    attribute writes with inode number -1, so that the TYPE key of inode
    -1 holds DIR, FILE or LINK afterwards. *)
Theorem allocator_failure_is_not_checked c e s path target mode parent
    parent_inode :
  _g_read_only c = false -> inbuf s = [] ->
  (forall n, (exec (INCR GLOBAL_INODE) (db s)).1 <> RInt n) ->
  get_parent path = Some parent ->
  resolve (db s) parent = Some parent_inode ->
  (exists s', get_next_inode s = (Some (-1), s') /\ db s' = db s) /\
  (exists s',
     fs_mkdir c e path mode s = (Some 0, s') /\
     db s' = exec_all (link_cmds e parent_inode (-1) (get_basename path) "DIR" mode)
               (db s) /\
     db s' !! INODE "-1" TYPE = Some (VStr "DIR")) /\
  (exists s',
     fs_create c e path mode s = (Some 0, s') /\
     db s' = exec_all (link_cmds e parent_inode (-1) (get_basename path) "FILE" mode)
               (db s) /\
     db s' !! INODE "-1" TYPE = Some (VStr "FILE")) /\
  (exists s',
     fs_symlink c e target path s = (Some 0, s') /\
     db s' = exec_all (symlink_cmds e parent_inode (-1) (get_basename path) target)
               (db s) /\
     db s' !! INODE "-1" TYPE = Some (VStr "LINK")) /\
  0 <> - EIO.
Proof.
  intros Hro Hsync Hfail Hpar Hres.
  destruct (incr_failure (db s) Hfail) as [Hnext Hdb].
  repeat split.
  - destruct (get_next_inode_sync s Hsync) as (l & E).
    rewrite Hnext, Hdb in E. eexists. split; [exact E | reflexivity].
  - destruct (fs_mkdir_run c e path mode s parent parent_inode Hro Hsync Hpar Hres)
      as (l & E).
    rewrite Hnext, Hdb in E. eexists. split; [exact E |].
    split; [reflexivity |]. apply (link_cmds_type e parent_inode (-1)).
  - destruct (fs_create_run c e path mode s parent parent_inode Hro Hsync Hpar Hres)
      as (l & E).
    rewrite Hnext, Hdb in E. eexists. split; [exact E |].
    split; [reflexivity |]. apply (link_cmds_type e parent_inode (-1)).
  - destruct (fs_symlink_run c e target path s parent parent_inode Hro Hsync Hpar Hres)
      as (l & E).
    rewrite Hnext, Hdb in E. eexists. split; [exact E |].
    split; [reflexivity |]. apply (symlink_cmds_type e parent_inode (-1)).
  - discriminate.
Qed.

Lemma allocator_failure_is_not_checked_witness :
  exists s',
    fs_create (Config false false) (Env 1000 0 0 0 0) "/f" 420
      (Conn (<[GLOBAL_INODE := VStr "x"]> ∅) true [] [])
    = (Some 0, s')
    /\ db s' !! INODE "-1" TYPE = Some (VStr "FILE").
Proof.
  destruct (allocator_failure_is_not_checked (Config false false)
              (Env 1000 0 0 0 0)
              (Conn (<[GLOBAL_INODE := VStr "x"]> ∅) true [] [])
              "/f" "t" 420 "/" (-99))
    as (_ & _ & (s' & E & _ & Ht) & _).
  - reflexivity.
  - reflexivity.
  - intros n. vm_compute. discriminate.
  - reflexivity.
  - reflexivity.
  - exists s'. split; assumption.
Defined.

(** C4 as stated fails: with a counter key that does not hold a number
    the allocator returns -1, and [fs_create] still returns 0, not
    [-EIO], having entered "-1" in the root directory set and written the
    attribute keys of inode -1. *)
Lemma create_ignores_allocator_failure :
  fst (get_next_inode (Conn (<[GLOBAL_INODE := VStr "x"]> ∅) true [] []))
  = Some (-1)
  /\ fst (fs_create (Config false false) (Env 1000 0 0 0 0) "/f" 420
            (Conn (<[GLOBAL_INODE := VStr "x"]> ∅) true [] []))
     = Some 0
  /\ Some 0 <> Some (- EIO)
  /\ db (snd (fs_create (Config false false) (Env 1000 0 0 0 0) "/f" 420
                 (Conn (<[GLOBAL_INODE := VStr "x"]> ∅) true [] [])))
       !! INODE "-1" TYPE = Some (VStr "FILE")
  /\ "-1" ∈ members
              (db (snd (fs_create (Config false false) (Env 1000 0 0 0 0)
                          "/f" 420
                          (Conn (<[GLOBAL_INODE := VStr "x"]> ∅) true [] []))))
              "-99".
Proof.
  split; [by vm_compute |]. split; [by vm_compute |].
  split; [discriminate |]. split; [by vm_compute |].
  by vm_compute.
Qed.

End AllocatorFailure.

(** ** Scanning a directory *)

Section Scan.

Lemma scan_set_agree d d' entry ms :
  (forall m, m ∈ ms -> d' !! INODE m NAME = d !! INODE m NAME) ->
  forall val, scan_set d' entry ms val = scan_set d entry ms val.
Proof.
  induction ms as [| m ms IH]; intros H val; [done |].
  cbn [scan_set]. rewrite (H m) by (by left).
  destruct (d !! INODE m NAME) as [[name | set] |]; try done.
  apply IH. intros m' Hm'. apply H. by right.
Qed.

(** No member is called [entry]: the scan returns what it started with. *)
Lemma scan_set_no_match d entry ms :
  (forall m, m ∈ ms -> exists name, named d m name /\ name <> entry) ->
  forall val, scan_set d entry ms val = Some val.
Proof.
  induction ms as [| m ms IH]; intros H val; [done |].
  cbn [scan_set]. destruct (H m) as (name & Hn & Hne); [by left |].
  rewrite Hn. destruct (String.eqb_spec name entry); [done |].
  apply IH. intros m' Hm'. apply H. by right.
Qed.

(** Exactly one member is called [entry]: the scan returns its number,
    wherever it stands in the list. *)
Lemma scan_set_unique d entry ms m0 :
  (forall m, m ∈ ms -> exists name, named d m name) ->
  m0 ∈ ms -> named d m0 entry ->
  (forall m, m ∈ ms -> named d m entry -> m = m0) ->
  forall val, scan_set d entry ms val = Some (atoi m0).
Proof.
  induction ms as [| m ms IH]; intros Hall Hin Hm0 Huniq val.
  - by apply elem_of_nil in Hin.
  - cbn [scan_set]. destruct (Hall m) as (name & Hn); [by left |].
    rewrite Hn. destruct (String.eqb_spec name entry) as [-> | Hne].
    + assert (m = m0) as -> by (apply Huniq; [by left | done]).
      destruct (decide (m0 ∈ ms)) as [Hin' | Hnin].
      * apply IH; auto.
        -- intros m' Hm'. apply Hall. by right.
        -- intros m' Hm'. apply Huniq. by right.
      * apply scan_set_no_match. intros m' Hm'.
        destruct (Hall m') as (name' & Hn'); [by right |].
        exists name'. split; [done |]. intros ->.
        apply Hnin. by rewrite <- (Huniq m' ltac:(by right) Hn').
    + apply elem_of_cons in Hin as [-> | Hin].
      { unfold named in Hm0. congruence. }
      apply IH; auto.
      * intros m' Hm'. apply Hall. by right.
      * intros m' Hm'. apply Huniq. by right.
Qed.

(** What a scan that returns can return. *)
Lemma scan_set_inv d entry ms :
  forall val r, scan_set d entry ms val = Some r ->
  (forall m, m ∈ ms -> exists name, named d m name) /\
  (r = val \/ exists m0, m0 ∈ ms /\ named d m0 entry /\ r = atoi m0).
Proof.
  induction ms as [| m ms IH]; intros val r H.
  - injection H as <-. split; [| by left].
    intros m Hm. by apply elem_of_nil in Hm.
  - cbn [scan_set] in H.
    destruct (d !! INODE m NAME) as [[name | set] |] eqn:En; try done.
    apply IH in H as [Hall Hr]. split.
    + intros m' [-> | Hm']%elem_of_cons; [by exists name | by apply Hall].
    + destruct Hr as [-> | (m0 & Hin & Hn & ->)].
      * destruct (String.eqb_spec name entry) as [-> | Hne]; [| by left].
        right. exists m. split; [by left | done].
      * right. exists m0. split; [by right | done].
Qed.

Lemma set_fits_empty : set_fits ∅ = true.
Proof. unfold set_fits. by rewrite elements_empty. Qed.



Lemma strlen_app (p r : string) :
  String.length (p ++ r)%string = (String.length p + String.length r)%nat.
Proof. induction p as [| ch p IH]; [done |]. simpl. by rewrite IH. Qed.

Lemma member_text_length m :
  Z.of_nat (String.length (member_text (RStr m)))
  = 16 + Z.of_nat (String.length m).
Proof.
  unfold member_text, _g_prefix. cbn [reply_str].
  change (" " ++ "skx" ++ ":INODE:" ++ m ++ ":NAME")%string
    with (" skx:INODE:" ++ (m ++ ":NAME"))%string.
  rewrite !strlen_app. cbn [String.length]. lia.
Qed.

Lemma memcommand_length_perm l l' :
  l ≡ₚ l' -> memcommand_length l = memcommand_length l'.
Proof.
  induction 1 as [| x l l' _ IH | x y l | l1 l2 l3 _ IH1 _ IH2];
    cbn [memcommand_length]; [done | by rewrite IH | lia | congruence].
Qed.

Lemma memcommand_length_pos l : 4 <= memcommand_length l.
Proof. induction l as [| m l IH]; cbn [memcommand_length String.length]; lia. Qed.

(** The length of the text for a set with one more member. *)
Lemma set_length_insert (m : string) (s : gset string) :
  m ∉ s ->
  memcommand_length (RStr <$> elements ({[m]} ∪ s))
  = 16 + Z.of_nat (String.length m) + memcommand_length (RStr <$> elements s).
Proof.
  intros Hm.
  rewrite (memcommand_length_perm _ (RStr <$> (m :: elements s))).
  - rewrite fmap_cons. cbn [memcommand_length]. by rewrite member_text_length.
  - apply fmap_Permutation. by apply elements_union_singleton.
Qed.

(** A set that fits still fits without one of its members. *)
Lemma set_fits_remove (m : string) (s : gset string) :
  set_fits s = true -> set_fits (s ∖ {[m]}) = true.
Proof.
  destruct (decide (m ∈ s)) as [Hin | Hout].
  - unfold set_fits, memcommand_fits. intros H. apply Z.ltb_lt in H.
    apply Z.ltb_lt.
    replace s with ({[m]} ∪ s ∖ {[m]}) in H at 1.
    + rewrite set_length_insert in H by set_solver. lia.
    + apply leibniz_equiv. symmetry. apply union_difference_singleton. done.
  - intros H. replace (s ∖ {[m]}) with s; [done |].
    apply leibniz_equiv. symmetry. apply difference_disjoint. set_solver.
Qed.

Lemma set_fits_smaller (m : string) (s : gset string) :
  set_fits ({[m]} ∪ s) = true -> set_fits s = true.
Proof.
  intros H. destruct (decide (m ∈ s)) as [Hin | Hout].
  - replace s with ({[m]} ∪ s); [done |]. apply leibniz_equiv. set_solver.
  - apply (set_fits_remove m) in H. replace s with (({[m]} ∪ s) ∖ {[m]}); [done |].
    apply leibniz_equiv. set_solver.
Qed.


Lemma dir_scan_empty d dir entry :
  members d dir = ∅ -> dir_scan d dir entry = Some (-1).
Proof.
  unfold members, dir_scan.
  destruct (d !! DIRENT dir) as [[str | set] |]; try done.
  intros ->. by rewrite set_fits_empty, elements_empty.
Qed.


Lemma dir_scan_inv d dir entry r :
  dir_scan d dir entry = Some r ->
  r = -1 \/ exists m0, m0 ∈ members d dir /\ named d m0 entry /\ r = atoi m0.
Proof.
  unfold dir_scan, members.
  destruct (d !! DIRENT dir) as [[str | set] |]; try (intros [= <-]; by left).
  destruct (set_fits set); [| done].
  intros H. apply scan_set_inv in H as [_ [-> | (m0 & Hin & Hn & ->)]]; [by left |].
  right. exists m0. by rewrite <- elem_of_elements.
Qed.

Lemma dir_scan_unique d dir entry m0 :
  set_fits (members d dir) = true ->
  (forall m, m ∈ members d dir -> exists name, named d m name) ->
  m0 ∈ members d dir -> named d m0 entry ->
  (forall m, m ∈ members d dir -> named d m entry -> m = m0) ->
  dir_scan d dir entry = Some (atoi m0).
Proof.
  unfold dir_scan, members.
  destruct (d !! DIRENT dir) as [[str | set] |];
    try (intros _ _ H; by apply not_elem_of_empty in H).
  intros -> Hall Hin Hn Huniq. apply scan_set_unique; auto.
  - intros m Hm. apply Hall. by apply elem_of_elements.
  - by apply elem_of_elements.
  - intros m Hm. apply Huniq. by apply elem_of_elements.
Qed.

(** What [resolve] can return: the root, not found, or the number of a
    member of some directory. *)
Lemma resolve_rec_inv d fuel : forall p r,
  resolve_rec fuel d p = Some r ->
  r = -99 \/ r = -1 \/
  exists dir m, m ∈ members d dir /\ r = atoi m.
Proof.
  induction fuel as [| f IH]; intros p r; cbn [resolve_rec].
  - destruct (String.eqb p "/"); [| done]. intros [= <-]. by left.
  - destruct (String.eqb p "/"); [intros [= <-]; by left |].
    destruct (get_parent p) as [q |]; [| done].
    destruct (resolve_rec f d q) as [qi |]; [| done].
    intros [-> | (m0 & Hin & _ & ->)]%dir_scan_inv; [by right; left |].
    right; right. eauto.
Qed.

Lemma resolve_inv d p r :
  resolve d p = Some r ->
  r = -99 \/ r = -1 \/ exists dir m, m ∈ members d dir /\ r = atoi m.
Proof. apply resolve_rec_inv. Qed.

End Scan.

(** ** Entering a new inode in a directory *)

Section Link.

Lemma members_lookup d dir s : d !! DIRENT dir = Some (VSet s) -> members d dir = s.
Proof. unfold members. by intros ->. Qed.

Lemma sadd_lookup d dir m :
  (forall v, d !! DIRENT dir = Some v -> exists s, v = VSet s) ->
  (exec (SADD (DIRENT dir) m) d).2 !! DIRENT dir
  = Some (VSet ({[m]} ∪ members d dir)).
Proof.
  intros Hset. unfold members. cbn [exec].
  destruct (d !! DIRENT dir) as [[str | set] |] eqn:E.
  - destruct (Hset _ eq_refl) as (s & ?). done.
  - destruct (decide (m ∈ set)) as [Hin | Hnin]; cbn [snd].
    + rewrite E, subseteq_union_1_L; [done |].
      by apply singleton_subseteq_l.
    + by rewrite lookup_insert_eq.
  - cbn [snd]. by rewrite lookup_insert_eq, union_empty_r_L.
Qed.

Variables (e : env) (parent_inode inode : Z) (entry type : string) (mode : Z).
Variable d : gmap key value.

Let d' := exec_all (link_cmds e parent_inode inode entry type mode) d.

Lemma link_other_key k :
  k <> DIRENT (fmt_d parent_inode) ->
  (forall a, k <> INODE (fmt_d inode) a) ->
  d' !! k = d !! k.
Proof.
  intros Hdir Hino. subst d'. apply exec_all_frame. intros cm Hcm Hk.
  unfold link_cmds, new_entry in Hcm.
  repeat (apply elem_of_cons in Hcm as [-> | Hcm]);
    try (by apply elem_of_nil in Hcm);
    cbn [written fmap list_fmap fst] in Hk;
    repeat (apply elem_of_cons in Hk as [-> | Hk]);
    try (by apply elem_of_nil in Hk); try done; by eapply Hino.
Qed.

Lemma link_attr a :
  d' !! INODE (fmt_d inode) a
  = match a with
    | NAME => Some (VStr entry)
    | TYPE => Some (VStr type)
    | MODE => Some (VStr (fmt_d mode))
    | UID => Some (VStr (fmt_d (fuse_uid e)))
    | GID => Some (VStr (fmt_d (fuse_gid e)))
    | SIZE => Some (VStr "0")
    | CTIME | MTIME | ATIME => Some (VStr (fmt_d (time_now e)))
    | LINK => Some (VStr "1")
    | DATA | TARGET => d !! INODE (fmt_d inode) a
    end.
Proof.
  subst d'. unfold link_cmds, new_entry.
  cbn [exec_all foldl exec snd mset fst].
  destruct a;
    repeat (rewrite lookup_insert_ne by done);
    try (rewrite lookup_insert_eq; reflexivity);
    apply (exec_frame (SADD (DIRENT (fmt_d parent_inode)) (fmt_d inode)) d);
    cbn [written]; by intros ?%list_elem_of_singleton.
Qed.

Lemma link_dirent :
  (forall v, d !! DIRENT (fmt_d parent_inode) = Some v -> exists s, v = VSet s) ->
  d' !! DIRENT (fmt_d parent_inode)
  = Some (VSet ({[fmt_d inode]} ∪ members d (fmt_d parent_inode))).
Proof.
  intros Hset. subst d'. unfold link_cmds, new_entry.
  cbn [exec_all foldl]. rewrite exec_frame.
  - by apply sadd_lookup.
  - cbn [written fmap list_fmap fst]. intros Hk.
    repeat (apply elem_of_cons in Hk as [Hk | Hk]); try done.
    by apply elem_of_nil in Hk.
Qed.

Lemma link_members dir :
  (forall v, d !! DIRENT (fmt_d parent_inode) = Some v -> exists s, v = VSet s) ->
  members d' dir
  = if decide (dir = fmt_d parent_inode)
    then {[fmt_d inode]} ∪ members d dir else members d dir.
Proof.
  intros Hset. destruct (decide (dir = fmt_d parent_inode)) as [-> | Hne].
  - by rewrite (members_lookup _ _ _ (link_dirent Hset)).
  - unfold members. rewrite link_other_key; [done | congruence | done].
Qed.

Lemma link_named m name :
  m <> fmt_d inode -> named d' m name <-> named d m name.
Proof.
  intros Hne. unfold named. rewrite link_other_key; [done | done |].
  intros a. congruence.
Qed.

End Link.

(** ** Path lookup after a new entry *)

Section ResolveAfterLink.

(** [d'] is [d] with the new member [K], called [entry], in directory
    [D]. *)
Variables (d d' : gmap key value) (D K entry : string).

Hypothesis Hdir : forall dir, dir <> D -> d' !! DIRENT dir = d !! DIRENT dir.
Hypothesis Hmem : d' !! DIRENT D = Some (VSet ({[K]} ∪ members d D)).
Hypothesis Hname : forall m, m <> K -> d' !! INODE m NAME = d !! INODE m NAME.
Hypothesis HK : named d' K entry.

Hypothesis Kfresh : forall dir, K ∉ members d dir.
Hypothesis Hfresh : fresh_name d D entry.
Hypothesis Hnamed : forall m, m ∈ members d D -> exists name, named d m name.
Hypothesis Huniq : forall m1 m2 name,
  m1 ∈ members d D -> m2 ∈ members d D ->
  named d m1 name -> named d m2 name -> m1 = m2.
Hypothesis Hminus1 : members d "-1" = ∅.

(** The set of [D] fits the buffer of [find_inode] with the new member. *)
Hypothesis Hroom : set_fits ({[K]} ∪ members d D) = true.

Lemma link_members' : members d' D = {[K]} ∪ members d D.
Proof. by apply members_lookup. Qed.

Lemma link_named_old m name : m ∈ members d D -> named d m name -> named d' m name.
Proof.
  intros Hin Hn. unfold named. rewrite Hname; [done |].
  intros ->. by apply (Kfresh D).
Qed.

Lemma link_all_named m : m ∈ members d' D -> exists name, named d' m name.
Proof.
  rewrite link_members', elem_of_union, elem_of_singleton.
  intros [-> | Hin]; [by exists entry |].
  destruct (Hnamed m Hin) as (name & Hn). exists name. by apply link_named_old.
Qed.

Lemma link_named_inv m name :
  m ∈ members d' D -> named d' m name ->
  (m = K /\ name = entry) \/ (m ∈ members d D /\ named d m name).
Proof.
  rewrite link_members', elem_of_union, elem_of_singleton.
  intros [-> | Hin] Hn.
  - left. split; [done |]. unfold named in *. congruence.
  - right. split; [done |]. unfold named in *. rewrite Hname in Hn; [done |].
    intros ->. by apply (Kfresh D).
Qed.

(** The new entry resolves to the new inode. *)
Lemma dir_scan_link_new : dir_scan d' D entry = Some (atoi K).
Proof.
  apply dir_scan_unique.
  - by rewrite link_members'.
  - apply link_all_named.
  - rewrite link_members', elem_of_union, elem_of_singleton. by left.
  - exact HK.
  - intros m Hin Hn.
    destruct (link_named_inv m entry Hin Hn) as [[-> _] | [Hin' Hn']]; [done |].
    by destruct (Hfresh m Hin').
Qed.

(** Every entry of [D] that resolved before resolves to the same inode. *)
Lemma dir_scan_link_old name r :
  dir_scan d D name = Some r -> r <> -1 -> dir_scan d' D name = Some r.
Proof.
  intros [-> | (m0 & Hin & Hn & ->)]%dir_scan_inv Hr; [done |].
  apply dir_scan_unique.
  - by rewrite link_members'.
  - apply link_all_named.
  - rewrite link_members', elem_of_union. by right.
  - by apply link_named_old.
  - intros m Hin' Hn'.
    destruct (link_named_inv m name Hin' Hn') as [[-> ->] | [Hin'' Hn'']].
    + by destruct (Hfresh m0 Hin).
    + by apply (Huniq m m0 name).
Qed.

Lemma dir_scan_link_other dir name :
  dir <> D -> dir_scan d' dir name = dir_scan d dir name.
Proof.
  intros Hne. unfold dir_scan. rewrite (Hdir dir Hne).
  destruct (d !! DIRENT dir) as [[str | set] |] eqn:E; try done.
  destruct (set_fits set); [| done].
  apply scan_set_agree. intros m Hm. apply Hname. intros ->.
  apply (Kfresh dir). rewrite (members_lookup _ _ _ E).
  by apply elem_of_elements.
Qed.

(** Every path that resolved before resolves to the same inode. *)
Lemma resolve_rec_link fuel : forall x r,
  resolve_rec fuel d x = Some r -> r <> -1 -> resolve_rec fuel d' x = Some r.
Proof.
  induction fuel as [| f IH]; intros x r; cbn [resolve_rec]; [done |].
  destruct (String.eqb x "/"); [done |].
  destruct (get_parent x) as [q |]; [| done].
  destruct (resolve_rec f d q) as [qi |] eqn:Eq; [| done].
  intros Hscan Hr.
  assert (Hqi : qi <> -1).
  { intros ->. change (fmt_d (-1)) with "-1" in Hscan.
    rewrite dir_scan_empty in Hscan by done. congruence. }
  rewrite (IH q qi Eq Hqi).
  destruct (decide (fmt_d qi = D)) as [E | Hne].
  - rewrite E in *. by apply dir_scan_link_old.
  - by rewrite dir_scan_link_other.
Qed.

Lemma resolve_link x r :
  resolve d x = Some r -> r <> -1 -> resolve d' x = Some r.
Proof. apply resolve_rec_link. Qed.

End ResolveAfterLink.

(** ** Well-formed stores *)

Section WellFormed.

Lemma is_int_small i c : 0 < i <= c -> c <= INT_MAX -> is_int i.
Proof. unfold is_int, INT_MIN, INT_MAX. lia. Qed.

Lemma wf_no_minus1 d c : well_formed d c -> members d "-1" = ∅.
Proof.
  intros Hwf. apply leibniz_equiv, elem_of_equiv_empty. intros m Hm.
  destruct (wf_dirs d c Hwf "-1" m Hm) as [? | (i & Hi & Hpos)]; [done |].
  change "-1" with (dec (-1)) in Hi. apply dec_inj in Hi. lia.
Qed.

(** On a well-formed store a path resolves to the root, to nothing, or
    to an allocated inode that is a member of some directory. *)
Lemma resolve_wf d c x r :
  well_formed d c -> c <= INT_MAX -> resolve d x = Some r ->
  r = -99 \/ r = -1 \/ (0 < r <= c /\ exists dir, dec r ∈ members d dir).
Proof.
  intros Hwf Hc [-> | [-> | (dir & m & Hin & ->)]]%resolve_inv; auto.
  destruct (wf_members d c Hwf dir m Hin) as (i & -> & Hi).
  rewrite atoi_dec by (by eapply is_int_small).
  right; right. split; [done |]. by exists dir.
Qed.

Lemma resolve_wf_fmt d c x r :
  well_formed d c -> c <= INT_MAX -> resolve d x = Some r -> fmt_d r = dec r.
Proof.
  intros Hwf Hc [-> | [-> | [Hr _]]]%(resolve_wf d c); try done.
  apply fmt_d_dec. by eapply is_int_small.
Qed.

(** The allocator on a well-formed store. *)
Lemma incr_counter d c :
  counter d = Some c -> 0 <= c -> c + 1 <= INT_MAX ->
  next_inode d = c + 1 /\
  after_incr d = <[GLOBAL_INODE := VStr (dec (c + 1))]> d.
Proof.
  unfold counter, next_inode, after_incr, INT_MAX. cbn [exec]. unfold incrby.
  intros Hc H0 Hmax.
  assert (Hll : in_llong (c + 1) = true).
  { unfold in_llong, LLONG_MIN, LLONG_MAX.
    apply andb_true_intro. split; apply Z.leb_le; lia. }
  assert (Hint : to_int (c + 1) = c + 1).
  { apply to_int_id. unfold is_int, INT_MIN, INT_MAX. lia. }
  destruct (d !! GLOBAL_INODE) as [[str | set] |]; [| done |].
  - rewrite Hc, Hll. cbn [fst snd]. by rewrite Hint.
  - injection Hc as <-. rewrite Hll. cbn [fst snd]. by rewrite Hint.
Qed.

Lemma counter_insert d c :
  LLONG_MIN <= c <= LLONG_MAX ->
  counter (<[GLOBAL_INODE := VStr (dec c)]> d) = Some c.
Proof.
  intros H. unfold counter. rewrite lookup_insert_eq. by apply string2ll_dec.
Qed.

Variables (e : env) (d : gmap key value) (c : Z).
Variables (parent_inode : Z) (entry type : string) (mode : Z).

Hypothesis Hwf : well_formed d c.
Hypothesis Hmax : c + 1 <= INT_MAX.
Hypothesis Hparent : parent_inode = -99 \/
                     (0 < parent_inode <= c /\
                      exists dir, dec parent_inode ∈ members d dir).
Hypothesis Hfresh : fresh_name d (fmt_d parent_inode) entry.

Let d1 := after_incr d.
Let d2 := exec_all (link_cmds e parent_inode (next_inode d) entry type mode) d1.

Lemma wf_next : next_inode d = c + 1.
Proof.
  destruct (wf_counter d c Hwf) as [Hc H0].
  by destruct (incr_counter d c Hc H0 Hmax).
Qed.

Lemma wf_fmt_next : fmt_d (next_inode d) = dec (c + 1).
Proof.
  rewrite wf_next. apply fmt_d_dec.
  destruct (wf_counter d c Hwf) as [_ H0].
  unfold is_int, INT_MIN, INT_MAX in *. lia.
Qed.

Lemma wf_fmt_parent : fmt_d parent_inode = dec parent_inode.
Proof.
  destruct Hparent as [-> | [Hp _]]; [done |].
  apply fmt_d_dec. eapply is_int_small; [done |]. unfold INT_MAX in *. lia.
Qed.

Lemma d1_lookup k : k <> GLOBAL_INODE -> d1 !! k = d !! k.
Proof. apply after_incr_frame. Qed.

Lemma d1_members dir : members d1 dir = members d dir.
Proof. unfold members. by rewrite d1_lookup. Qed.

Lemma d1_named m name : named d1 m name <-> named d m name.
Proof. unfold named. by rewrite d1_lookup. Qed.

Lemma d1_sets dir v : d1 !! DIRENT dir = Some v -> exists s, v = VSet s.
Proof. rewrite d1_lookup by done. apply (wf_sets d c Hwf). Qed.

Lemma next_not_member dir : fmt_d (next_inode d) ∉ members d1 dir.
Proof.
  rewrite d1_members, wf_fmt_next. intros Hin.
  destruct (wf_members d c Hwf dir _ Hin) as (i & Hi & Hb).
  apply dec_inj in Hi. lia.
Qed.

Lemma d2_members dir :
  members d2 dir
  = if decide (dir = fmt_d parent_inode)
    then {[dec (c + 1)]} ∪ members d dir else members d dir.
Proof.
  subst d2. rewrite link_members by apply d1_sets.
  rewrite wf_fmt_next. destruct (decide _); by rewrite d1_members.
Qed.

Lemma d2_named_old m name :
  m <> dec (c + 1) -> named d2 m name <-> named d m name.
Proof.
  intros Hne. subst d2. rewrite link_named by (by rewrite wf_fmt_next).
  apply d1_named.
Qed.

Lemma d2_named_new : named d2 (dec (c + 1)) entry.
Proof.
  unfold named. subst d2. rewrite <- wf_fmt_next.
  apply (link_attr e parent_inode (next_inode d) entry type mode d1 NAME).
Qed.

Lemma member_not_new dir m : m ∈ members d dir -> m <> dec (c + 1).
Proof.
  intros Hin ->. destruct (wf_members d c Hwf dir _ Hin) as (i & Hi & Hb).
  apply dec_inj in Hi. lia.
Qed.

(** The store with the new entry is well formed, with the counter one
    higher. *)
Lemma wf_link : well_formed d2 (c + 1).
Proof.
  destruct (wf_counter d c Hwf) as [Hc H0].
  destruct (incr_counter d c Hc H0 Hmax) as [_ Hd1].
  split.
  - split; [| lia]. unfold counter. subst d2.
    rewrite link_other_key by done. fold d1. subst d1. rewrite Hd1.
    rewrite lookup_insert_eq. apply string2ll_dec.
    unfold LLONG_MIN, LLONG_MAX, INT_MAX in *. lia.
  - intros dir v. destruct (decide (dir = fmt_d parent_inode)) as [-> | Hne].
    + subst d2. rewrite link_dirent by apply d1_sets. intros [= <-]. eauto.
    + subst d2. rewrite link_other_key; [apply d1_sets | congruence | done].
  - intros dir m. rewrite d2_members.
    destruct (decide (dir = fmt_d parent_inode)) as [-> | Hne].
    + intros _. rewrite wf_fmt_parent.
      destruct Hparent as [-> | [Hp _]]; [by left | right].
      exists parent_inode. split; [done | lia].
    + intros Hin. destruct (wf_dirs d c Hwf dir m Hin) as [? | (i & ? & ?)];
        [by left | right]. exists i. split; [done | lia].
  - intros dir m. rewrite d2_members.
    assert (Hold : m ∈ members d dir -> exists i, m = dec i /\ 0 < i <= c + 1).
    { intros Hin. destruct (wf_members d c Hwf dir m Hin) as (i & ? & ?).
      exists i. split; [done | lia]. }
    destruct (decide (dir = fmt_d parent_inode)); [| done].
    rewrite elem_of_union, elem_of_singleton. intros [-> | Hin]; [| auto].
    exists (c + 1). split; [done | lia].
  - intros dir m. rewrite d2_members.
    assert (Hold : m ∈ members d dir -> exists name, named d2 m name).
    { intros Hin. destruct (wf_named d c Hwf dir m Hin) as (name & Hn).
      exists name. apply d2_named_old; [by eapply member_not_new | done]. }
    destruct (decide (dir = fmt_d parent_inode)); [| done].
    rewrite elem_of_union, elem_of_singleton. intros [-> | Hin]; [| auto].
    exists entry. apply d2_named_new.
  - intros dir m1 m2 name. rewrite !d2_members.
    assert (Hold : m1 ∈ members d dir -> m2 ∈ members d dir ->
                   named d2 m1 name -> named d2 m2 name -> m1 = m2).
    { intros Hin1 Hin2 Hn1 Hn2.
      apply d2_named_old in Hn1; [| by eapply member_not_new].
      apply d2_named_old in Hn2; [| by eapply member_not_new].
      by apply (wf_unique d c Hwf dir m1 m2 name). }
    destruct (decide (dir = fmt_d parent_inode)) as [-> | Hne]; [| done].
    rewrite !elem_of_union, !elem_of_singleton.
    pose proof d2_named_new as Hnew.
    intros [-> | Hin1] [-> | Hin2] Hn1 Hn2; auto.
    + apply d2_named_old in Hn2; [| by eapply member_not_new].
      unfold named in Hn1, Hnew. rewrite Hnew in Hn1. injection Hn1 as <-.
      by destruct (Hfresh m2 Hin2).
    + apply d2_named_old in Hn1; [| by eapply member_not_new].
      unfold named in Hn2, Hnew. rewrite Hnew in Hn2. injection Hn2 as <-.
      by destruct (Hfresh m1 Hin1).
Qed.

(** The set of the parent fits the buffer of [find_inode] with the new
    number. *)
Hypothesis Hroom :
  set_fits ({[dec (c + 1)]} ∪ members d (fmt_d parent_inode)) = true.

(** Paths that resolved before the new entry resolve as before. *)
Lemma wf_link_resolve x r :
  resolve d x = Some r -> r <> -1 -> resolve d2 x = Some r.
Proof.
  intros Hx Hr. rewrite <- after_incr_resolve in Hx. fold d1 in Hx.
  apply (resolve_link d1 d2 (fmt_d parent_inode) (fmt_d (next_inode d)) entry);
    try done.
  - intros dir Hne. subst d2. apply link_other_key; [congruence | done].
  - subst d2. apply link_dirent, d1_sets.
  - intros m Hne. subst d2. apply link_other_key; [done |]. congruence.
  - rewrite wf_fmt_next. apply d2_named_new.
  - apply next_not_member.
  - intros m Hin Hn. rewrite d1_members in Hin. rewrite d1_named in Hn.
    by apply (Hfresh m).
  - intros m Hin. rewrite d1_members in Hin.
    destruct (wf_named d c Hwf _ m Hin) as (name & Hn).
    exists name. by apply d1_named.
  - intros m1 m2 name. rewrite !d1_members, !d1_named.
    apply (wf_unique d c Hwf).
  - rewrite d1_members. by apply (wf_no_minus1 d c).
  - by rewrite wf_fmt_next, d1_members.
Qed.

(** The new entry resolves to the new inode. *)
Lemma wf_link_new :
  dir_scan d2 (fmt_d parent_inode) entry = Some (c + 1).
Proof.
  assert (Hatoi : atoi (fmt_d (next_inode d)) = c + 1).
  { rewrite wf_fmt_next. apply atoi_dec.
    destruct (wf_counter d c Hwf) as [_ H0].
    unfold is_int, INT_MIN, INT_MAX in *. lia. }
  rewrite <- Hatoi.
  apply (dir_scan_link_new d1 d2 (fmt_d parent_inode) (fmt_d (next_inode d)) entry).
  - subst d2. apply link_dirent, d1_sets.
  - intros m Hne. subst d2. apply link_other_key; [done |]. congruence.
  - rewrite wf_fmt_next. apply d2_named_new.
  - apply next_not_member.
  - intros m Hin Hn. rewrite d1_members in Hin. rewrite d1_named in Hn.
    by apply (Hfresh m).
  - intros m Hin. rewrite d1_members in Hin.
    destruct (wf_named d c Hwf _ m Hin) as (name & Hn).
    exists name. by apply d1_named.
  - by rewrite wf_fmt_next, d1_members.
Qed.

End WellFormed.

(** ** Removing an entry *)

Section Unlink.

Lemma remove_inode_ready inode d l :
  exists l',
    remove_inode inode (ready d l)
    = (Some tt, ready (exec_all (remove_cmds inode) d) (l ++ l')).
Proof.
  unfold remove_inode, remove_cmds. destruct (inode <? 0).
  - exists []. by rewrite app_nil_r.
  - rewrite bind_run, alive_ready.
    pose proof (pipeline_run ((fun a => DEL (INODE (fmt_d inode) a)) <$> all_attrs)
                  d (l ++ [PING])) as E.
    change (length ((fun a => DEL (INODE (fmt_d inode) a)) <$> all_attrs))
      with (length all_attrs) in E.
    rewrite E. eexists. by rewrite <- app_assoc.
Qed.

Lemma remove_cmds_lookup inode d a :
  0 <= inode -> exec_all (remove_cmds inode) d !! INODE (fmt_d inode) a = None.
Proof.
  intros H. unfold remove_cmds. destruct (Z.ltb_spec inode 0); [lia |].
  cbn [all_attrs fmap list_fmap exec_all foldl exec snd].
  destruct a; repeat (rewrite lookup_delete_ne by done); apply lookup_delete_eq.
Qed.

Lemma remove_cmds_frame inode d k :
  (forall a, k <> INODE (fmt_d inode) a) ->
  exec_all (remove_cmds inode) d !! k = d !! k.
Proof.
  intros Hk. apply exec_all_frame. intros cm Hcm Hw.
  unfold remove_cmds in Hcm. destruct (inode <? 0); [by apply elem_of_nil in Hcm |].
  apply list_elem_of_fmap in Hcm as (a & -> & _).
  cbn [written] in Hw. apply list_elem_of_singleton in Hw. by eapply Hk.
Qed.

Lemma srem_members d dir m dir' :
  members (exec (SREM (DIRENT dir) m) d).2 dir'
  = if decide (dir' = dir) then members d dir ∖ {[m]} else members d dir'.
Proof.
  destruct (decide (dir' = dir)) as [-> | Hne].
  - unfold members. cbn [exec].
    destruct (d !! DIRENT dir) as [[str | set] |] eqn:E; cbn [snd].
    + rewrite E. apply leibniz_equiv. by rewrite difference_disjoint by set_solver.
    + destruct (decide (m ∈ set)) as [Hin | Hnin]; cbn [snd].
      * destruct (decide (set ∖ {[m]} = ∅)) as [Hem | Hnem].
        -- by rewrite lookup_delete_eq, Hem.
        -- by rewrite lookup_insert_eq.
      * rewrite E. apply leibniz_equiv. symmetry. apply difference_disjoint.
        by apply disjoint_singleton_r.
    + rewrite E. apply leibniz_equiv. by rewrite difference_disjoint by set_solver.
  - unfold members. rewrite exec_frame; [done |].
    cbn [written]. intros ?%list_elem_of_singleton. congruence.
Qed.


End Unlink.

(** ** create, then unlink *)

Section CreateUnlink.

Lemma exec_all_cons cm cs d : exec_all (cm :: cs) d = exec_all cs (exec cm d).2.
Proof. reflexivity. Qed.

(** A parent that resolves on a well-formed store is the root or an
    allocated inode. *)
Lemma parent_allocated d c parent parent_inode :
  well_formed d c -> c + 1 <= INT_MAX ->
  resolve d parent = Some parent_inode -> parent_inode <> -1 ->
  parent_inode = -99 \/
  (0 < parent_inode <= c /\ exists dir, dec parent_inode ∈ members d dir).
Proof.
  intros Hwf Hmax Hres Hne.
  destruct (resolve_wf d c parent parent_inode Hwf ltac:(lia) Hres)
    as [? | [? | ?]]; auto. done.
Qed.

(** After the two commands of [fs_create] or [fs_mkdir] on a well-formed
    store: the store is well formed, the parent resolves as before and
    the path resolves to the inode just allocated. *)
Lemma link_resolves e type mode d path parent parent_inode cnt :
  well_formed d cnt -> cnt + 1 <= INT_MAX ->
  get_parent path = Some parent -> path <> "/" ->
  resolve d parent = Some parent_inode -> parent_inode <> -1 ->
  fresh_name d (fmt_d parent_inode) (get_basename path) ->
  set_fits ({[dec (cnt + 1)]} ∪ members d (fmt_d parent_inode)) = true ->
  let d2 := exec_all (link_cmds e parent_inode (cnt + 1) (get_basename path)
                        type mode) (after_incr d) in
  next_inode d = cnt + 1 /\
  well_formed d2 (cnt + 1) /\
  resolve d2 parent = Some parent_inode /\
  resolve d2 path = Some (cnt + 1) /\
  (forall x r, resolve d x = Some r -> r <> -1 -> resolve d2 x = Some r).
Proof.
  intros Hwf Hmax Hpar Hroot Hres Hne Hfresh Hroom d2.
  pose proof (parent_allocated _ _ _ _ Hwf Hmax Hres Hne) as Hp.
  pose proof (wf_next d cnt Hwf Hmax) as Hnext.
  pose proof (wf_link e d cnt parent_inode (get_basename path) type mode
                Hwf Hmax Hp Hfresh) as Hwf'.
  pose proof (wf_link_new e d cnt parent_inode (get_basename path) type mode
                Hwf Hmax Hfresh Hroom) as Hnew.
  pose proof (fun x r => wf_link_resolve e d cnt parent_inode (get_basename path)
                type mode Hwf Hmax Hfresh Hroom x r) as Hold.
  rewrite Hnext in Hwf', Hnew, Hold. fold d2 in Hwf', Hnew, Hold.
  split; [done |]. split; [done |].
  split; [by apply Hold |]. split; [| done].
  rewrite resolve_step, Hpar, (Hold parent parent_inode Hres Hne).
  by destruct (String.eqb_spec path "/").
Qed.

Lemma create_resolves c e path mode s parent parent_inode cnt :
  _g_read_only c = false -> inbuf s = [] ->
  well_formed (db s) cnt -> cnt + 1 <= INT_MAX ->
  get_parent path = Some parent -> path <> "/" ->
  resolve (db s) parent = Some parent_inode -> parent_inode <> -1 ->
  fresh_name (db s) (fmt_d parent_inode) (get_basename path) ->
  set_fits ({[dec (cnt + 1)]} ∪ members (db s) (fmt_d parent_inode)) = true ->
  exists s1,
    fs_create c e path mode s = (Some 0, s1) /\ inbuf s1 = [] /\
    db s1 = exec_all (link_cmds e parent_inode (cnt + 1) (get_basename path)
                        "FILE" mode) (after_incr (db s)) /\
    well_formed (db s1) (cnt + 1) /\
    resolve (db s1) parent = Some parent_inode /\
    resolve (db s1) path = Some (cnt + 1).
Proof.
  intros Hro Hsync Hwf Hmax Hpar Hroot Hres Hne Hfresh Hroom.
  destruct (fs_create_run c e path mode s parent parent_inode Hro Hsync Hpar Hres)
    as (l & E).
  destruct (link_resolves e "FILE" mode (db s) path parent parent_inode cnt)
    as (Hnext & Hwf' & Hp' & Hr' & _); try done.
  rewrite Hnext in E.
  eexists. split; [exact E |]. cbn [db inbuf ready].
  split; [reflexivity |]. split; [reflexivity |].
  split; [exact Hwf' |]. split; [exact Hp' | exact Hr'].
Qed.




End CreateUnlink.

(** ** rmdir of a directory that has entries *)

Section Rmdir.

Lemma strrchr_slash_app p q :
  strrchr_slash q = None ->
  strrchr_slash (p ++ String "/" q) = Some (String.length p).
Proof.
  intros Hq. induction p as [| ch p IH]; simpl.
  - by rewrite Hq.
  - by rewrite IH.
Qed.

Lemma str_take_app p r : str_take (String.length p) (p ++ r) = p.
Proof.
  induction p as [| ch p IH]; [by destruct r |]. simpl. by rewrite IH.
Qed.

Lemma str_drop_app p ch q : str_drop (S (String.length p)) (p ++ String ch q) = q.
Proof.
  induction p as [| ch' p IH]; [done |]. simpl. exact IH.
Qed.


Lemma get_basename_child p q :
  strrchr_slash q = None -> get_basename (p ++ String "/" q) = q.
Proof.
  intros Hq. unfold get_basename. rewrite strrchr_slash_app by done.
  apply str_drop_app.
Qed.



Lemma is_directory_ready path d l :
  exists l',
    is_directory path (ready d l)
    = (match resolve d path with
       | Some inode => Some (if inode =? -1 then -1 else is_dir d inode)
       | None => None
       end, ready d (l ++ l')).
Proof.
  unfold is_directory. rewrite bind_run, alive_ready.
  destruct (find_inode_ready path d (l ++ [PING])) as (l1 & E1).
  rewrite bind_run, E1. destruct (resolve d path) as [inode |].
  - destruct (inode =? -1).
    + eexists. cbn [ret]. by rewrite <- app_assoc.
    + rewrite bind_run, command_ready. cbn [exec fst snd]. unfold is_dir, ret.
      eexists. f_equal.
      * by destruct (d !! INODE (fmt_d inode) TYPE) as [[str | set] |].
      * by rewrite <- !app_assoc.
  - eexists. by rewrite <- app_assoc.
Qed.

Lemma count_directory_entries_ready path d l :
  exists l',
    count_directory_entries path (ready d l)
    = (match resolve d path with
       | Some inode => Some (entry_count d inode)
       | None => None
       end, ready d (l ++ l')).
Proof.
  unfold count_directory_entries. rewrite bind_run, alive_ready.
  destruct (find_inode_ready path d (l ++ [PING])) as (l1 & E1).
  rewrite bind_run, E1. destruct (resolve d path) as [inode |].
  - rewrite bind_run, command_ready.
    cbn [exec fst snd]. unfold entry_count, members, ret.
    eexists. f_equal.
    + destruct (d !! DIRENT (fmt_d inode)) as [[str | set] |] eqn:E.
      * by rewrite size_empty.
      * f_equal. by rewrite length_fmap.
      * by rewrite size_empty.
    + by rewrite <- !app_assoc.
  - eexists. by rewrite <- app_assoc.
Qed.


End Rmdir.

Section RmdirScenario.

Lemma after_incr_members d dir : members (after_incr d) dir = members d dir.
Proof. unfold members. by rewrite after_incr_frame. Qed.

Lemma linked_members e d cnt parent_inode inode entry type mode dir :
  well_formed d cnt ->
  members (exec_all (link_cmds e parent_inode inode entry type mode)
             (after_incr d)) dir
  = if decide (dir = fmt_d parent_inode)
    then {[fmt_d inode]} ∪ members d dir else members d dir.
Proof.
  intros Hwf. rewrite link_members.
  - destruct (decide _); by rewrite after_incr_members.
  - intros v. rewrite after_incr_frame by done. apply (wf_sets _ _ Hwf).
Qed.




Lemma well_formed_empty : well_formed ∅ 0.
Proof.
  split; unfold members, named, counter.
  - rewrite lookup_empty. split; [reflexivity | lia].
  - intros dir v. by rewrite lookup_empty.
  - intros dir m. rewrite lookup_empty. intros H.
    by apply not_elem_of_empty in H.
  - intros dir m. rewrite lookup_empty. intros H.
    by apply not_elem_of_empty in H.
  - intros dir m. rewrite lookup_empty. intros H.
    by apply not_elem_of_empty in H.
  - intros dir m1 m2 name. rewrite lookup_empty. intros H.
    by apply not_elem_of_empty in H.
Defined.

Lemma fresh_name_empty dir entry : fresh_name ∅ dir entry.
Proof.
  intros m. unfold members. rewrite lookup_empty. intros H.
  by apply not_elem_of_empty in H.
Defined.


End RmdirScenario.

(** ** Reading back what was written *)

Section ReadWrite.

Lemma string_length_app (a b : string) :
  String.length (a ++ b) = (String.length a + String.length b)%nat.
Proof. induction a as [| ch a IH]; simpl; [done | by rewrite IH]. Qed.

Lemma str_take_all (a : string) : str_take (String.length a) a = a.
Proof. induction a as [| ch a IH]; simpl; [done | by rewrite IH]. Qed.

(** The whole of a string: bytes 0 to [n], where [n] is its length. *)
Lemma range_of_whole data :
  range_of data 0 (Z.of_nat (String.length data)) = data.
Proof.
  unfold range_of. cbn [Z.ltb Z.compare].
  set (n := Z.of_nat (String.length data)).
  assert (Hn : 0 <= n) by lia.
  destruct (Z.ltb_spec n 0); [lia |].
  rewrite !Z.max_r by lia. destruct (Z.leb_spec n n); [| lia].
  destruct (Z.eqb_spec n 0) as [E | Hne].
  - rewrite orb_true_r. destruct data; [done | simpl in n; lia].
  - destruct (Z.ltb_spec (n - 1) 0); [lia |]. cbn [orb].
    replace (n - 1 - 0 + 1) with n by lia.
    subst n. rewrite Nat2Z.id. cbn [Z.to_nat str_drop].
    destruct data; [done | apply str_take_all].
Qed.

(** [fs_read] of at least the whole file from offset 0, when SIZE is
    the length of DATA. *)
Lemma fs_read_whole path size s inode data :
  inbuf s = [] ->
  resolve (db s) path = Some inode -> inode <> -1 ->
  db s !! INODE (fmt_d inode) SIZE
  = Some (VStr (dec (Z.of_nat (String.length data)))) ->
  db s !! INODE (fmt_d inode) DATA = Some (VStr data) ->
  Z.of_nat (String.length data) <= INT_MAX ->
  Z.of_nat (String.length data) <= size ->
  exists l,
    fs_read path size 0 s
    = (Some (Z.of_nat (String.length data), data), ready (db s) l).
Proof.
  intros Hsync Hres Hne Hsize Hdata Hmax Hreq. unfold fs_read.
  set (n := Z.of_nat (String.length data)) in *.
  assert (Hn : 0 <= n) by lia.
  assert (Hint : is_int n) by (unfold is_int, INT_MIN; lia).
  destruct (alive_sync s Hsync) as (l0 & E0). rewrite bind_run, E0.
  destruct (find_inode_ready path (db s) (log s ++ l0)) as (l1 & E1).
  rewrite bind_run, E1, Hres. destruct (Z.eqb_spec inode (-1)); [done |].
  rewrite bind_run, command_ready. cbn [exec fst snd]. rewrite Hsize.
  rewrite bind_run. cbn [reply_str lift ret].
  rewrite (atoi_dec n Hint).
  assert (Hu : to_u64 n = n).
  { unfold to_u64. apply Z.mod_small. unfold INT_MAX in Hmax. lia. }
  rewrite Hu.
  replace (if n <? size then n else size) with n
    by (destruct (Z.ltb_spec n size); lia).
  replace (0 + n) with n by lia. rewrite Hu.
  destruct (Z.gtb_spec n n); [lia |].
  replace (n + 0) with n by lia. rewrite Hu.
  change (to_u64 0) with 0.
  rewrite bind_run, command_ready. cbn [exec fst snd]. unfold getrange.
  assert (Hll : in_llong 0 && in_llong n = true).
  { unfold in_llong, LLONG_MIN, LLONG_MAX. unfold INT_MAX in Hmax.
    repeat (apply andb_true_intro; split); apply Z.leb_le; lia. }
  rewrite Hll, Hdata. subst n. rewrite range_of_whole.
  rewrite bind_run. cbn [ret reply_str].
  rewrite (to_int_id _ Hint).
  destruct (Z.gtb_spec (Z.of_nat (String.length data)) 0) as [Hpos | Hzero].
  - rewrite bind_run. unfold memcpy_from.
    destruct (Z.leb_spec (Z.of_nat (String.length data))
                (Z.of_nat (String.length data) + 1)); [| lia].
    rewrite Nat2Z.id, str_take_app. cbn [lift ret]. eexists. reflexivity.
  - rewrite bind_run. cbn [ret].
    destruct data; [| simpl in Hzero; lia]. eexists. reflexivity.
Qed.

(** What the commands of [fs_write] leave in SIZE and DATA. *)
Lemma write_first c e inode buf d :
  Z.of_nat (String.length buf) <= INT_MAX ->
  let d' := exec_all (write_cmds c e inode buf 0) d in
  d' !! INODE (fmt_d inode) SIZE = Some (VStr (dec (Z.of_nat (String.length buf))))
  /\ d' !! INODE (fmt_d inode) DATA = Some (VStr buf).
Proof.
  intros Hmax d'. subst d'. unfold write_cmds.
  cbn [Z.eqb exec_all foldl exec snd mset fst].
  rewrite (fmt_d_dec (Z.of_nat (String.length buf)))
    by (unfold is_int, INT_MIN; lia).
  split.
  - rewrite lookup_insert_ne, lookup_insert_ne by done. apply lookup_insert_eq.
  - apply lookup_insert_eq.
Qed.

Lemma write_append c e inode buf offset d n data :
  offset <> 0 ->
  d !! INODE (fmt_d inode) SIZE = Some (VStr (dec n)) ->
  file_data d (fmt_d inode) = Some data ->
  0 <= n -> Z.of_nat (String.length buf) <= INT_MAX ->
  n + Z.of_nat (String.length buf) <= LLONG_MAX ->
  let d' := exec_all (write_cmds c e inode buf offset) d in
  d' !! INODE (fmt_d inode) SIZE
  = Some (VStr (dec (n + Z.of_nat (String.length buf))))
  /\ d' !! INODE (fmt_d inode) DATA = Some (VStr (data ++ buf)).
Proof.
  intros Hoff Hsize Hdata Hn Hbuf Hmax d'. subst d'. unfold write_cmds.
  destruct (Z.eqb_spec offset 0); [done |].
  set (k := Z.of_nat (String.length buf)) in *.
  assert (Hk : to_int k = k).
  { apply to_int_id. unfold is_int, INT_MIN. lia. }
  assert (Hincr : (exec (INCRBY (INODE (fmt_d inode) SIZE) (to_int k)) d).2
                  = <[INODE (fmt_d inode) SIZE := VStr (dec (n + k))]> d).
  { cbn [exec]. unfold incrby. rewrite Hsize, string2ll_dec, Hk.
    - unfold in_llong, LLONG_MIN, LLONG_MAX in *.
      destruct (Z.leb_spec (- 2 ^ 63) (n + k)); [| lia].
      destruct (Z.leb_spec (n + k) (2 ^ 63 - 1)); [done | lia].
    - unfold LLONG_MIN, LLONG_MAX in *. lia. }
  assert (Happ : (exec (APPEND (INODE (fmt_d inode) DATA) buf)
                    (<[INODE (fmt_d inode) SIZE := VStr (dec (n + k))]> d)).2
                 = <[INODE (fmt_d inode) DATA := VStr (data ++ buf)]>
                     (<[INODE (fmt_d inode) SIZE := VStr (dec (n + k))]> d)).
  { cbn [exec]. rewrite lookup_insert_ne by done. unfold file_data in Hdata.
    destruct (d !! INODE (fmt_d inode) DATA) as [[str | set] |]; try done;
      by injection Hdata as <-. }
  destruct (_g_fast c); cbn [app exec_all foldl]; rewrite Hincr, Happ.
  - split; [| apply lookup_insert_eq].
    rewrite lookup_insert_ne by done. apply lookup_insert_eq.
  - cbn [exec snd]. split.
    + rewrite lookup_insert_ne, lookup_insert_ne by done. apply lookup_insert_eq.
    + rewrite lookup_insert_ne by done. apply lookup_insert_eq.
Qed.

(** C5: for a path that resolves, [write(p, b1, |b1|, 0)], then
    [write(p, b2, |b2|, |b1|)], then [read(p, _, |b1|+|b2|, 0)]: the
    writes return their sizes and the read returns |b1|+|b2| with the
    bytes of [b1] followed by those of [b2]. *)
Theorem write_write_read c e1 e2 path b1 b2 s inode :
  _g_read_only c = false -> inbuf s = [] ->
  resolve (db s) path = Some inode -> inode <> -1 ->
  Z.of_nat (String.length b1) + Z.of_nat (String.length b2) <= INT_MAX ->
  exists s1 s2 s3,
    fs_write c e1 path b1 0 s = (Some (Z.of_nat (String.length b1)), s1) /\
    fs_write c e2 path b2 (Z.of_nat (String.length b1)) s1
    = (Some (Z.of_nat (String.length b2)), s2) /\
    fs_read path (Z.of_nat (String.length b1) + Z.of_nat (String.length b2)) 0 s2
    = (Some (Z.of_nat (String.length b1) + Z.of_nat (String.length b2),
             (b1 ++ b2)%string), s3).
Proof.
  intros Hro Hsync Hres Hne Hmax.
  assert (H1 : is_int (Z.of_nat (String.length b1)))
    by (unfold is_int, INT_MIN; lia).
  assert (H2 : is_int (Z.of_nat (String.length b2)))
    by (unfold is_int, INT_MIN; lia).
  destruct (fs_write_run c e1 path b1 0 s inode Hro Hsync Hres) as (l1 & E1).
  rewrite (to_int_id _ H1) in E1.
  set (d1 := exec_all (write_cmds c e1 inode b1 0) (db s)) in *.
  destruct (write_first c e1 inode b1 (db s) ltac:(lia)) as [Hsize1 Hdata1].
  fold d1 in Hsize1, Hdata1.
  assert (Hres1 : resolve d1 path = Some inode)
    by (subst d1; by rewrite write_cmds_resolve).
  destruct (fs_write_run c e2 path b2 (Z.of_nat (String.length b1))
              (ready d1 (log s ++ l1 ++ write_cmds c e1 inode b1 0)) inode
              Hro eq_refl Hres1) as (l2 & E2).
  rewrite (to_int_id _ H2) in E2. cbn [db log ready] in E2.
  set (d2 := exec_all (write_cmds c e2 inode b2 (Z.of_nat (String.length b1))) d1)
    in *.
  assert (Hfinal : d2 !! INODE (fmt_d inode) SIZE
                   = Some (VStr (dec (Z.of_nat (String.length (b1 ++ b2)))))
                   /\ d2 !! INODE (fmt_d inode) DATA = Some (VStr (b1 ++ b2))).
  { rewrite string_length_app, Nat2Z.inj_add. subst d2.
    assert (Hb2 : Z.of_nat (String.length b2) <= INT_MAX) by lia.
    destruct (Z.eq_dec (Z.of_nat (String.length b1)) 0) as [E0 | Hpos].
    - rewrite E0. destruct b1; [| simpl in E0; lia].
      exact (write_first c e2 inode b2 d1 Hb2).
    - apply write_append; try done; try lia.
      + unfold file_data. by rewrite Hdata1.
      + unfold LLONG_MAX, INT_MAX in *. lia. }
  destruct Hfinal as [Hsize2 Hdata2].
  assert (Hres2 : resolve d2 path = Some inode)
    by (subst d2; by rewrite write_cmds_resolve).
  destruct (fs_read_whole path
              (Z.of_nat (String.length b1) + Z.of_nat (String.length b2))
              (ready d2 ((log s ++ l1 ++ write_cmds c e1 inode b1 0) ++ l2 ++
                         write_cmds c e2 inode b2 (Z.of_nat (String.length b1))))
              inode (b1 ++ b2)) as (l3 & E3); try done.
  - rewrite string_length_app, Nat2Z.inj_add. lia.
  - rewrite string_length_app, Nat2Z.inj_add. lia.
  - rewrite string_length_app, Nat2Z.inj_add in E3.
    eexists _, _, _. split; [exact E1 |]. split; [exact E2 | exact E3].
Qed.

Lemma write_write_read_witness :
  exists s1 s2 s3,
    fs_write (Config false false) (Env 1000 0 0 0 0) "/f" "hello " 0
      (Conn (<[INODE "1" NAME := VStr "f"]>
               (<[DIRENT "-99" := VSet {["1"]}]> ∅)) true [] [])
    = (Some 6, s1) /\
    fs_write (Config false false) (Env 1001 0 0 0 0) "/f" "world" 6 s1
    = (Some 5, s2) /\
    fs_read "/f" 11 0 s2 = (Some (11, "hello world"), s3).
Proof.
  apply (write_write_read (Config false false) (Env 1000 0 0 0 0)
           (Env 1001 0 0 0 0) "/f" "hello " "world"
           (Conn (<[INODE "1" NAME := VStr "f"]>
                    (<[DIRENT "-99" := VSet {["1"]}]> ∅)) true [] []) 1).
  - reflexivity.
  - reflexivity.
  - vm_compute. reflexivity.
  - discriminate.
  - vm_compute. discriminate.
Defined.

End ReadWrite.

(** ** getattr after create *)

Section GetattrAfterCreate.

(** The first reply of [fs_getattr] when all six keys hold strings: the
    uid is read from the GID slot and the link count from the UID
    slot. *)
Lemma getattr_times_strings ctime atime mtime gid uid link past_end :
  getattr_times
    (RArr [RStr ctime; RStr atime; RStr mtime; RStr gid; RStr uid; RStr link])
    past_end zero_stat
  = Some (Stat 0 (to_u64 (atoi uid)) (to_u32 (atoi gid)) (to_u32 (atoi gid)) 0
            (atoi atime) (atoi mtime)
            (match past_end with
             | Some (RStr _) => atoi link
             | _ => atoi ctime
             end)).
Proof. destruct past_end as [[] |]; reflexivity. Qed.

Lemma fs_getattr_file e past_end path s inode ctime atime mtime gid uid link mode size :
  inbuf s = [] -> path <> "/" ->
  resolve (db s) path = Some inode -> inode <> -1 ->
  db s !! INODE (fmt_d inode) CTIME = Some (VStr ctime) ->
  db s !! INODE (fmt_d inode) ATIME = Some (VStr atime) ->
  db s !! INODE (fmt_d inode) MTIME = Some (VStr mtime) ->
  db s !! INODE (fmt_d inode) GID = Some (VStr gid) ->
  db s !! INODE (fmt_d inode) UID = Some (VStr uid) ->
  db s !! INODE (fmt_d inode) LINK = Some (VStr link) ->
  db s !! INODE (fmt_d inode) TYPE = Some (VStr "FILE") ->
  db s !! INODE (fmt_d inode) MODE = Some (VStr mode) ->
  db s !! INODE (fmt_d inode) SIZE = Some (VStr size) ->
  exists l,
    fs_getattr e past_end path s
    = (Some (0, Stat (to_u32 (atoi mode)) (to_u64 (atoi uid))
                  (to_u32 (atoi gid)) (to_u32 (atoi gid)) (atoi size)
                  (atoi atime) (atoi mtime)
                  (match past_end with
                   | Some (RStr _) => atoi link
                   | _ => atoi ctime
                   end)),
       ready (db s) l).
Proof.
  intros Hsync Hroot Hres Hne Hc Ha Hm Hg Hu Hl Ht Hmo Hs. unfold fs_getattr.
  destruct (alive_sync s Hsync) as (l0 & E0). rewrite bind_run, E0.
  destruct (String.eqb_spec path "/"); [done |].
  destruct (find_inode_ready path (db s) (log s ++ l0)) as (l1 & E1).
  rewrite bind_run, E1, Hres. destruct (Z.eqb_spec inode (-1)); [done |].
  unfold ready. rewrite bind_run, append_run, bind_run. cbn [app].
  rewrite get_reply_run. cbn [exec fst snd fmap list_fmap].
  unfold mget1. rewrite Hc, Ha, Hm, Hg, Hu, Hl.
  rewrite bind_run, getattr_times_strings. cbn [lift ret].
  rewrite bind_run. fold (ready (db s)
    (((log s ++ l0) ++ l1) ++
       [MGET [INODE (fmt_d inode) CTIME; INODE (fmt_d inode) ATIME;
              INODE (fmt_d inode) MTIME; INODE (fmt_d inode) GID;
              INODE (fmt_d inode) UID; INODE (fmt_d inode) LINK]])).
  rewrite command_ready. cbn [exec fst snd fmap list_fmap].
  unfold mget1. rewrite Ht, Hmo, Hs.
  rewrite bind_run. eexists. reflexivity.
Qed.

(** C1 on the code: after [create(path, mode)] on a well-formed store,
    in a directory whose set, with one more number, fits the buffer in
    which [find_inode] builds its [MGET], [getattr(path)] returns 0 with
    the mode that was given, size 0 and the caller's gid; but [st_uid] is
    the caller's gid, not the uid, and [st_nlink] is the caller's uid,
    not 1. *)
Theorem getattr_after_create c e e' past_end path mode s parent parent_inode cnt :
  _g_read_only c = false -> inbuf s = [] ->
  well_formed (db s) cnt -> cnt + 1 <= INT_MAX ->
  get_parent path = Some parent -> path <> "/" ->
  resolve (db s) parent = Some parent_inode -> parent_inode <> -1 ->
  fresh_name (db s) (fmt_d parent_inode) (get_basename path) ->
  set_fits ({[dec (cnt + 1)]} ∪ members (db s) (fmt_d parent_inode)) = true ->
  exists s1 st s2,
    fs_create c e path mode s = (Some 0, s1) /\
    db s1 !! INODE (dec (cnt + 1)) TYPE = Some (VStr "FILE") /\
    fs_getattr e' past_end path s1 = (Some (0, st), s2) /\
    st_mode st = to_u32 (to_int mode) /\
    st_size st = 0 /\
    st_gid st = to_u32 (to_int (fuse_gid e)) /\
    st_uid st = to_u32 (to_int (fuse_gid e)) /\
    st_nlink st = to_u64 (to_int (fuse_uid e)).
Proof.
  intros Hro Hsync Hwf Hmax Hpar Hroot Hres Hne Hfresh Hroom.
  destruct (create_resolves c e path mode s parent parent_inode cnt)
    as (s1 & E1 & Hsync1 & Hdb1 & Hwf1 & Hpres1 & Hres1); try done.
  assert (Hfmt : fmt_d (cnt + 1) = dec (cnt + 1)).
  { apply fmt_d_dec. destruct (wf_counter _ _ Hwf).
    unfold is_int, INT_MIN, INT_MAX in *. lia. }
  assert (Hattr : forall a, db s1 !! INODE (fmt_d (cnt + 1)) a = _)
    by (intros a; rewrite Hdb1; apply link_attr).
  destruct (fs_getattr_file e' past_end path s1 (cnt + 1)
              (fmt_d (time_now e)) (fmt_d (time_now e)) (fmt_d (time_now e))
              (fmt_d (fuse_gid e)) (fmt_d (fuse_uid e)) "1" (fmt_d mode) "0")
    as (l2 & E2); try done; try apply Hattr.
  { destruct (wf_counter _ _ Hwf). lia. }
  exists s1. eexists _, _. split; [exact E1 |].
  split; [rewrite <- Hfmt; apply Hattr |]. split; [exact E2 |].
  cbn [st_mode st_size st_gid st_uid st_nlink]. rewrite !atoi_fmt_d.
  by repeat split.
Qed.

(** The failing input: uid 1000 and gid 100 create "/f" with mode
    0100644 on an empty store; [getattr] then reports uid 100 and link
    count 1000. *)
Lemma getattr_after_create_witness :
  exists s1 st s2,
    fs_create (Config false false) (Env 1000 1000 100 0 0) "/f" 33188
      (Conn ∅ false [] []) = (Some 0, s1) /\
    fs_getattr (Env 1000 1000 100 0 0) None "/f" s1 = (Some (0, st), s2) /\
    st_mode st = 33188 /\ st_size st = 0 /\ st_gid st = 100 /\
    st_uid st = 100 /\ st_nlink st = 1000 /\
    st_uid st <> 1000 /\ st_nlink st <> 1.
Proof.
  destruct (getattr_after_create (Config false false) (Env 1000 1000 100 0 0)
              (Env 1000 1000 100 0 0) None "/f" 33188 (Conn ∅ false [] [])
              "/" (-99) 0)
    as (s1 & st & s2 & E1 & _ & E2 & Hm & Hs & Hg & Hu & Hn).
  - reflexivity.
  - reflexivity.
  - apply well_formed_empty.
  - vm_compute. discriminate.
  - reflexivity.
  - discriminate.
  - reflexivity.
  - discriminate.
  - apply fresh_name_empty.
  - vm_compute. reflexivity.
  - exists s1, st, s2. rewrite Hm, Hs, Hg, Hu, Hn.
    split; [exact E1 |]. split; [exact E2 |].
    repeat split; try reflexivity; discriminate.
Defined.

End GetattrAfterCreate.

(** ** The size of a file is the length of its data *)

Section SizeInvariant.

Lemma counter_frame d d' :
  d' !! GLOBAL_INODE = d !! GLOBAL_INODE -> counter d' = counter d.
Proof. unfold counter. by intros ->. Qed.

Lemma members_frame d d' dir :
  d' !! DIRENT dir = d !! DIRENT dir -> members d' dir = members d dir.
Proof. unfold members. by intros ->. Qed.

Lemma size_matches_frame d d' i :
  d' !! INODE i SIZE = d !! INODE i SIZE ->
  d' !! INODE i DATA = d !! INODE i DATA ->
  size_matches d i -> size_matches d' i.
Proof.
  intros Hs Hd (data & Hdata & Hsize). exists data.
  unfold file_data in *. by rewrite Hs, Hd.
Qed.

(** Only inode [i0] changed: the sizes are right if they are right for
    [i0]. *)
Lemma sizes_ok_update d d' i0 :
  sizes_ok d ->
  (forall i a, i <> i0 -> d' !! INODE i a = d !! INODE i a) ->
  (d' !! INODE i0 TYPE = Some (VStr "FILE") -> size_matches d' i0) ->
  sizes_ok d'.
Proof.
  intros Hok Hother Hi0 i Htype.
  destruct (decide (i = i0)) as [-> | Hne]; [by apply Hi0 |].
  rewrite Hother in Htype by done.
  apply (size_matches_frame d); [by apply Hother | by apply Hother | by apply Hok].
Qed.

(** No key that the invariant reads changed. *)
Lemma inv_frame d d' cnt :
  store_inv d cnt ->
  d' !! GLOBAL_INODE = d !! GLOBAL_INODE ->
  (forall dir, d' !! DIRENT dir = d !! DIRENT dir) ->
  (forall i, d' !! INODE i TYPE = d !! INODE i TYPE) ->
  (forall i, d' !! INODE i SIZE = d !! INODE i SIZE) ->
  (forall i, d' !! INODE i DATA = d !! INODE i DATA) ->
  store_inv d' cnt.
Proof.
  intros [Hc Hm Hn Hs] Hg Hdir Ht Hsz Hd. split.
  - by rewrite (counter_frame d d').
  - intros dir m. rewrite (members_frame d d') by done. apply Hm.
  - intros i Hi. rewrite Hd. by apply Hn.
  - intros i. rewrite Ht. intros Hty.
    apply (size_matches_frame d); [done | done | by apply Hs].
Qed.

(** Commands that write neither the counter, nor a directory set, nor a
    TYPE, SIZE or DATA key. *)
Lemma inv_harmless cs d cnt :
  store_inv d cnt ->
  (forall cm k, cm ∈ cs -> k ∈ written cm ->
     exists i a, k = INODE i a /\ a <> TYPE /\ a <> SIZE /\ a <> DATA) ->
  store_inv (exec_all cs d) cnt.
Proof.
  intros Hinv Hcs.
  apply (inv_frame d); [done | ..]; intros; apply exec_all_frame;
    intros cm Hcm Hk; destruct (Hcs cm _ Hcm Hk) as (i' & a & Heq & ? & ? & ?);
    congruence.
Qed.

Lemma inv_srem d cnt dir m :
  store_inv d cnt -> store_inv (exec (SREM (DIRENT dir) m) d).2 cnt.
Proof.
  intros [Hc Hm Hn Hs].
  assert (Hother : forall k, k <> DIRENT dir ->
            (exec (SREM (DIRENT dir) m) d).2 !! k = d !! k).
  { intros k Hk. apply exec_frame. cbn [written].
    intros ?%list_elem_of_singleton. congruence. }
  split.
  - by rewrite (counter_frame d) by (by apply Hother).
  - intros dir' m'. rewrite srem_members. destruct (decide (dir' = dir)) as [-> |].
    + rewrite elem_of_difference. intros [Hin _]. by apply (Hm dir).
    + apply Hm.
  - intros i Hi. rewrite Hother by done. by apply Hn.
  - intros i. rewrite Hother by done. intros Hty.
    apply (size_matches_frame d); [by apply Hother | by apply Hother | by apply Hs].
Qed.

Lemma sadd_members_incl d dir m dir' m' :
  m' ∈ members (exec (SADD (DIRENT dir) m) d).2 dir' ->
  m' = m \/ m' ∈ members d dir'.
Proof.
  destruct (decide (dir' = dir)) as [-> | Hne].
  - unfold members. cbn [exec].
    destruct (d !! DIRENT dir) as [[str | set] |] eqn:E; cbn [snd].
    + rewrite E. auto.
    + destruct (decide (m ∈ set)); cbn [snd].
      * rewrite E. auto.
      * rewrite lookup_insert_eq, elem_of_union, elem_of_singleton. tauto.
    + rewrite lookup_insert_eq, elem_of_singleton. auto.
  - unfold members. rewrite exec_frame; [auto |].
    cbn [written]. intros ?%list_elem_of_singleton. congruence.
Qed.

Lemma inv_sadd d cnt dir m :
  store_inv d cnt -> atoi m <= cnt ->
  store_inv (exec (SADD (DIRENT dir) m) d).2 cnt.
Proof.
  intros [Hc Hm Hn Hs] Hle.
  assert (Hother : forall k, k <> DIRENT dir ->
            (exec (SADD (DIRENT dir) m) d).2 !! k = d !! k).
  { intros k Hk. apply exec_frame. cbn [written].
    intros ?%list_elem_of_singleton. congruence. }
  split.
  - by rewrite (counter_frame d) by (by apply Hother).
  - intros dir' m' [-> | Hin]%sadd_members_incl; [done | by apply (Hm dir')].
  - intros i Hi. rewrite Hother by done. by apply Hn.
  - intros i. rewrite Hother by done. intros Hty.
    apply (size_matches_frame d); [by apply Hother | by apply Hother | by apply Hs].
Qed.

Lemma remove_cmds_negative inode : inode < 0 -> remove_cmds inode = [].
Proof. intros H. unfold remove_cmds. by destruct (Z.ltb_spec inode 0); [| lia]. Qed.

Lemma inv_remove d cnt inode :
  store_inv d cnt -> store_inv (exec_all (remove_cmds inode) d) cnt.
Proof.
  intros Hinv. destruct (Z.lt_ge_cases inode 0) as [Hneg | Hpos].
  { by rewrite remove_cmds_negative. }
  destruct Hinv as [Hc Hm Hn Hs].
  assert (Hother : forall k, (forall a, k <> INODE (fmt_d inode) a) ->
            exec_all (remove_cmds inode) d !! k = d !! k)
    by apply remove_cmds_frame.
  split.
  - by rewrite (counter_frame d) by (by apply Hother).
  - intros dir m. rewrite (members_frame d) by (by apply Hother). apply Hm.
  - intros i Hi. destruct (decide (dec i = fmt_d inode)) as [E | Hne].
    + rewrite E. by apply remove_cmds_lookup.
    + rewrite Hother; [by apply Hn | congruence].
  - apply (sizes_ok_update d _ (fmt_d inode)); [done | |].
    + intros i a Hne. apply Hother. congruence.
    + by rewrite remove_cmds_lookup.
Qed.

End SizeInvariant.

Section SizeInvariantCommands.

(** A path resolves to a number that is not above the counter. *)
Lemma resolve_bound d cnt p r :
  store_inv d cnt -> resolve d p = Some r -> is_int r /\ r <= cnt.
Proof.
  intros [[_ Hc] Hm _ _] [-> | [-> | (dir & m & Hin & ->)]]%resolve_inv.
  - split; [by vm_compute | lia].
  - split; [by vm_compute | lia].
  - split; [apply atoi_range | by apply (Hm dir)].
Qed.

Lemma inv_incr d cnt :
  store_inv d cnt -> cnt + 1 <= INT_MAX ->
  next_inode d = cnt + 1 /\ store_inv (after_incr d) (cnt + 1) /\
  after_incr d !! INODE (dec (cnt + 1)) DATA = None.
Proof.
  intros [[Hc H0] Hm Hn Hs] Hmax.
  destruct (incr_counter d cnt Hc H0 Hmax) as [Hnext Hd].
  split; [done |]. split; [split |].
  - split; [| lia]. rewrite Hd. apply counter_insert.
    unfold LLONG_MIN, LLONG_MAX, INT_MAX in *. lia.
  - intros dir m. rewrite after_incr_members. intros Hin.
    specialize (Hm dir m Hin). lia.
  - intros i Hi. rewrite after_incr_frame by done. apply Hn. lia.
  - intros i. rewrite !after_incr_frame by done. intros Hty.
    apply (size_matches_frame d); [by rewrite after_incr_frame .. |].
    by apply Hs.
  - rewrite after_incr_frame by done. apply Hn. lia.
Qed.

(** The commands that enter a new inode: the inode number is not above
    the counter and, for a file, has no data yet. *)
Lemma inv_link e d cnt parent_inode inode entry type mode :
  store_inv d cnt -> is_int inode -> inode <= cnt ->
  (type = "FILE" -> d !! INODE (fmt_d inode) DATA = None) ->
  store_inv (exec_all (link_cmds e parent_inode inode entry type mode) d) cnt.
Proof.
  intros Hinv Hint Hle Hdata.
  pose proof (inv_sadd d cnt (fmt_d parent_inode) (fmt_d inode) Hinv) as Hinv1.
  rewrite atoi_fmt_d, (to_int_id _ Hint) in Hinv1. specialize (Hinv1 Hle).
  unfold link_cmds. rewrite exec_all_cons.
  set (d1 := (exec (SADD (DIRENT (fmt_d parent_inode)) (fmt_d inode)) d).2) in *.
  assert (Hd1 : forall a, d1 !! INODE (fmt_d inode) a = d !! INODE (fmt_d inode) a).
  { intros a. subst d1. apply exec_frame. cbn [written].
    by intros ?%list_elem_of_singleton. }
  destruct Hinv1 as [Hc Hm Hn Hs].
  assert (Hother : forall k, (forall a, k <> INODE (fmt_d inode) a) ->
            exec_all [MSET (new_entry e inode entry type mode)] d1 !! k = d1 !! k).
  { intros k Hk. apply exec_all_frame. intros cm ->%list_elem_of_singleton.
    unfold new_entry. cbn [written fmap list_fmap fst]. intros Hin.
    repeat (apply elem_of_cons in Hin as [-> | Hin]);
      try (by apply elem_of_nil in Hin); by eapply Hk. }
  assert (Hattr : forall a, a = TYPE \/ a = SIZE \/ a = DATA ->
            exec_all [MSET (new_entry e inode entry type mode)] d1
              !! INODE (fmt_d inode) a
            = match a with
              | TYPE => Some (VStr type)
              | SIZE => Some (VStr "0")
              | _ => d !! INODE (fmt_d inode) DATA
              end).
  { intros a Ha. unfold new_entry. cbn [exec_all foldl exec snd mset fst].
    destruct Ha as [-> | [-> | ->]];
      repeat (rewrite lookup_insert_ne by done);
      try (rewrite lookup_insert_eq; reflexivity). apply Hd1. }
  split.
  - by rewrite (counter_frame d1) by (by apply Hother).
  - intros dir m. rewrite (members_frame d1) by (by apply Hother). apply Hm.
  - intros i Hi. destruct (decide (dec i = fmt_d inode)) as [E | Hne].
    + rewrite fmt_d_dec in E by done. apply dec_inj in E. lia.
    + rewrite Hother; [by apply Hn | congruence].
  - apply (sizes_ok_update d1 _ (fmt_d inode)); [done | |].
    + intros i a Hne. apply Hother. congruence.
    + rewrite (Hattr TYPE) by auto. intros [= ->]. exists "".
      unfold file_data. rewrite (Hattr DATA), (Hattr SIZE) by auto.
      by rewrite Hdata.
Qed.

Lemma inv_symlink e d cnt parent_inode inode entry target :
  store_inv d cnt -> is_int inode -> inode <= cnt ->
  store_inv (exec_all (symlink_cmds e parent_inode inode entry target) d) cnt.
Proof.
  intros Hinv Hint Hle.
  pose proof (inv_sadd d cnt (fmt_d parent_inode) (fmt_d inode) Hinv) as Hinv1.
  rewrite atoi_fmt_d, (to_int_id _ Hint) in Hinv1. specialize (Hinv1 Hle).
  unfold symlink_cmds. rewrite exec_all_cons.
  set (d1 := (exec (SADD (DIRENT (fmt_d parent_inode)) (fmt_d inode)) d).2) in *.
  set (cs := [SET _ _; SET _ _; SET _ _; SET _ _; SET _ _; SET _ _; SET _ _;
              SET _ _; SET _ _; SET _ _; SET _ _]).
  destruct Hinv1 as [Hc Hm Hn Hs].
  assert (Hother : forall k, (forall a, k <> INODE (fmt_d inode) a) ->
            exec_all cs d1 !! k = d1 !! k).
  { intros k Hk. apply exec_all_frame. intros cm Hcm. subst cs.
    repeat (apply elem_of_cons in Hcm as [-> | Hcm]);
      try (by apply elem_of_nil in Hcm);
      cbn [written]; intros ->%list_elem_of_singleton; by eapply Hk. }
  assert (Htype : exec_all cs d1 !! INODE (fmt_d inode) TYPE = Some (VStr "LINK")).
  { subst cs. cbn [exec_all foldl exec snd].
    repeat (rewrite lookup_insert_ne by done). apply lookup_insert_eq. }
  assert (Hdata : exec_all cs d1 !! INODE (fmt_d inode) DATA
                  = d1 !! INODE (fmt_d inode) DATA).
  { subst cs. cbn [exec_all foldl exec snd].
    by repeat (rewrite lookup_insert_ne by done). }
  split.
  - by rewrite (counter_frame d1) by (by apply Hother).
  - intros dir m. rewrite (members_frame d1) by (by apply Hother). apply Hm.
  - intros i Hi. destruct (decide (dec i = fmt_d inode)) as [E | Hne].
    + rewrite E, Hdata, <- E. by apply Hn.
    + rewrite Hother; [by apply Hn | congruence].
  - apply (sizes_ok_update d1 _ (fmt_d inode)); [done | |].
    + intros i a Hne. apply Hother. congruence.
    + by rewrite Htype.
Qed.

Lemma inv_truncate e d cnt inode :
  store_inv d cnt -> store_inv (exec_all (truncate_cmds e inode) d) cnt.
Proof.
  intros [Hc Hm Hn Hs]. unfold truncate_cmds.
  set (cs := [DEL _; MSET _]).
  assert (Hother : forall k, k <> INODE (fmt_d inode) DATA ->
            k <> INODE (fmt_d inode) SIZE -> k <> INODE (fmt_d inode) MTIME ->
            exec_all cs d !! k = d !! k).
  { intros k H1 H2 H3. apply exec_all_frame. intros cm Hcm. subst cs.
    repeat (apply elem_of_cons in Hcm as [-> | Hcm]);
      try (by apply elem_of_nil in Hcm);
      cbn [written fmap list_fmap fst]; intros Hin;
      repeat (apply elem_of_cons in Hin as [-> | Hin]);
      try (by apply elem_of_nil in Hin); done. }
  assert (Hdata : exec_all cs d !! INODE (fmt_d inode) DATA = None).
  { subst cs. cbn [exec_all foldl exec snd mset fst].
    rewrite lookup_insert_ne, lookup_insert_ne by done. apply lookup_delete_eq. }
  assert (Hsize : exec_all cs d !! INODE (fmt_d inode) SIZE = Some (VStr "0")).
  { subst cs. cbn [exec_all foldl exec snd mset fst].
    rewrite lookup_insert_ne by done. apply lookup_insert_eq. }
  split.
  - by rewrite (counter_frame d) by (by apply Hother).
  - intros dir m. rewrite (members_frame d) by (by apply Hother). apply Hm.
  - intros i Hi. destruct (decide (dec i = fmt_d inode)) as [E | Hne].
    + by rewrite E.
    + rewrite Hother; [by apply Hn | congruence | done | done].
  - apply (sizes_ok_update d _ (fmt_d inode)); [done | |].
    + intros i a Hne. apply Hother; congruence.
    + intros _. exists "". unfold file_data. by rewrite Hdata, Hsize.
Qed.

End SizeInvariantCommands.

Section Keeps.

Variable cnt : Z.

Lemma inv_write c e d r buf offset :
  store_inv d cnt -> is_int r -> r <= cnt ->
  Z.of_nat (String.length buf) <= INT_MAX ->
  (forall data, file_data d (fmt_d r) = Some data ->
     Z.of_nat (String.length data) + Z.of_nat (String.length buf) <= LLONG_MAX) ->
  store_inv (exec_all (write_cmds c e r buf offset) d) cnt.
Proof.
  intros [Hc Hm Hn Hs] Hint Hle Hbuf Hfit.
  assert (Hother : forall k, k <> INODE (fmt_d r) SIZE ->
            k <> INODE (fmt_d r) MTIME -> k <> INODE (fmt_d r) DATA ->
            exec_all (write_cmds c e r buf offset) d !! k = d !! k).
  { intros k H1 H2 H3. apply exec_all_frame. intros cm Hcm Hk.
    destruct (write_cmds_written _ _ _ _ _ _ _ Hcm Hk) as [? | [? | ?]]; done. }
  split.
  - by rewrite (counter_frame d) by (by apply Hother).
  - intros dir m. rewrite (members_frame d) by (by apply Hother). apply Hm.
  - intros i Hi. rewrite Hother; [by apply Hn | | |];
      rewrite (fmt_d_dec r Hint); intros [= E%dec_inj]; lia.
  - apply (sizes_ok_update d _ (fmt_d r)); [done | |].
    + intros i a Hne. apply Hother; congruence.
    + rewrite Hother by done. intros Hty.
      destruct (Hs _ Hty) as (data & Hdata & Hsize).
      destruct (Z.eq_dec offset 0) as [-> | Hoff].
      * destruct (write_first c e r buf d Hbuf) as [Hs' Hd'].
        exists buf. unfold file_data. by rewrite Hd', Hs'.
      * destruct (write_append c e r buf offset d _ data Hoff Hsize Hdata)
          as [Hs' Hd']; [lia | done | by apply Hfit |].
        exists (data ++ buf)%string. unfold file_data. rewrite Hd', Hs'.
        by rewrite string_length_app, Nat2Z.inj_add.
Qed.

Lemma keeps_ret {A} (a : A) : keeps cnt (ret a).
Proof. intros d l Hinv. by exists (Some a), d, l. Qed.

Lemma keeps_crash {A} : keeps cnt (@crash A).
Proof. intros d l Hinv. by exists None, d, l. Qed.

Lemma keeps_lift {A} (o : option A) : keeps cnt (lift o).
Proof. destruct o; [apply keeps_ret | apply keeps_crash]. Qed.

Lemma keeps_bind {A B} (m : M A) (k : A -> M B) :
  keeps cnt m -> (forall a, keeps cnt (k a)) -> keeps cnt (bind m k).
Proof.
  intros Hm Hk d l Hinv. destruct (Hm d l Hinv) as (r & d1 & l1 & E & Hinv1).
  rewrite bind_run, E. destruct r as [a |].
  - apply Hk, Hinv1.
  - by exists None, d1, l1.
Qed.

Lemma keeps_alive : keeps cnt redis_alive.
Proof. intros d l Hinv. rewrite alive_ready. by eexists _, d, _. Qed.

(** A command that changes nothing. *)
Lemma keeps_read c :
  (forall d, (exec c d).2 = d) -> keeps cnt (redisCommand c).
Proof.
  intros Hc d l Hinv. rewrite command_ready, Hc. by eexists _, d, _.
Qed.

Lemma keeps_append_read {A} c (k : reply -> M A) :
  (forall d, (exec c d).2 = d) -> (forall r, keeps cnt (k r)) ->
  keeps cnt (redisAppendCommand c ;; reply <- redisGetReply ;; k reply).
Proof.
  intros Hc Hk d l Hinv. unfold ready.
  rewrite bind_run, append_run, bind_run. cbn [app].
  rewrite get_reply_run, Hc. apply (Hk _ d), Hinv.
Qed.

Lemma keeps_harmless c :
  (forall k, k ∈ written c ->
     exists i a, k = INODE i a /\ a <> TYPE /\ a <> SIZE /\ a <> DATA) ->
  keeps cnt (redisCommand c).
Proof.
  intros Hc d l Hinv. rewrite command_ready. eexists _, _, _.
  split; [reflexivity |].
  apply (inv_harmless [c] d cnt Hinv).
  intros cm k ->%list_elem_of_singleton. apply Hc.
Qed.

Lemma keeps_srem dir m : keeps cnt (redisCommand (SREM (DIRENT dir) m)).
Proof.
  intros d l Hinv. rewrite command_ready. eexists _, _, _.
  split; [reflexivity | by apply inv_srem].
Qed.

Lemma keeps_sadd dir m :
  atoi m <= cnt -> keeps cnt (redisCommand (SADD (DIRENT dir) m)).
Proof.
  intros Hle d l Hinv. rewrite command_ready. eexists _, _, _.
  split; [reflexivity | by apply inv_sadd].
Qed.

Lemma keeps_find {A} p (k : Z -> M A) :
  (forall r, is_int r -> r <= cnt -> keeps cnt (k r)) ->
  keeps cnt (bind (find_inode p) k).
Proof.
  intros Hk d l Hinv. destruct (find_inode_ready p d l) as (l1 & E).
  rewrite bind_run, E. destruct (resolve d p) as [r |] eqn:Hres.
  - destruct (resolve_bound d cnt p r Hinv Hres). by apply Hk.
  - by eexists None, d, _.
Qed.

Lemma keeps_find_ptr {A} o (k : Z -> M A) :
  (forall r, is_int r -> r <= cnt -> keeps cnt (k r)) ->
  keeps cnt (bind (find_inode_ptr o) k).
Proof.
  destruct o as [p |]; [apply keeps_find |].
  intros _ d l Hinv. by exists None, d, l.
Qed.

Lemma keeps_is_directory p : keeps cnt (is_directory p).
Proof.
  intros d l Hinv. destruct (is_directory_ready p d l) as (l1 & E).
  rewrite E. by eexists _, d, _.
Qed.

Lemma keeps_count p : keeps cnt (count_directory_entries p).
Proof.
  intros d l Hinv. destruct (count_directory_entries_ready p d l) as (l1 & E).
  rewrite E. by eexists _, d, _.
Qed.

Lemma keeps_remove inode : keeps cnt (remove_inode inode).
Proof.
  intros d l Hinv. destruct (remove_inode_ready inode d l) as (l1 & E).
  rewrite E. eexists _, _, _. split; [reflexivity | by apply inv_remove].
Qed.

Lemma keeps_truncate {A} e inode (k : M A) :
  keeps cnt k ->
  keeps cnt
    (redisCommand (DEL (INODE (fmt_d inode) DATA)) ;;
     redisCommand (MSET [(INODE (fmt_d inode) SIZE, "0");
                         (INODE (fmt_d inode) MTIME, fmt_d (time_now e))]) ;; k).
Proof.
  intros Hk d l Hinv. rewrite bind_run, command_ready, bind_run, command_ready.
  apply Hk. by apply (inv_truncate e d cnt inode).
Qed.

End Keeps.

(** ** Every operation keeps the invariant *)

(** One syntactic step of a [keeps] proof. *)
Ltac keeps_step_tac :=
  match goal with
  | |- keeps _ (ret _) => apply keeps_ret
  | |- keeps _ crash => apply keeps_crash
  | |- keeps _ (lift _) => apply keeps_lift
  | |- keeps _ redis_alive => apply keeps_alive
  | |- keeps _ (is_directory _) => apply keeps_is_directory
  | |- keeps _ (count_directory_entries _) => apply keeps_count
  | |- keeps _ (remove_inode _) => apply keeps_remove
  | |- keeps _ (redisCommand (SREM _ _)) => apply keeps_srem
  | |- keeps _ (redisCommand _) => apply keeps_read; intros; reflexivity
  | |- keeps _ (bind (find_inode _) _) => apply keeps_find; intros ? ? ?
  | |- keeps _ (bind (find_inode_ptr _) _) => apply keeps_find_ptr; intros ? ? ?
  | |- keeps _ (bind (redisCommand (DEL _)) _) => apply keeps_truncate
  | |- keeps _ (bind _ _) => apply keeps_bind; [| intros ?]
  | |- keeps _ (if ?b then _ else _) => destruct b
  | |- keeps _ (match ?x with _ => _ end) => destruct x
  end.

Ltac keeps_auto := repeat keeps_step_tac.

Section Steps.

Variable cnt : Z.

Lemma alive_step s :
  in_step s -> exists l, redis_alive s = (Some tt, ready (db s) l).
Proof.
  intros [H | H].
  - destruct (alive_sync s H) as (l & E). eauto.
  - destruct s as [d [] i l]; cbn [inbuf] in H; subst i.
    + unfold redis_alive. rewrite bind_run. cbn [have_handle connected].
      unfold redisCommand. rewrite !bind_run, append_run. cbn [exec fst snd app].
      rewrite get_reply_run. simpl. eauto.
    + simpl. eauto.
Qed.

Lemma preserved_ready {A} (r : option A) d l :
  store_inv d cnt -> preserved cnt (r, ready d l).
Proof.
  intros H. split; [exists cnt; split; [lia | done] | intros _; by left].
Qed.

Lemma preserved_same {A} (r : option A) s :
  in_step s -> store_inv (db s) cnt -> preserved cnt (r, s).
Proof. intros Hs H. split; [exists cnt; split; [lia | done] | done]. Qed.

Lemma preserved_call {A} (m : M A) s :
  preserved cnt (m s) -> preserved cnt (call m s).
Proof.
  unfold call. rewrite bind_run.
  destruct (m s) as [[a |] s']; intros [H1 H2]; (split; [exact H1 |]).
  - intros _. by apply H2.
  - by intros [].
Qed.

Lemma keeps_step {A} (m : M A) s :
  keeps cnt m -> in_step s -> store_inv (db s) cnt ->
  preserved cnt ((redis_alive ;; m) s).
Proof.
  intros Hm Hs Hinv. destruct (alive_step s Hs) as (l & E). rewrite bind_run, E.
  destruct (Hm _ l Hinv) as (r & d' & l' & -> & Hinv'). by apply preserved_ready.
Qed.

Variable s : conn.
Hypothesis Hstep : in_step s.
Hypothesis Hinv : store_inv (db s) cnt.

Lemma step_getattr e past_end path :
  preserved cnt (fs_getattr e past_end path s).
Proof.
  unfold fs_getattr. apply keeps_step; [| done | done]. cbv zeta.
  destruct (String.eqb path "/"); [apply keeps_ret |].
  apply keeps_find; intros r _ _. destruct (r =? -1); [apply keeps_ret |].
  apply keeps_append_read; [done |]. intros rep. keeps_auto.
Qed.

Lemma step_readdir path : preserved cnt (fs_readdir path s).
Proof. unfold fs_readdir. apply keeps_step; [| done | done]. keeps_auto. Qed.

Lemma step_read path size offset : preserved cnt (fs_read path size offset s).
Proof.
  unfold fs_read. apply keeps_step; [| done | done]. cbv zeta. keeps_auto.
Qed.

Lemma step_readlink path size : preserved cnt (fs_readlink path size s).
Proof. unfold fs_readlink. apply keeps_step; [| done | done]. keeps_auto. Qed.

Lemma step_rmdir c path : preserved cnt (fs_rmdir c path s).
Proof.
  unfold fs_rmdir. destruct (_g_read_only c); [by apply preserved_same |].
  apply keeps_step; [| done | done]. keeps_auto.
Qed.

Lemma step_unlink c path : preserved cnt (fs_unlink c path s).
Proof.
  unfold fs_unlink. destruct (_g_read_only c); [by apply preserved_same |].
  apply keeps_step; [| done | done]. keeps_auto.
Qed.

Lemma step_truncate c e path size : preserved cnt (fs_truncate c e path size s).
Proof.
  unfold fs_truncate. destruct (_g_read_only c); [by apply preserved_same |].
  apply keeps_step; [| done | done]. cbv zeta. keeps_auto.
Qed.

End Steps.

Section StepsWriting.

Variable cnt : Z.
Variable s : conn.
Hypothesis Hstep : in_step s.
Hypothesis Hinv : store_inv (db s) cnt.

Lemma keeps_attrs kvs :
  (forall k, k ∈ kvs.*1 ->
     exists i a, k = INODE i a /\ a <> TYPE /\ a <> SIZE /\ a <> DATA) ->
  keeps cnt (redisCommand (MSET kvs)).
Proof. intros H. by apply (keeps_harmless cnt (MSET kvs)). Qed.

Lemma step_chown c e path uid gid : preserved cnt (fs_chown c e path uid gid s).
Proof.
  unfold fs_chown. destruct (_g_read_only c); [by apply preserved_same |].
  apply keeps_step; [| done | done]. cbv zeta.
  apply keeps_find; intros r _ _. destruct (r =? -1); [apply keeps_ret |].
  apply keeps_bind; [| intros; apply keeps_ret]. apply keeps_attrs.
  intros k Hk. rewrite !fmap_cons in Hk. cbn [fst fmap list_fmap] in Hk.
  repeat (apply elem_of_cons in Hk as [-> | Hk]; [by eexists _, _ |]).
  by apply elem_of_nil in Hk.
Qed.

Lemma step_chmod c e path mode : preserved cnt (fs_chmod c e path mode s).
Proof.
  unfold fs_chmod. destruct (_g_read_only c); [by apply preserved_same |].
  apply keeps_step; [| done | done]. cbv zeta.
  apply keeps_find; intros r _ _. destruct (r =? -1); [apply keeps_ret |].
  apply keeps_bind; [| intros; apply keeps_ret]. apply keeps_attrs.
  intros k Hk. rewrite !fmap_cons in Hk. cbn [fst fmap list_fmap] in Hk.
  repeat (apply elem_of_cons in Hk as [-> | Hk]; [by eexists _, _ |]).
  by apply elem_of_nil in Hk.
Qed.

Lemma step_utimens c path atime mtime :
  preserved cnt (fs_utimens c path atime mtime s).
Proof.
  unfold fs_utimens. destruct (_g_read_only c); [by apply preserved_same |].
  apply keeps_step; [| done | done]. cbv zeta.
  apply keeps_find; intros r _ _. destruct (r =? -1); [apply keeps_ret |].
  apply keeps_bind; [| intros; apply keeps_ret]. apply keeps_attrs.
  intros k Hk. rewrite !fmap_cons in Hk. cbn [fst fmap list_fmap] in Hk.
  repeat (apply elem_of_cons in Hk as [-> | Hk]; [by eexists _, _ |]).
  by apply elem_of_nil in Hk.
Qed.

Lemma keeps_set i a v :
  a <> TYPE -> a <> SIZE -> a <> DATA ->
  keeps cnt (redisCommand (SET (INODE i a) v)).
Proof.
  intros. apply keeps_harmless. intros k ->%list_elem_of_singleton.
  by eexists _, _.
Qed.

Lemma step_rename c old path : preserved cnt (fs_rename c old path s).
Proof.
  unfold fs_rename. destruct (_g_read_only c); [by apply preserved_same |].
  apply keeps_step; [| done | done].
  apply keeps_find; intros r Hint Hle. destruct (r =? -1); [apply keeps_ret |].
  apply keeps_bind; [by apply keeps_set | intros _].
  apply keeps_find_ptr; intros p1 _ _.
  apply keeps_bind; [apply keeps_srem | intros _].
  apply keeps_find_ptr; intros p2 _ _.
  apply keeps_bind; [| intros; apply keeps_ret].
  apply keeps_sadd. by rewrite atoi_fmt_d, to_int_id.
Qed.

End StepsWriting.

Section StepsLinking.

Variable cnt : Z.
Variable s : conn.
Hypothesis Hstep : in_step s.
Hypothesis Hinv : store_inv (db s) cnt.

Lemma keeps_find_rec fuel p : keeps cnt (find_inode_rec fuel p).
Proof.
  intros d l H. destruct (find_inode_rec_ready fuel p d l) as (l' & E).
  rewrite E. by eexists _, d, _.
Qed.

Lemma keeps_find_in_directory parent_inode entry :
  keeps cnt (find_in_directory parent_inode entry).
Proof.
  intros d l H.
  destruct (find_in_directory_ready parent_inode entry d l) as (l' & E).
  rewrite E. by eexists _, d, _.
Qed.

Lemma keeps_touch e inode :
  keeps cnt
    (if inode =? -1 then ret 0
     else redisCommand (SET (INODE (fmt_d inode) ATIME) (fmt_d (time_now e))) ;;
          ret 0).
Proof.
  destruct (inode =? -1); [apply keeps_ret |].
  apply keeps_bind; [by apply keeps_set | intros; apply keeps_ret].
Qed.

Lemma step_touch e c path : preserved cnt (touch_atime e c path s).
Proof.
  unfold touch_atime. destruct (_g_fast c); [by apply preserved_same |].
  destruct (String.eqb_spec path "/") as [-> | Hne].
  - rewrite bind_run. change (find_inode "/" s) with (Some (-99), s).
    cbv iota beta. change (-99 =? -1) with false. cbv iota.
    change (fmt_d (-99)) with "-99".
    destruct s as [d [] i l].
    + destruct Hstep as [H | H]; cbn [inbuf] in H; subst i.
      * destruct (keeps_touch e (-99) d l Hinv) as (r & d' & l' & E & Hinv').
        change (-99 =? -1) with false in E. cbv iota in E.
        change (fmt_d (-99)) with "-99" in E.
        change (Conn d true [] l) with (ready d l). rewrite E.
        by apply preserved_ready.
      * unfold redisCommand. rewrite !bind_run, append_run. cbn [app].
        rewrite get_reply_run. cbn [exec fst snd].
        split; [| intros _; by right]. exists cnt. split; [lia |].
        apply (inv_harmless [SET (INODE "-99" ATIME) (fmt_d (time_now e))]
                 d cnt Hinv).
        intros cm k ->%list_elem_of_singleton ->%list_elem_of_singleton.
        by eexists _, _.
    + unfold redisCommand, redisAppendCommand. rewrite !bind_run.
      cbn [connected]. by apply preserved_same.
  - unfold find_inode. destruct (String.length path) as [| f].
    + cbn [find_inode_rec]. apply String.eqb_neq in Hne. rewrite Hne.
      rewrite bind_run. by apply preserved_same.
    + cbn [find_inode_rec]. apply String.eqb_neq in Hne. rewrite Hne.
      destruct (alive_step s Hstep) as (l0 & E0).
      rewrite bind_run, bind_run, E0.
      assert (Hk : keeps cnt
                (match get_parent path with
                 | Some parent =>
                     parent_inode <- find_inode_rec f parent ;;
                     find_in_directory parent_inode (get_basename path)
                 | None => crash
                 end)).
      { destruct (get_parent path); [| apply keeps_crash].
        apply keeps_bind; [apply keeps_find_rec |].
        intros. apply keeps_find_in_directory. }
      destruct (Hk _ l0 Hinv) as (r & d' & l' & -> & Hinv').
      destruct r as [inode |]; [| by apply preserved_ready].
      destruct (keeps_touch e inode d' l' Hinv') as (r & d2 & l2 & -> & Hinv2).
      by apply preserved_ready.
Qed.

End StepsLinking.

Section StepsStoring.

Variable cnt : Z.
Variable s : conn.
Hypothesis Hstep : in_step s.
Hypothesis Hinv : store_inv (db s) cnt.

Lemma preserved_later {A} (r : option A) d l cnt' :
  cnt <= cnt' -> store_inv d cnt' -> preserved cnt (r, ready d l).
Proof. intros Hle H. split; [by exists cnt' | intros _; by left]. Qed.

Lemma call_store {A} (m : M A) : db (call m s).2 = db (m s).2.
Proof. unfold call. rewrite bind_run. by destruct (m s) as [[a |] s']. Qed.

(** *** write *)

Lemma fs_write_step c e path buf offset :
  _g_read_only c = false ->
  exists l,
    fs_write c e path buf offset s
    = match resolve (db s) path with
      | Some inode =>
          (Some (to_int (Z.of_nat (String.length buf))),
           ready (exec_all (write_cmds c e inode buf offset) (db s)) l)
      | None => (None, ready (db s) l)
      end.
Proof.
  intros Hro. unfold fs_write. rewrite Hro.
  destruct (alive_step s Hstep) as (l0 & E0). rewrite bind_run, E0.
  destruct (find_inode_ready path (db s) l0) as (l1 & E1).
  rewrite bind_run, E1.
  destruct (resolve (db s) path) as [inode |]; [| by eexists].
  unfold write_cmds. destruct (offset =? 0).
  - rewrite !bind_run. unfold ready. rewrite append_run. cbn [app drain].
    rewrite bind_run, get_reply_run. cbn [ret exec_all foldl]. by eexists.
  - rewrite (bind_run (_ ;; _)).
    rewrite bind_run. unfold ready. rewrite append_run.
    rewrite bind_run, append_run. cbn [app].
    destruct (_g_fast c).
    + rewrite bind_run. cbn [ret drain]. rewrite bind_run, get_reply_run.
      rewrite bind_run, get_reply_run. cbn [ret exec_all foldl app].
      by eexists.
    + rewrite (bind_run (_ ;; _)). rewrite bind_run, append_run. cbn [app drain].
      rewrite bind_run, get_reply_run. cbn [ret].
      rewrite bind_run, get_reply_run. rewrite bind_run, get_reply_run.
      cbn [ret exec_all foldl app]. by eexists.
Qed.

Lemma step_write c e path buf offset :
  fits (db s) cnt (Write path buf offset) ->
  preserved cnt (fs_write c e path buf offset s).
Proof.
  intros [Hbuf Hfit]. destruct (_g_read_only c) eqn:Hro.
  - unfold fs_write. rewrite Hro. by apply preserved_same.
  - destruct (fs_write_step c e path buf offset Hro) as (l & ->).
    destruct (resolve (db s) path) as [inode |] eqn:Hres;
      [| by apply preserved_later with cnt].
    destruct (resolve_bound _ _ _ _ Hinv Hres) as [Hint Hle].
    apply preserved_later with cnt; [lia |].
    apply inv_write; try done. intros data. by apply Hfit.
Qed.

Lemma effect_write c e path buf offset :
  _g_read_only c = false ->
  fits (db s) cnt (Write path buf offset) ->
  effect cnt (Write path buf offset) (db s)
    (db (fs_write c e path buf offset s).2).
Proof.
  intros Hro [Hbuf Hfit] inode data Hres Hty Hdata.
  destruct (fs_write_step c e path buf offset Hro) as (l & ->).
  rewrite Hres. cbn [snd db ready]. cbv zeta.
  destruct (Z.eqb_spec offset 0) as [-> | Hoff].
  - by apply write_first.
  - destruct (inv_sizes _ _ Hinv _ Hty) as (data' & Hd' & Hsz).
    rewrite Hdata in Hd'. injection Hd' as <-.
    exists (Z.of_nat (String.length data)). split; [done |].
    apply write_append; try done; [lia |]. by apply (Hfit inode).
Qed.

(** *** truncate *)

Lemma fs_truncate_step c e path size inode :
  _g_read_only c = false ->
  resolve (db s) path = Some inode -> inode <> -1 -> is_dir (db s) inode = 0 ->
  exists l,
    fs_truncate c e path size s
    = (Some 0, ready (exec_all (truncate_cmds e inode) (db s)) l).
Proof.
  intros Hro Hres Hne Hdir. unfold fs_truncate. rewrite Hro.
  destruct (alive_step s Hstep) as (l0 & E0). rewrite bind_run, E0.
  destruct (is_directory_ready path (db s) l0) as (l1 & E1).
  rewrite bind_run, E1, Hres.
  apply Z.eqb_neq in Hne. rewrite Hne, Hdir. change (negb (0 =? 0)) with false.
  cbv iota.
  destruct (find_inode_ready path (db s) (l0 ++ l1)) as (l2 & E2).
  rewrite bind_run, E2, Hres, Hne. cbv zeta.
  rewrite bind_run, command_ready, bind_run, command_ready.
  cbn [ret truncate_cmds exec_all foldl]. by eexists.
Qed.

Lemma effect_truncate c e path size :
  _g_read_only c = false ->
  effect cnt (Truncate path size) (db s) (db (fs_truncate c e path size s).2).
Proof.
  intros Hro inode Hres Hne Hdir.
  destruct (fs_truncate_step c e path size inode Hro Hres Hne Hdir) as (l & ->).
  cbn [snd db ready truncate_cmds exec_all foldl exec mset fst].
  split.
  - rewrite !lookup_insert_ne by done. apply lookup_delete_eq.
  - rewrite lookup_insert_ne by done. apply lookup_insert_eq.
Qed.

End StepsStoring.

Section StepsAllocating.

Variable cnt : Z.
Variable s : conn.
Hypothesis Hstep : in_step s.
Hypothesis Hinv : store_inv (db s) cnt.
Hypothesis Hroom : cnt + 1 <= INT_MAX.

(** The parent that [find_inode_ptr] finds. *)
Let parent_of (path : string) : option Z :=
  match get_parent path with
  | Some parent => resolve (db s) parent
  | None => None
  end.

Lemma fs_create_step c e path mode :
  _g_read_only c = false ->
  exists l,
    fs_create c e path mode s
    = match parent_of path with
      | Some parent_inode =>
          (Some 0,
           ready (exec_all (link_cmds e parent_inode (next_inode (db s))
                              (get_basename path) "FILE" mode)
                    (after_incr (db s))) l)
      | None => (None, ready (db s) l)
      end.
Proof.
  intros Hro. unfold fs_create, parent_of. rewrite Hro.
  destruct (alive_step s Hstep) as (l0 & E0). rewrite bind_run, E0.
  destruct (find_inode_ptr_ready (get_parent path) (db s) l0) as (l1 & E1).
  rewrite bind_run, E1.
  destruct (match get_parent path with
            | Some p => resolve (db s) p
            | None => None
            end) as [parent_inode |]; [| by eexists].
  rewrite bind_run, get_next_inode_ready.
  run_batch. cbn [exec_all link_cmds symlink_cmds foldl]. eexists. reflexivity.
Qed.

Lemma fs_mkdir_step c e path mode :
  _g_read_only c = false ->
  exists l,
    fs_mkdir c e path mode s
    = match parent_of path with
      | Some parent_inode =>
          (Some 0,
           ready (exec_all (link_cmds e parent_inode (next_inode (db s))
                              (get_basename path) "DIR" mode)
                    (after_incr (db s))) l)
      | None => (None, ready (after_incr (db s)) l)
      end.
Proof.
  intros Hro. unfold fs_mkdir, parent_of. rewrite Hro.
  destruct (alive_step s Hstep) as (l0 & E0). rewrite bind_run, E0. cbv zeta.
  rewrite bind_run, get_next_inode_ready.
  destruct (find_inode_ptr_ready (get_parent path) (after_incr (db s))
              (l0 ++ [PING; INCR GLOBAL_INODE])) as (l1 & E1).
  rewrite bind_run, E1.
  destruct (get_parent path) as [parent |]; [| by eexists].
  rewrite after_incr_resolve.
  destruct (resolve (db s) parent) as [parent_inode |]; [| by eexists].
  run_batch. cbn [exec_all link_cmds symlink_cmds foldl]. eexists. reflexivity.
Qed.

Lemma fs_symlink_step c e target path :
  _g_read_only c = false ->
  exists l,
    fs_symlink c e target path s
    = match parent_of path with
      | Some parent_inode =>
          (Some 0,
           Conn (exec_all (symlink_cmds e parent_inode (next_inode (db s))
                             (get_basename path) target)
                   (after_incr (db s))) true [RStatus "OK"] l)
      | None => (None, ready (db s) l)
      end.
Proof.
  intros Hro. unfold fs_symlink, parent_of. rewrite Hro.
  destruct (alive_step s Hstep) as (l0 & E0). rewrite bind_run, E0.
  destruct (find_inode_ptr_ready (get_parent path) (db s) l0) as (l1 & E1).
  rewrite bind_run, E1.
  destruct (match get_parent path with
            | Some p => resolve (db s) p
            | None => None
            end) as [parent_inode |]; [| by eexists].
  rewrite bind_run, get_next_inode_ready.
  run_batch. cbn [exec_all link_cmds symlink_cmds foldl]. eexists. reflexivity.
Qed.

Lemma next_is_int : is_int (cnt + 1).
Proof.
  destruct (inv_counter _ _ Hinv) as [_ H0].
  unfold is_int, INT_MIN, INT_MAX in *. lia.
Qed.

Lemma inv_linked e parent_inode entry type mode :
  store_inv
    (exec_all (link_cmds e parent_inode (next_inode (db s)) entry type mode)
       (after_incr (db s))) (cnt + 1).
Proof.
  destruct (inv_incr _ _ Hinv Hroom) as (-> & Hinv' & Hdata).
  apply inv_link; [done | apply next_is_int | lia |].
  intros _. by rewrite (fmt_d_dec _ next_is_int).
Qed.

Lemma step_create c e path mode : preserved cnt (fs_create c e path mode s).
Proof.
  destruct (_g_read_only c) eqn:Hro.
  - unfold fs_create. rewrite Hro. by apply preserved_same.
  - destruct (fs_create_step c e path mode Hro) as (l & ->).
    destruct (parent_of path) as [parent_inode |].
    + apply preserved_later with (cnt + 1); [lia | apply inv_linked].
    + by apply preserved_later with cnt.
Qed.

Lemma step_mkdir c e path mode : preserved cnt (fs_mkdir c e path mode s).
Proof.
  destruct (_g_read_only c) eqn:Hro.
  - unfold fs_mkdir. rewrite Hro. by apply preserved_same.
  - destruct (fs_mkdir_step c e path mode Hro) as (l & ->).
    destruct (parent_of path) as [parent_inode |].
    + apply preserved_later with (cnt + 1); [lia | apply inv_linked].
    + apply preserved_later with (cnt + 1); [lia |].
      by destruct (inv_incr _ _ Hinv Hroom) as (_ & ? & _).
Qed.

Lemma step_symlink c e target path :
  preserved cnt (fs_symlink c e target path s).
Proof.
  destruct (_g_read_only c) eqn:Hro.
  - unfold fs_symlink. rewrite Hro. by apply preserved_same.
  - destruct (fs_symlink_step c e target path Hro) as (l & ->).
    destruct (parent_of path) as [parent_inode |];
      [| by apply preserved_later with cnt].
    split; [| intros _; by right]. exists (cnt + 1). split; [lia |].
    destruct (inv_incr _ _ Hinv Hroom) as (-> & Hinv' & _).
    apply inv_symlink; [done | apply next_is_int | lia].
Qed.

Lemma effect_create c e path mode :
  _g_read_only c = false ->
  effect cnt (Create path mode) (db s) (db (fs_create c e path mode s).2).
Proof.
  intros Hro parent parent_inode Hpar Hres.
  destruct (fs_create_step c e path mode Hro) as (l & ->).
  unfold parent_of. rewrite Hpar, Hres. cbn [snd db ready]. cbv zeta.
  destruct (inv_incr _ _ Hinv Hroom) as (-> & _ & Hdata).
  rewrite !link_attr. repeat split; [].
  by rewrite (fmt_d_dec _ next_is_int).
Qed.

End StepsAllocating.

(** ** The size of a file is the length of its data *)

Lemma store_inv_empty : store_inv ∅ 0.
Proof.
  split.
  - unfold counter. rewrite lookup_empty. split; [reflexivity | lia].
  - intros dir m. unfold members. rewrite lookup_empty. intros H.
    by apply not_elem_of_empty in H.
  - intros i _. apply lookup_empty.
  - intros i. by rewrite lookup_empty.
Defined.

Lemma run_preserved c e o s cnt :
  in_step s -> store_inv (db s) cnt -> fits (db s) cnt o ->
  preserved cnt (run c e o s).
Proof.
  intros Hs Hinv Hfit. destruct o; cbn [run]; apply preserved_call.
  - by apply step_getattr.
  - by apply step_readdir.
  - by apply step_mkdir.
  - by apply step_rmdir.
  - by apply step_write.
  - by apply step_read.
  - by apply step_symlink.
  - by apply step_readlink.
  - by apply step_touch.
  - by apply step_touch.
  - by apply step_create.
  - by apply step_chown.
  - by apply step_chmod.
  - by apply step_utimens.
  - by apply step_unlink.
  - by apply step_rename.
  - by apply step_truncate.
Qed.

Lemma run_effect c e o s cnt :
  in_step s -> store_inv (db s) cnt -> fits (db s) cnt o ->
  _g_read_only c = false -> effect cnt o (db s) (db (run c e o s).2).
Proof.
  intros Hs Hinv Hfit Hro.
  destruct o; try exact I; cbn [run]; rewrite call_store.
  - by apply effect_write.
  - by apply effect_create.
  - by apply effect_truncate.
Qed.

(** Every state reached from the empty store satisfies the invariant. *)
Lemma reachable_inv c e s cnt :
  reachable c e s cnt -> in_step s /\ store_inv (db s) cnt.
Proof.
  induction 1 as [| s cnt o s' cnt' _ [Hs Hinv] Hfit Hrun Hcnt].
  - split; [by left | apply store_inv_empty].
  - destruct (run_preserved c e o s cnt Hs Hinv Hfit)
      as [(cnt2 & _ & Hinv2) Hs2].
    rewrite Hrun in Hinv2, Hs2. cbn [fst snd] in Hinv2, Hs2.
    split; [by apply Hs2 |].
    destruct (inv_counter _ _ Hinv2) as [Hc2 _].
    rewrite Hcnt in Hc2. by injection Hc2 as ->.
Qed.

(** C6: the invariant that the SIZE of every FILE inode is the decimal
    byte length of its DATA, an absent DATA counting as length 0, is kept
    by every operation.  From a store [db s] that satisfies it (together
    with the bounds on the counter in [store_inv]), on a connection with
    at most the one unread reply that [fs_symlink] leaves, and with
    numbers that [fits] in the C types, the store after any operation
    satisfies it again, whether the call returned or not, and a call that
    returned leaves the connection fit for the next one.  On a mount that
    is not read-only, [fs_create] leaves the new inode with TYPE FILE,
    SIZE 0 and no DATA; [fs_write] at offset 0 on a file stores the
    buffer as DATA and its length as SIZE; [fs_write] at another offset
    appends the buffer to DATA and adds its length to SIZE; and
    [fs_truncate] of a file deletes DATA and sets SIZE to 0. *)
Theorem size_invariant_preserved c e o s cnt :
  in_step s -> store_inv (db s) cnt -> fits (db s) cnt o ->
  preserved cnt (run c e o s) /\
  (_g_read_only c = false -> effect cnt o (db s) (db (run c e o s).2)).
Proof.
  intros Hs Hinv Hfit. split.
  - by apply run_preserved.
  - by apply run_effect.
Qed.

Lemma size_invariant_preserved_witness :
  let c := Config false false in
  let e := Env 1000 1000 100 0 0 in
  let out := run c e (Create "/f" 33188) (Conn ∅ false [] []) in
  preserved 0 out /\
  db out.2 !! INODE "1" TYPE = Some (VStr "FILE") /\
  db out.2 !! INODE "1" SIZE = Some (VStr "0") /\
  db out.2 !! INODE "1" DATA = None.
Proof.
  intros c e out.
  destruct (size_invariant_preserved c e (Create "/f" 33188)
              (Conn ∅ false [] []) 0) as [H1 H2].
  - by left.
  - apply store_inv_empty.
  - unfold fits, INT_MAX. lia.
  - split; [exact H1 |]. apply (H2 eq_refl "/" (-99)); reflexivity.
Defined.

(** * Part III: further properties *)

(** ** Splitting and joining paths *)

Section PathSplit.

Lemma strrchr_slash_split p : forall i,
  strrchr_slash p = Some i ->
  p = (str_take i p ++ String "/" (str_drop (S i) p))%string /\
  strrchr_slash (str_drop (S i) p) = None.
Proof.
  induction p as [| ch r IH]; intros i; cbn [strrchr_slash]; [done |].
  destruct (strrchr_slash r) as [j |] eqn:E.
  - intros [= <-]. destruct (IH j eq_refl) as [H1 H2].
    cbn [str_take str_drop]. split; [| exact H2].
    change (String ch r
            = String ch (str_take j r ++ String "/" (str_drop (S j) r))%string).
    f_equal. exact H1.
  - destruct (Ascii.eqb_spec ch "/"%char) as [-> | _]; [| done].
    intros [= <-]. cbn [str_take str_drop]. split; [| by destruct r].
    simpl. by destruct r.
Qed.

End PathSplit.

(** X1: joining a directory [p] and a name [q] that has no slash, then
    splitting: [get_basename] gives back [q] and [get_parent] gives back
    [p], or "/" when [p] is empty. *)
Theorem path_join_split p q :
  strrchr_slash q = None ->
  get_parent (p ++ String "/" q) = Some (if String.eqb p "" then "/" else p) /\
  get_basename (p ++ String "/" q) = q.
Proof.
  intros Hq. split; [| by apply get_basename_child].
  unfold get_parent. by rewrite (strrchr_slash_app p q Hq), str_take_app.
Qed.

Lemma path_join_split_witness :
  get_parent ("/etc" ++ String "/" "passwd") = Some "/etc" /\
  get_basename ("/etc" ++ String "/" "passwd") = "passwd".
Proof. apply (path_join_split "/etc" "passwd"). reflexivity. Defined.

(** X2: splitting any path, then joining: the base name never contains
    a slash; when there is a parent, the path is the parent, a slash and
    the base name, or a slash and the base name when the parent is the
    root; when there is none ([NULL]), the base name is the whole path. *)
Theorem path_split_join path :
  strrchr_slash (get_basename path) = None /\
  match get_parent path with
  | Some parent =>
      path = (parent ++ String "/" (get_basename path))%string \/
      (parent = "/" /\ path = String "/" (get_basename path))
  | None => get_basename path = path
  end.
Proof.
  unfold get_parent, get_basename.
  destruct (strrchr_slash path) as [i |] eqn:E; [| done].
  destruct (strrchr_slash_split path i E) as [H1 H2]. split; [exact H2 |].
  destruct (String.eqb_spec (str_take i path) "") as [E0 | _].
  - right. split; [done |]. rewrite E0 in H1. exact H1.
  - left. exact H1.
Qed.

(** X3: the parent of a path other than "/" is strictly shorter than
    the path, so the recursion of [find_inode] on [get_parent] ends after
    at most as many calls as the path is long. *)
Theorem parent_is_shorter path parent :
  get_parent path = Some parent -> path <> "/" ->
  (String.length parent < String.length path)%nat.
Proof. apply get_parent_shorter. Qed.

Lemma parent_is_shorter_witness :
  (String.length "/etc" < String.length "/etc/passwd")%nat.
Proof. apply (parent_is_shorter "/etc/passwd" "/etc"); [reflexivity | discriminate]. Defined.

(** ** The inode counter *)

Lemma string2ll_range s z :
  string2ll s = Some z -> LLONG_MIN <= z <= LLONG_MAX.
Proof.
  unfold string2ll.
  destruct (String.eqb (dec (signed_value s)) s); [| done].
  destruct (Z.leb_spec LLONG_MIN (signed_value s)); [| done].
  destruct (Z.leb_spec (signed_value s) LLONG_MAX); [| done].
  cbn. intros [= <-]. lia.
Qed.

Lemma counter_range d cnt : counter d = Some cnt -> LLONG_MIN <= cnt <= LLONG_MAX.
Proof.
  unfold counter. destruct (d !! GLOBAL_INODE) as [[str | set] |]; [| done |].
  - apply string2ll_range.
  - intros [= <-]. unfold LLONG_MIN, LLONG_MAX. lia.
Qed.

Lemma incr_counter_any d cnt :
  counter d = Some cnt -> cnt + 1 <= LLONG_MAX ->
  next_inode d = to_int (cnt + 1) /\
  after_incr d = <[GLOBAL_INODE := VStr (dec (cnt + 1))]> d.
Proof.
  intros Hc Hmax. pose proof (counter_range d cnt Hc) as Hr.
  unfold next_inode, after_incr. cbn [exec]. unfold incrby.
  unfold counter in Hc.
  assert (Hin : in_llong (cnt + 1) = true).
  { unfold in_llong. apply andb_true_intro.
    split; apply Z.leb_le; unfold LLONG_MIN, LLONG_MAX in *; lia. }
  destruct (d !! GLOBAL_INODE) as [[str | set] |]; [| done |].
  - rewrite Hc, Hin. done.
  - injection Hc as <-. by rewrite Hin.
Qed.

(** X4: [get_next_inode] returns the counter plus one, converted to
    [int], and stores the sum as the new counter, touching no other key:
    successive calls give successive numbers as long as they fit an
    [int], and the call after 2^31 - 1 returns -2^31. *)
Theorem next_inode_follows_counter s cnt :
  in_step s -> counter (db s) = Some cnt -> cnt + 1 <= LLONG_MAX ->
  exists s',
    get_next_inode s = (Some (to_int (cnt + 1)), s') /\
    counter (db s') = Some (cnt + 1) /\
    (forall k, k <> GLOBAL_INODE -> db s' !! k = db s !! k) /\
    (INT_MIN <= cnt + 1 <= INT_MAX -> to_int (cnt + 1) = cnt + 1) /\
    (cnt = INT_MAX -> to_int (cnt + 1) = INT_MIN).
Proof.
  intros Hs Hc Hmax. pose proof (counter_range _ _ Hc) as Hr.
  destruct (incr_counter_any _ _ Hc Hmax) as [Hn Ha].
  unfold get_next_inode.
  destruct (alive_step s Hs) as (l & E). rewrite bind_run, E.
  rewrite bind_run, command_ready. fold (next_inode (db s)).
  fold (after_incr (db s)). rewrite Hn, Ha.
  eexists. split; [reflexivity |]. cbn [db ready]. split; [| split; [| split]].
  - apply counter_insert. lia.
  - intros k Hk. by rewrite lookup_insert_ne.
  - intros H. by apply to_int_id.
  - intros ->. reflexivity.
Qed.

Lemma next_inode_follows_counter_witness :
  exists s',
    get_next_inode (Conn (<[GLOBAL_INODE := VStr "41"]> ∅) true [] [])
    = (Some 42, s') /\
    counter (db s') = Some 42.
Proof.
  destruct (next_inode_follows_counter
              (Conn (<[GLOBAL_INODE := VStr "41"]> ∅) true [] []) 41)
    as (s' & E & Hc & _).
  - by left.
  - reflexivity.
  - unfold LLONG_MAX. lia.
  - exists s'. split; [exact E | exact Hc].
Defined.

(** ** The reply that [fs_symlink] leaves unread *)

(** X5: [fs_symlink] appends twelve commands and reads eleven replies.
    When it returns, the reply to its last [SET] is still unread, so the
    next command on the connection, whatever it is, reads that "OK" as
    its own reply; [redis_alive] reads it in place of "PONG" and opens a
    new connection, without changing the store. *)
Theorem symlink_leaves_a_reply c e target path s parent parent_inode :
  _g_read_only c = false -> in_step s ->
  get_parent path = Some parent ->
  resolve (db s) parent = Some parent_inode ->
  exists s1,
    fs_symlink c e target path s = (Some 0, s1) /\
    inbuf s1 = [RStatus "OK"] /\
    (forall cm, (redisCommand cm s1).1 = Some (RStatus "OK")) /\
    exists s2, redis_alive s1 = (Some tt, s2) /\ inbuf s2 = [] /\ db s2 = db s1.
Proof.
  intros Hro Hs Hpar Hres.
  destruct (fs_symlink_step s Hs c e target path Hro) as (l & E).
  rewrite Hpar, Hres in E.
  set (d1 := exec_all _ _) in E.
  exists (Conn d1 true [RStatus "OK"] l). split; [exact E |].
  split; [reflexivity |]. split.
  - intros cm. unfold redisCommand. rewrite bind_run, append_run. cbn [app].
    by rewrite get_reply_run.
  - destruct (alive_step (Conn d1 true [RStatus "OK"] l)) as (l' & E');
      [by right |].
    eexists. split; [exact E' |]. by split.
Qed.

Lemma symlink_leaves_a_reply_witness :
  exists s1,
    fs_symlink (Config false false) (Env 1000 0 0 0 0) "/etc/passwd" "/l"
      (Conn ∅ false [] []) = (Some 0, s1) /\
    inbuf s1 = [RStatus "OK"] /\
    (redisCommand (GET (INODE "1" TARGET)) s1).1 = Some (RStatus "OK").
Proof.
  destruct (symlink_leaves_a_reply (Config false false) (Env 1000 0 0 0 0)
              "/etc/passwd" "/l" (Conn ∅ false [] []) "/" (-99))
    as (s1 & E & Hi & Hc & _).
  - reflexivity.
  - by left.
  - reflexivity.
  - reflexivity.
  - exists s1. split; [exact E |]. split; [exact Hi | apply Hc].
Defined.

(** ** Paths that do not exist *)

(** The usual opening of a handler, from a connection between two
    calls: [redis_alive], then [find_inode] or [is_directory]. *)
Ltac open_find s Hs path Hres :=
  let l0 := fresh "l" in
  let E0 := fresh "E" in
  let l1 := fresh "l" in
  let E1 := fresh "E" in
  destruct (alive_step s Hs) as (l0 & E0); rewrite bind_run, E0;
  destruct (find_inode_ready path (db s) l0) as (l1 & E1);
  rewrite bind_run, E1, Hres; clear E0 E1.

Ltac open_is_directory s Hs path Hres :=
  let l0 := fresh "l" in
  let E0 := fresh "E" in
  let l1 := fresh "l" in
  let E1 := fresh "E" in
  destruct (alive_step s Hs) as (l0 & E0); rewrite bind_run, E0;
  destruct (is_directory_ready path (db s) l0) as (l1 & E1);
  rewrite bind_run, E1, Hres; clear E0 E1.

Lemma resolve_parent d path inode :
  resolve d path = Some inode -> path <> "/" ->
  exists parent parent_inode,
    get_parent path = Some parent /\ resolve d parent = Some parent_inode.
Proof.
  rewrite resolve_step. intros H Hne.
  apply String.eqb_neq in Hne. rewrite Hne in H.
  destruct (get_parent path) as [parent |]; [| done].
  destruct (resolve d parent) as [parent_inode |] eqn:E; [| done].
  by exists parent, parent_inode.
Qed.

(** X6: a path that resolves to no inode.  [getattr], [read],
    [readlink], [chmod], [chown], [utimens], [unlink], [truncate] and
    [rename] from it return [-ENOENT], and [rmdir] does when no entry was
    ever filed under inode -1; none of them changes the store. *)
Theorem missing_path_is_enoent c e past_end path other size offset mode uid gid
    atime mtime s :
  in_step s -> _g_read_only c = false ->
  resolve (db s) path = Some (-1) ->
  (exists s', fs_getattr e past_end path s = (Some (- ENOENT, zero_stat), s')
              /\ db s' = db s) /\
  (exists s', fs_read path size offset s = (Some (- ENOENT, ""), s')
              /\ db s' = db s) /\
  (exists s', fs_readlink path size s = (Some (- ENOENT, ""), s')
              /\ db s' = db s) /\
  (exists s', fs_chmod c e path mode s = (Some (- ENOENT), s') /\ db s' = db s) /\
  (exists s', fs_chown c e path uid gid s = (Some (- ENOENT), s')
              /\ db s' = db s) /\
  (exists s', fs_utimens c path atime mtime s = (Some (- ENOENT), s')
              /\ db s' = db s) /\
  (exists s', fs_unlink c path s = (Some (- ENOENT), s') /\ db s' = db s) /\
  (exists s', fs_truncate c e path size s = (Some (- ENOENT), s')
              /\ db s' = db s) /\
  (exists s', fs_rename c path other s = (Some (- ENOENT), s') /\ db s' = db s) /\
  (members (db s) "-1" = ∅ ->
   exists s', fs_rmdir c path s = (Some (- ENOENT), s') /\ db s' = db s).
Proof.
  intros Hs Hro Hres.
  assert (Hne : path <> "/").
  { intros ->. by rewrite resolve_root in Hres. }
  repeat split.
  - unfold fs_getattr. destruct (alive_step s Hs) as (l0 & E0).
    rewrite bind_run, E0. cbv zeta.
    apply String.eqb_neq in Hne. rewrite Hne.
    destruct (find_inode_ready path (db s) l0) as (l1 & E1).
    rewrite bind_run, E1, Hres. by eexists.
  - unfold fs_read. open_find s Hs path Hres. by eexists.
  - unfold fs_readlink. open_find s Hs path Hres. by eexists.
  - unfold fs_chmod. rewrite Hro. open_find s Hs path Hres. by eexists.
  - unfold fs_chown. rewrite Hro. open_find s Hs path Hres. by eexists.
  - unfold fs_utimens. rewrite Hro. open_find s Hs path Hres. by eexists.
  - unfold fs_unlink. rewrite Hro. open_find s Hs path Hres. by eexists.
  - unfold fs_truncate. rewrite Hro. open_is_directory s Hs path Hres.
    by eexists.
  - unfold fs_rename. rewrite Hro. open_find s Hs path Hres. by eexists.
  - intros Hempty. unfold fs_rmdir. rewrite Hro.
    open_is_directory s Hs path Hres.
    change ((if -1 =? -1 then -1 else is_dir (db s) (-1)) =? 0) with false.
    cbv iota.
    destruct (count_directory_entries_ready path (db s) (l ++ l0)) as (l1 & E1).
    rewrite bind_run, E1, Hres.
    unfold entry_count. change (fmt_d (-1)) with "-1". rewrite Hempty.
    rewrite size_empty. change (negb (to_int (Z.of_nat 0) =? 0)) with false.
    cbv iota.
    destruct (resolve_parent _ _ _ Hres Hne) as (parent & pi & Hpar & Hpres).
    rewrite Hpar.
    destruct (find_inode_ptr_ready (Some parent) (db s) ((l ++ l0) ++ l1))
      as (l2 & E2).
    rewrite bind_run, E2, Hpres.
    destruct (find_inode_ready path (db s) (((l ++ l0) ++ l1) ++ l2))
      as (l3 & E3).
    rewrite bind_run, E3, Hres. by eexists.
Qed.

Lemma missing_path_is_enoent_witness :
  (exists s', fs_unlink (Config false false) "/nothing" (Conn ∅ false [] [])
              = (Some (- ENOENT), s') /\ db s' = ∅) /\
  (exists s', fs_rmdir (Config false false) "/nothing" (Conn ∅ false [] [])
              = (Some (- ENOENT), s') /\ db s' = ∅).
Proof.
  destruct (missing_path_is_enoent (Config false false) (Env 0 0 0 0 0) None
              "/nothing" "/other" 0 0 0 0 0 0 0 (Conn ∅ false [] []))
    as (_ & _ & _ & _ & _ & _ & H1 & _ & _ & H2).
  - by left.
  - reflexivity.
  - reflexivity.
  - split; [exact H1 |]. apply H2. reflexivity.
Defined.

(** X7: on an open connection with no unread reply, [fs_open] and
    [fs_access] return 0 for every path that [find_inode] answers, also
    with "not found"; unless [--fast] is set or the path is not found,
    the one key they write is the ATIME of the inode.  Neither calls
    [redis_alive]: for "/", which [find_inode] answers without it,
    on a connection that was never opened and without [--fast], they
    hand the null handle to [redisCommand] and have no result. *)
Theorem open_touches_atime c e path d l inode :
  resolve d path = Some inode ->
  let d' := if _g_fast c || (inode =? -1) then d
            else <[INODE (fmt_d inode) ATIME := VStr (fmt_d (time_now e))]> d in
  (exists l', fs_open c e path (ready d l) = (Some 0, ready d' l')) /\
  (exists l', fs_access c e path (ready d l) = (Some 0, ready d' l')) /\
  (forall s, connected s = false -> _g_fast c = false ->
     fs_open c e "/" s = (None, s) /\ fs_access c e "/" s = (None, s)).
Proof.
  intros Hres d'. subst d'.
  assert (H : exists l',
             touch_atime e c path (ready d l)
             = (Some 0,
                ready (if _g_fast c || (inode =? -1) then d
                       else <[INODE (fmt_d inode) ATIME
                              := VStr (fmt_d (time_now e))]> d) l')).
  { unfold touch_atime. destruct (_g_fast c); [by eexists |].
    destruct (find_inode_ready path d l) as (l1 & E1).
    rewrite bind_run, E1, Hres. cbn [orb].
    destruct (inode =? -1); [by eexists |].
    rewrite bind_run, command_ready. by eexists. }
  split; [exact H |]. split; [exact H |].
  intros s Hc Hfast.
  assert (H0 : touch_atime e c "/" s = (None, s)).
  { unfold touch_atime. rewrite Hfast.
    change (find_inode "/") with (@ret Z (-99)).
    rewrite bind_run. unfold ret at 1. cbv iota beta.
    change (-99 =? -1) with false. cbv iota.
    unfold redisCommand, redisAppendCommand.
    rewrite !bind_run, Hc. reflexivity. }
  split; exact H0.
Qed.

Lemma open_touches_atime_witness :
  (exists l', fs_access (Config false false) (Env 1000 0 0 0 0) "/nothing"
                (ready ∅ []) = (Some 0, ready ∅ l')) /\
  fs_open (Config false false) (Env 1000 0 0 0 0) "/" (Conn ∅ false [] [])
  = (None, Conn ∅ false [] []).
Proof.
  destruct (open_touches_atime (Config false false) (Env 1000 0 0 0 0)
              "/nothing" ∅ [] (-1)) as (_ & H & Hnull).
  - reflexivity.
  - split; [exact H |]. by apply Hnull.
Defined.

(** ** Entries of the wrong type *)

Lemma is_dir_cases d inode :
  (d !! INODE (fmt_d inode) TYPE = Some (VStr "DIR") -> is_dir d inode = 1) /\
  (d !! INODE (fmt_d inode) TYPE <> Some (VStr "DIR") -> is_dir d inode = 0).
Proof.
  unfold is_dir. split.
  - by intros ->.
  - destruct (d !! INODE (fmt_d inode) TYPE) as [[str | set] |]; try done.
    destruct (String.eqb_spec str "DIR") as [-> | _]; [| done].
    by intros [].
Qed.

(** X17: [fs_rmdir] of an entry whose TYPE is not "DIR" (a file, a
    link, the root) and [fs_truncate] of an entry whose TYPE is "DIR"
    both return [-ENOENT] and leave the store as it was. *)
Theorem wrong_type_is_enoent c e path len s inode :
  in_step s -> _g_read_only c = false ->
  resolve (db s) path = Some inode -> inode <> -1 ->
  (db s !! INODE (fmt_d inode) TYPE <> Some (VStr "DIR") ->
   exists s', fs_rmdir c path s = (Some (- ENOENT), s') /\ db s' = db s) /\
  (db s !! INODE (fmt_d inode) TYPE = Some (VStr "DIR") ->
   exists s', fs_truncate c e path len s = (Some (- ENOENT), s') /\ db s' = db s).
Proof.
  intros Hs Hro Hres Hne. apply Z.eqb_neq in Hne.
  destruct (is_dir_cases (db s) inode) as [Hdir Hnot]. split; intros Hty.
  - unfold fs_rmdir. rewrite Hro. open_is_directory s Hs path Hres.
    rewrite Hne, (Hnot Hty). by eexists.
  - unfold fs_truncate. rewrite Hro. open_is_directory s Hs path Hres.
    rewrite Hne, (Hdir Hty). by eexists.
Qed.

Lemma wrong_type_is_enoent_witness :
  exists s', fs_rmdir (Config false false) "/" (Conn ∅ false [] [])
             = (Some (- ENOENT), s') /\ db s' = ∅.
Proof.
  destruct (wrong_type_is_enoent (Config false false) (Env 0 0 0 0 0) "/" 0
              (Conn ∅ false [] []) (-99)) as [H _].
  - by left.
  - reflexivity.
  - reflexivity.
  - discriminate.
  - apply H. discriminate.
Defined.

(** ** Listing a directory *)

Section Readdir.



End Readdir.







(** ** Attributes *)

Section Getattr.

(** [fs_getattr] of an inode whose nine attributes hold strings: the
    second reply is folded over the stat built from the first. *)
Lemma fs_getattr_run e past_end path s inode ctime atime mtime gid uid link
    type mode len :
  in_step s -> path <> "/" ->
  resolve (db s) path = Some inode -> inode <> -1 ->
  db s !! INODE (fmt_d inode) CTIME = Some (VStr ctime) ->
  db s !! INODE (fmt_d inode) ATIME = Some (VStr atime) ->
  db s !! INODE (fmt_d inode) MTIME = Some (VStr mtime) ->
  db s !! INODE (fmt_d inode) GID = Some (VStr gid) ->
  db s !! INODE (fmt_d inode) UID = Some (VStr uid) ->
  db s !! INODE (fmt_d inode) LINK = Some (VStr link) ->
  db s !! INODE (fmt_d inode) TYPE = Some (VStr type) ->
  db s !! INODE (fmt_d inode) MODE = Some (VStr mode) ->
  db s !! INODE (fmt_d inode) SIZE = Some (VStr len) ->
  exists st l,
    fs_getattr e past_end path s = (Some (0, st), ready (db s) l) /\
    getattr_type (RArr [RStr type; RStr mode; RStr len])
      (Stat 0 (to_u64 (atoi uid)) (to_u32 (atoi gid)) (to_u32 (atoi gid)) 0
         (atoi atime) (atoi mtime)
         (match past_end with
          | Some (RStr _) => atoi link
          | _ => atoi ctime
          end))
    = Some st.
Proof.
  intros Hs Hroot Hres Hne Hc Ha Hm Hg Hu Hl Ht Hmo Hsz. unfold fs_getattr.
  destruct (alive_step s Hs) as (l0 & E0). rewrite bind_run, E0.
  destruct (String.eqb_spec path "/"); [done |].
  destruct (find_inode_ready path (db s) l0) as (l1 & E1).
  rewrite bind_run, E1, Hres. destruct (Z.eqb_spec inode (-1)); [done |].
  unfold ready. rewrite bind_run, append_run, bind_run. cbn [app].
  rewrite get_reply_run. cbn [exec fst snd fmap list_fmap].
  unfold mget1. rewrite Hc, Ha, Hm, Hg, Hu, Hl.
  rewrite bind_run, getattr_times_strings. cbn [lift ret].
  rewrite bind_run. fold (ready (db s)
    ((l0 ++ l1) ++
       [MGET [INODE (fmt_d inode) CTIME; INODE (fmt_d inode) ATIME;
              INODE (fmt_d inode) MTIME; INODE (fmt_d inode) GID;
              INODE (fmt_d inode) UID; INODE (fmt_d inode) LINK]])).
  rewrite command_ready. cbn [exec fst snd fmap list_fmap].
  unfold mget1. rewrite Ht, Hmo, Hsz.
  rewrite bind_run.
  destruct (getattr_type _ _) as [st |] eqn:Est.
  - exists st. eexists. split; [reflexivity | reflexivity].
  - exfalso. revert Est. unfold getattr_type. cbn [element lookup list_lookup opt_bind].
    destruct (String.eqb type "DIR"); [done |].
    destruct (String.eqb type "LINK"); [done |].
    by destruct (String.eqb type "FILE").
Qed.

End Getattr.



(** ** Symbolic links *)

Section Symlink.



End Symlink.



(** ** Changing attributes *)

Section SetAttributes.

Lemma getattr_type_fields type mode len b st :
  getattr_type (RArr [RStr type; RStr mode; RStr len]) b = Some st ->
  st_mode st = Z.lor (to_u32 (atoi mode)) (type_bits type) /\
  st_uid st = st_uid b /\ st_gid st = st_gid b /\
  st_atime st = st_atime b /\ st_mtime st = st_mtime b /\
  st_ctime st = st_ctime b /\
  (type = "FILE" -> st_size st = atoi len /\ st_nlink st = st_nlink b).
Proof.
  unfold getattr_type, type_bits.
  cbn [element lookup list_lookup opt_bind].
  destruct (String.eqb_spec type "DIR") as [-> | _].
  { intros [= <-]. cbn. repeat split; try done. }
  destruct (String.eqb_spec type "LINK") as [-> | _].
  { intros [= <-]. cbn. repeat split; try done. }
  destruct (String.eqb_spec type "FILE") as [-> | ?].
  - intros [= <-]. cbn. rewrite Z.lor_0_r. by repeat split.
  - intros [= <-]. cbn. rewrite Z.lor_0_r. by repeat split.
Qed.

(** An entry with all the attributes that [fs_create], [fs_mkdir] and
    [fs_symlink] write. *)
Variables (s : conn) (path : string) (inode : Z).
Variables (ctime atime mtime gid uid link type mode len : string).

Hypothesis Hstep : in_step s.
Hypothesis Hroot : path <> "/".
Hypothesis Hres : resolve (db s) path = Some inode.
Hypothesis Hne : inode <> -1.
Hypothesis Hctime : db s !! INODE (fmt_d inode) CTIME = Some (VStr ctime).
Hypothesis Hatime : db s !! INODE (fmt_d inode) ATIME = Some (VStr atime).
Hypothesis Hmtime : db s !! INODE (fmt_d inode) MTIME = Some (VStr mtime).
Hypothesis Hgid : db s !! INODE (fmt_d inode) GID = Some (VStr gid).
Hypothesis Huid : db s !! INODE (fmt_d inode) UID = Some (VStr uid).
Hypothesis Hlink : db s !! INODE (fmt_d inode) LINK = Some (VStr link).
Hypothesis Htype : db s !! INODE (fmt_d inode) TYPE = Some (VStr type).
Hypothesis Hmode : db s !! INODE (fmt_d inode) MODE = Some (VStr mode).
Hypothesis Hlen : db s !! INODE (fmt_d inode) SIZE = Some (VStr len).

(** One [MSET] on attributes of the inode, then [fs_getattr]. *)
Lemma mset_then_getattr e' past_end kvs l
    ctime' atime' mtime' gid' uid' link' type' mode' len' :
  (forall k, k ∈ kvs.*1 -> exists a, k = INODE (fmt_d inode) a /\ a <> NAME) ->
  mset kvs (db s) !! INODE (fmt_d inode) CTIME = Some (VStr ctime') ->
  mset kvs (db s) !! INODE (fmt_d inode) ATIME = Some (VStr atime') ->
  mset kvs (db s) !! INODE (fmt_d inode) MTIME = Some (VStr mtime') ->
  mset kvs (db s) !! INODE (fmt_d inode) GID = Some (VStr gid') ->
  mset kvs (db s) !! INODE (fmt_d inode) UID = Some (VStr uid') ->
  mset kvs (db s) !! INODE (fmt_d inode) LINK = Some (VStr link') ->
  mset kvs (db s) !! INODE (fmt_d inode) TYPE = Some (VStr type') ->
  mset kvs (db s) !! INODE (fmt_d inode) MODE = Some (VStr mode') ->
  mset kvs (db s) !! INODE (fmt_d inode) SIZE = Some (VStr len') ->
  exists st l',
    fs_getattr e' past_end path (ready (mset kvs (db s)) l)
    = (Some (0, st), ready (mset kvs (db s)) l') /\
    getattr_type (RArr [RStr type'; RStr mode'; RStr len'])
      (Stat 0 (to_u64 (atoi uid')) (to_u32 (atoi gid')) (to_u32 (atoi gid')) 0
         (atoi atime') (atoi mtime')
         (match past_end with
          | Some (RStr _) => atoi link'
          | _ => atoi ctime'
          end))
    = Some st.
Proof.
  intros Hkeys ? ? ? ? ? ? ? ? ?.
  apply (fs_getattr_run e' past_end path (ready (mset kvs (db s)) l) inode
           ctime' atime' mtime' gid' uid' link' type' mode' len');
    try done; [by left |].
  cbn [db ready]. rewrite <- Hres.
  apply resolve_frame; intros i; apply mset_frame; intros Hk;
    destruct (Hkeys _ Hk) as (a & [=] & Ha); congruence.
Qed.

Ltac attr_lookup :=
  unfold mset; cbn [foldl fst snd];
  repeat (rewrite lookup_insert_ne by done);
  first [apply lookup_insert_eq | eassumption].

Ltac attr_keys :=
  let k := fresh "k" in
  let Hk := fresh "Hk" in
  intros k Hk; rewrite !fmap_cons in Hk; cbn [fst fmap list_fmap] in Hk;
  repeat (apply elem_of_cons in Hk as [-> | Hk]; [by eexists |]);
  by apply elem_of_nil in Hk.

(** X12: [fs_chmod] returns 0, writes MODE and MTIME and nothing else,
    and a following [fs_getattr] reports the new mode under the type
    bits of the entry, the time of the [chmod] as modification time, and
    the other attributes as before. *)
Theorem chmod_then_getattr c e e' past_end new_mode :
  _g_read_only c = false ->
  exists s1 st s2,
    fs_chmod c e path new_mode s = (Some 0, s1) /\
    db s1 = mset [(INODE (fmt_d inode) MODE, fmt_d new_mode);
                  (INODE (fmt_d inode) MTIME, fmt_d (time_now e))] (db s) /\
    fs_getattr e' past_end path s1 = (Some (0, st), s2) /\
    st_mode st = Z.lor (to_u32 (to_int new_mode)) (type_bits type) /\
    st_mtime st = to_int (time_now e) /\
    st_atime st = atoi atime /\
    st_gid st = to_u32 (atoi gid) /\
    (type = "FILE" -> st_size st = atoi len).
Proof.
  intros Hro. unfold fs_chmod. rewrite Hro. open_find s Hstep path Hres.
  pose proof Hne as Hne'. apply Z.eqb_neq in Hne'. rewrite Hne'. cbv zeta.
  rewrite bind_run, command_ready. cbn [exec fst snd].
  set (kvs := [(INODE (fmt_d inode) MODE, fmt_d new_mode);
               (INODE (fmt_d inode) MTIME, fmt_d (time_now e))]).
  edestruct (mset_then_getattr e' past_end kvs) as (st & l' & E & Hst);
    [subst kvs; attr_keys | subst kvs; attr_lookup .. |].
  eexists _, st, _. split; [reflexivity |]. split; [reflexivity |].
  split; [exact E |].
  apply getattr_type_fields in Hst as (Hm & _ & Hg & Ha & Ht & _ & Hsz).
  cbn [st_gid st_atime st_mtime] in *. rewrite Hm, Hg, Ha, Ht, !atoi_fmt_d.
  repeat split; try done. intros Hty. by destruct (Hsz Hty).
Qed.

(** X13: [fs_utimens] returns 0, writes ATIME and MTIME and nothing
    else, and a following [fs_getattr] reports the two times, cut to 32
    bits: as given when they fit an [int]. *)
Theorem utimens_then_getattr c e' past_end new_atime new_mtime :
  _g_read_only c = false ->
  exists s1 st s2,
    fs_utimens c path new_atime new_mtime s = (Some 0, s1) /\
    db s1 = mset [(INODE (fmt_d inode) ATIME, fmt_d new_atime);
                  (INODE (fmt_d inode) MTIME, fmt_d new_mtime)] (db s) /\
    fs_getattr e' past_end path s1 = (Some (0, st), s2) /\
    st_atime st = to_int new_atime /\
    st_mtime st = to_int new_mtime /\
    (is_int new_atime -> st_atime st = new_atime) /\
    (is_int new_mtime -> st_mtime st = new_mtime) /\
    st_mode st = Z.lor (to_u32 (atoi mode)) (type_bits type).
Proof.
  intros Hro. unfold fs_utimens. rewrite Hro. open_find s Hstep path Hres.
  pose proof Hne as Hne'. apply Z.eqb_neq in Hne'. rewrite Hne'. cbv zeta.
  rewrite bind_run, command_ready. cbn [exec fst snd].
  set (kvs := [(INODE (fmt_d inode) ATIME, fmt_d new_atime);
               (INODE (fmt_d inode) MTIME, fmt_d new_mtime)]).
  edestruct (mset_then_getattr e' past_end kvs) as (st & l' & E & Hst);
    [subst kvs; attr_keys | subst kvs; attr_lookup .. |].
  eexists _, st, _. split; [reflexivity |]. split; [reflexivity |].
  split; [exact E |].
  apply getattr_type_fields in Hst as (Hm & _ & _ & Ha & Ht & _).
  cbn [st_atime st_mtime] in *. rewrite Hm, Ha, Ht, !atoi_fmt_d.
  repeat split; try done; intros H; by apply to_int_id.
Qed.

(** X14: [fs_chown] returns 0, writes UID, GID and MTIME and nothing
    else, and a following [fs_getattr] reports the new gid and the time
    of the [chown] as modification time. *)
Theorem chown_then_getattr c e e' past_end new_uid new_gid :
  _g_read_only c = false ->
  exists s1 st s2,
    fs_chown c e path new_uid new_gid s = (Some 0, s1) /\
    db s1 = mset [(INODE (fmt_d inode) UID, fmt_d new_uid);
                  (INODE (fmt_d inode) GID, fmt_d new_gid);
                  (INODE (fmt_d inode) MTIME, fmt_d (time_now e))] (db s) /\
    fs_getattr e' past_end path s1 = (Some (0, st), s2) /\
    st_gid st = to_u32 (to_int new_gid) /\
    st_mtime st = to_int (time_now e) /\
    st_mode st = Z.lor (to_u32 (atoi mode)) (type_bits type).
Proof.
  intros Hro. unfold fs_chown. rewrite Hro. open_find s Hstep path Hres.
  pose proof Hne as Hne'. apply Z.eqb_neq in Hne'. rewrite Hne'. cbv zeta.
  rewrite bind_run, command_ready. cbn [exec fst snd].
  set (kvs := [(INODE (fmt_d inode) UID, fmt_d new_uid);
               (INODE (fmt_d inode) GID, fmt_d new_gid);
               (INODE (fmt_d inode) MTIME, fmt_d (time_now e))]).
  edestruct (mset_then_getattr e' past_end kvs) as (st & l' & E & Hst);
    [subst kvs; attr_keys | subst kvs; attr_lookup .. |].
  eexists _, st, _. split; [reflexivity |]. split; [reflexivity |].
  split; [exact E |].
  apply getattr_type_fields in Hst as (Hm & _ & Hg & _ & Ht & _).
  cbn [st_gid st_mtime] in *. by rewrite Hm, Hg, Ht, !atoi_fmt_d.
Qed.

End SetAttributes.

Lemma chmod_then_getattr_witness :
  let s := (fs_create (Config false false) (Env 1000 1000 100 0 0) "/f" 420
              (Conn ∅ false [] [])).2 in
  exists s1 st s2,
    fs_chmod (Config false false) (Env 2000 0 0 0 0) "/f" 384 s = (Some 0, s1) /\
    fs_getattr (Env 2001 0 0 0 0) None "/f" s1 = (Some (0, st), s2) /\
    st_mode st = 384 /\ st_mtime st = 2000.
Proof.
  intros s.
  assert (Hs : in_step s) by (left; vm_compute; reflexivity).
  assert (Hr : resolve (db s) "/f" = Some 1) by (vm_compute; reflexivity).
  assert (H1 : db s !! INODE (fmt_d 1) CTIME = Some (VStr "1000"))
    by (vm_compute; reflexivity).
  assert (H2 : db s !! INODE (fmt_d 1) ATIME = Some (VStr "1000"))
    by (vm_compute; reflexivity).
  assert (H3 : db s !! INODE (fmt_d 1) GID = Some (VStr "100"))
    by (vm_compute; reflexivity).
  assert (H4 : db s !! INODE (fmt_d 1) UID = Some (VStr "1000"))
    by (vm_compute; reflexivity).
  assert (H5 : db s !! INODE (fmt_d 1) LINK = Some (VStr "1"))
    by (vm_compute; reflexivity).
  assert (H6 : db s !! INODE (fmt_d 1) TYPE = Some (VStr "FILE"))
    by (vm_compute; reflexivity).
  assert (H7 : db s !! INODE (fmt_d 1) SIZE = Some (VStr "0"))
    by (vm_compute; reflexivity).
  assert (Hp : "/f" <> "/") by discriminate.
  assert (Hn : 1 <> -1) by discriminate.
  destruct (chmod_then_getattr s "/f" 1 "1000" "1000" "100" "1000" "1" "FILE" "0"
              Hs Hp Hr Hn H1 H2 H3 H4 H5 H6 H7
              (Config false false) (Env 2000 0 0 0 0) (Env 2001 0 0 0 0)
              None 384 eq_refl)
    as (s1 & st & s2 & E1 & _ & E2 & Hm & Ht & _).
  exists s1, st, s2. rewrite Hm, Ht.
  split; [exact E1 |]. split; [exact E2 |]. split; reflexivity.
Defined.

Lemma utimens_then_getattr_witness :
  let s := (fs_create (Config false false) (Env 1000 1000 100 0 0) "/f" 420
              (Conn ∅ false [] [])).2 in
  exists s1 st s2,
    fs_utimens (Config false false) "/f" 1300000000 1300000001 s = (Some 0, s1) /\
    fs_getattr (Env 2001 0 0 0 0) None "/f" s1 = (Some (0, st), s2) /\
    st_atime st = 1300000000 /\ st_mtime st = 1300000001.
Proof.
  intros s.
  assert (Hs : in_step s) by (left; vm_compute; reflexivity).
  assert (Hr : resolve (db s) "/f" = Some 1) by (vm_compute; reflexivity).
  assert (H1 : db s !! INODE (fmt_d 1) CTIME = Some (VStr "1000"))
    by (vm_compute; reflexivity).
  assert (H3 : db s !! INODE (fmt_d 1) GID = Some (VStr "100"))
    by (vm_compute; reflexivity).
  assert (H4 : db s !! INODE (fmt_d 1) UID = Some (VStr "1000"))
    by (vm_compute; reflexivity).
  assert (H5 : db s !! INODE (fmt_d 1) LINK = Some (VStr "1"))
    by (vm_compute; reflexivity).
  assert (H6 : db s !! INODE (fmt_d 1) TYPE = Some (VStr "FILE"))
    by (vm_compute; reflexivity).
  assert (H8 : db s !! INODE (fmt_d 1) MODE = Some (VStr "420"))
    by (vm_compute; reflexivity).
  assert (H7 : db s !! INODE (fmt_d 1) SIZE = Some (VStr "0"))
    by (vm_compute; reflexivity).
  assert (Hp : "/f" <> "/") by discriminate.
  assert (Hn : 1 <> -1) by discriminate.
  destruct (utimens_then_getattr s "/f" 1 "1000" "100" "1000" "1" "FILE" "420" "0"
              Hs Hp Hr Hn H1 H3 H4 H5 H6 H8 H7
              (Config false false) (Env 2001 0 0 0 0) None
              1300000000 1300000001 eq_refl)
    as (s1 & st & s2 & E1 & _ & E2 & Ha & Ht & _).
  exists s1, st, s2. rewrite Ha, Ht.
  split; [exact E1 |]. split; [exact E2 |]. split; reflexivity.
Defined.

Lemma chown_then_getattr_witness :
  let s := (fs_create (Config false false) (Env 1000 1000 100 0 0) "/f" 420
              (Conn ∅ false [] [])).2 in
  exists s1 st s2,
    fs_chown (Config false false) (Env 2000 0 0 0 0) "/f" 33 44 s = (Some 0, s1) /\
    fs_getattr (Env 2001 0 0 0 0) None "/f" s1 = (Some (0, st), s2) /\
    st_gid st = 44.
Proof.
  intros s.
  assert (Hs : in_step s) by (left; vm_compute; reflexivity).
  assert (Hr : resolve (db s) "/f" = Some 1) by (vm_compute; reflexivity).
  assert (H1 : db s !! INODE (fmt_d 1) CTIME = Some (VStr "1000"))
    by (vm_compute; reflexivity).
  assert (H2 : db s !! INODE (fmt_d 1) ATIME = Some (VStr "1000"))
    by (vm_compute; reflexivity).
  assert (H5 : db s !! INODE (fmt_d 1) LINK = Some (VStr "1"))
    by (vm_compute; reflexivity).
  assert (H6 : db s !! INODE (fmt_d 1) TYPE = Some (VStr "FILE"))
    by (vm_compute; reflexivity).
  assert (H8 : db s !! INODE (fmt_d 1) MODE = Some (VStr "420"))
    by (vm_compute; reflexivity).
  assert (H7 : db s !! INODE (fmt_d 1) SIZE = Some (VStr "0"))
    by (vm_compute; reflexivity).
  assert (Hp : "/f" <> "/") by discriminate.
  assert (Hn : 1 <> -1) by discriminate.
  destruct (chown_then_getattr s "/f" 1 "1000" "1000" "1" "FILE" "420" "0"
              Hs Hp Hr Hn H1 H2 H5 H6 H8 H7
              (Config false false) (Env 2000 0 0 0 0) (Env 2001 0 0 0 0)
              None 33 44 eq_refl)
    as (s1 & st & s2 & E1 & _ & E2 & Hg & _).
  exists s1, st, s2. rewrite Hg.
  split; [exact E1 |]. split; [exact E2 |]. reflexivity.
Defined.

(** ** Reading *)

Section Read.

Lemma str_drop_length n : forall x,
  String.length (str_drop n x) = (String.length x - n)%nat.
Proof.
  induction n as [| n IH]; intros x.
  - cbn [str_drop]. destruct x; cbn; lia.
  - destruct x as [| ch x]; [done |]. cbn [str_drop String.length]. by rewrite IH.
Qed.

Lemma str_take_take n : forall k x,
  (n <= k)%nat -> str_take n (str_take k x) = str_take n x.
Proof.
  induction n as [| n IH]; intros k x Hk; [done |].
  destruct k as [| k]; [lia |]. destruct x as [| ch x]; [done |].
  cbn [str_take]. rewrite IH by lia. done.
Qed.

Lemma str_take_app_le n : forall (x y : string),
  (n <= String.length x)%nat -> str_take n (x ++ y) = str_take n x.
Proof.
  induction n as [| n IH]; intros x y Hn; [done |].
  destruct x as [| ch x]; [cbn in Hn; lia |].
  cbn [String.length] in Hn. simpl. rewrite IH by lia. done.
Qed.

(** The bytes that [memcpy] takes from the reply to [GETRANGE]. *)
Lemma copied_range data first n :
  0 <= first -> 0 < n -> first + n <= Z.of_nat (String.length data) ->
  memcpy_from (Some (range_of data first (n + first))) n
  = Some (str_take (Z.to_nat n) (str_drop (Z.to_nat first) data)).
Proof.
  intros Hf Hn Hle. unfold range_of.
  set (N := Z.of_nat (String.length data)) in *.
  destruct (Z.ltb_spec first 0); [lia |].
  destruct (Z.ltb_spec (n + first) 0); [lia |].
  rewrite !Z.max_r by lia.
  set (last := if N <=? n + first then N - 1 else n + first).
  assert (Hlast : first + n - 1 <= last <= first + n /\ last < N).
  { subst last. destruct (Z.leb_spec N (n + first)); lia. }
  destruct (Z.ltb_spec last first); [lia |].
  destruct (Z.eqb_spec N 0); [lia |]. cbn [orb].
  set (dropped := str_drop (Z.to_nat first) data).
  assert (Hd : Z.of_nat (String.length dropped) = N - first).
  { subst dropped. rewrite str_drop_length. subst N. lia. }
  set (k := Z.to_nat (last - first + 1)).
  assert (Hk : (Z.to_nat n <= k)%nat /\ (k <= String.length dropped)%nat).
  { subst k. lia. }
  unfold memcpy_from.
  rewrite (str_take_length k dropped) by lia.
  destruct (Z.leb_spec n (Z.of_nat k + 1)); [| lia].
  rewrite str_take_app_le by (rewrite str_take_length; lia).
  by rewrite str_take_take by lia.
Qed.

Lemma u64_small z : 0 <= z <= 4 * INT_MAX -> to_u64 z = z.
Proof. intros H. unfold to_u64. apply Z.mod_small. unfold INT_MAX in H. lia. Qed.

End Read.

(** What [fs_read] returns for a range inside the file. *)
Lemma fs_read_run path size offset s inode data :
  in_step s -> resolve (db s) path = Some inode -> inode <> -1 ->
  db s !! INODE (fmt_d inode) SIZE
  = Some (VStr (dec (Z.of_nat (String.length data)))) ->
  file_data (db s) (fmt_d inode) = Some data ->
  Z.of_nat (String.length data) <= INT_MAX ->
  0 <= offset <= Z.of_nat (String.length data) -> 0 <= size ->
  let n := Z.min size (Z.of_nat (String.length data) - offset) in
  exists s',
    fs_read path size offset s
    = (Some (n, str_take (Z.to_nat n) (str_drop (Z.to_nat offset) data)), s') /\
    db s' = db s.
Proof.
  intros Hs Hres Hne Hsize Hdata Hmax Hoff Hsz n.
  set (N := Z.of_nat (String.length data)) in *.
  assert (Hint : is_int N) by (unfold is_int, INT_MIN; lia).
  unfold fs_read. open_find s Hs path Hres.
  apply Z.eqb_neq in Hne. rewrite Hne. cbv zeta.
  rewrite bind_run, command_ready. cbn [exec fst snd]. rewrite Hsize.
  rewrite bind_run. cbn [reply_str lift ret].
  rewrite (atoi_dec N Hint), (u64_small N) by lia.
  set (size1 := if N <? size then N else size).
  assert (H1 : size1 = Z.min size N).
  { subst size1. destruct (Z.ltb_spec N size); lia. }
  rewrite (u64_small (offset + size1)) by lia.
  set (size2 := if offset + size1 >? N then to_u64 (N - offset) else size1).
  assert (H2 : size2 = n).
  { subst size2 n. destruct (Z.gtb_spec (offset + size1) N).
    - rewrite u64_small by lia. lia.
    - lia. }
  rewrite H2. clear H1 H2 size1 size2.
  assert (Hn : 0 <= n <= N - offset) by (subst n; lia).
  rewrite (u64_small offset), (u64_small (n + offset)) by lia.
  rewrite bind_run, command_ready. cbn [exec fst snd]. unfold getrange.
  assert (Hll : in_llong offset && in_llong (n + offset) = true).
  { unfold in_llong, LLONG_MIN, LLONG_MAX. unfold INT_MAX in Hmax.
    repeat (apply andb_true_intro; split); apply Z.leb_le; lia. }
  rewrite Hll. rewrite (to_int_id n) by (unfold is_int, INT_MIN in *; lia).
  unfold file_data in Hdata.
  destruct (Z.gtb_spec n 0) as [Hpos | Hzero].
  - destruct (db s !! INODE (fmt_d inode) DATA) as [[data' | set] |];
      [| done |].
    + injection Hdata as ->. rewrite bind_run. cbn [ret].
      rewrite bind_run. cbn [reply_str].
      rewrite copied_range by (fold N; lia). cbn [lift ret].
      eexists. split; reflexivity.
    + injection Hdata as <-. cbn in N. lia.
  - replace n with 0 by lia. change (Z.to_nat 0) with 0%nat.
    cbn [str_take].
    destruct (db s !! INODE (fmt_d inode) DATA) as [[data' | set] |];
      [| done |]; rewrite bind_run; cbn [ret]; rewrite bind_run; cbn [ret];
      eexists; split; reflexivity.
Qed.

(** X15: [fs_read] of [size] bytes at an offset inside a file whose
    SIZE is the length of its DATA returns the number of bytes from the
    offset to the end of the file, or [size] if that is less, and copies
    exactly those bytes of DATA; the store is not changed. *)
Theorem read_returns_range path size offset s inode data :
  in_step s -> resolve (db s) path = Some inode -> inode <> -1 ->
  db s !! INODE (fmt_d inode) SIZE
  = Some (VStr (dec (Z.of_nat (String.length data)))) ->
  file_data (db s) (fmt_d inode) = Some data ->
  Z.of_nat (String.length data) <= INT_MAX ->
  0 <= offset <= Z.of_nat (String.length data) -> 0 <= size ->
  let n := Z.min size (Z.of_nat (String.length data) - offset) in
  exists s',
    fs_read path size offset s
    = (Some (n, str_take (Z.to_nat n) (str_drop (Z.to_nat offset) data)), s') /\
    db s' = db s.
Proof. apply fs_read_run. Qed.

Lemma read_returns_range_witness :
  exists s',
    fs_read "/f" 4 6
      (Conn (<[INODE "1" DATA := VStr "hello world"]>
               (<[INODE "1" SIZE := VStr "11"]>
                  (<[INODE "1" NAME := VStr "f"]>
                     (<[DIRENT "-99" := VSet {["1"]}]> ∅)))) true [] [])
    = (Some (4, "worl"), s').
Proof.
  destruct (read_returns_range "/f" 4 6
              (Conn (<[INODE "1" DATA := VStr "hello world"]>
                       (<[INODE "1" SIZE := VStr "11"]>
                          (<[INODE "1" NAME := VStr "f"]>
                             (<[DIRENT "-99" := VSet {["1"]}]> ∅)))) true [] [])
              1 "hello world") as (s' & E & _).
  - by left.
  - reflexivity.
  - discriminate.
  - reflexivity.
  - reflexivity.
  - vm_compute. discriminate.
  - cbn. lia.
  - lia.
  - exists s'. exact E.
Defined.



(** ** Removing what was just made *)

Section Restore.



End Restore.



(** ** Renaming *)

Section Renamed.

(** Path lookup after the NAME of entry [m] has changed: nothing
    changes for a path that reaches its end through directories that do
    not list [m]. *)
Variables (d d' : gmap key value) (m : string).

Hypothesis Hdir : forall dir, d' !! DIRENT dir = d !! DIRENT dir.
Hypothesis Hname : forall j, j <> m -> d' !! INODE j NAME = d !! INODE j NAME.



End Renamed.

Section Removed.

(** Path lookup after entry [m] has been taken out of every directory
    and renamed: nothing changes for a path that is found and does not
    pass through [m]. *)
Variables (d d2 : gmap key value) (c : Z) (m : string).

Hypothesis Hwf : well_formed d c.
Hypothesis Hmem : forall dir, members d2 dir = members d dir ∖ {[m]}.
Hypothesis Hname : forall j n, j <> m -> named d2 j n <-> named d j n.




End Removed.

Section RenameFacts.






End RenameFacts.



(** ** Looking up a name *)



(** ** Operations that only read *)

Section ReadsOnly.

Lemma ro_ret {A} (a : A) : reads_only (ret a).
Proof. intros d l. by exists (Some a), l. Qed.

Lemma ro_crash {A} : reads_only (@crash A).
Proof. intros d l. by exists None, l. Qed.

Lemma ro_lift {A} (o : option A) : reads_only (lift o).
Proof. destruct o; [apply ro_ret | apply ro_crash]. Qed.

Lemma ro_bind {A B} (m : M A) (k : A -> M B) :
  reads_only m -> (forall a, reads_only (k a)) -> reads_only (bind m k).
Proof.
  intros Hm Hk d l. destruct (Hm d l) as (r & l1 & E).
  rewrite bind_run, E. destruct r as [a |]; [apply Hk | by exists None, l1].
Qed.

Lemma ro_alive : reads_only redis_alive.
Proof. intros d l. rewrite alive_ready. by eexists _, _. Qed.

Lemma ro_command c : (forall d, (exec c d).2 = d) -> reads_only (redisCommand c).
Proof. intros Hc d l. rewrite command_ready, Hc. by eexists _, _. Qed.

Lemma ro_append_read {A} c (k : reply -> M A) :
  (forall d, (exec c d).2 = d) -> (forall r, reads_only (k r)) ->
  reads_only (redisAppendCommand c ;; reply <- redisGetReply ;; k reply).
Proof.
  intros Hc Hk d l. unfold ready.
  rewrite bind_run, append_run, bind_run. cbn [app].
  rewrite get_reply_run, Hc. apply (Hk _ d).
Qed.

Lemma ro_find p : reads_only (find_inode p).
Proof.
  intros d l. destruct (find_inode_ready p d l) as (l' & E).
  rewrite E. by eexists _, _.
Qed.

Lemma ro_step {A} (m : M A) s :
  reads_only m -> in_step s -> db ((redis_alive ;; m) s).2 = db s.
Proof.
  intros Hm Hs. destruct (alive_step s Hs) as (l & E). rewrite bind_run, E.
  by destruct (Hm (db s) l) as (r & l' & ->).
Qed.

End ReadsOnly.

Ltac ro_step_tac :=
  match goal with
  | |- reads_only (ret _) => apply ro_ret
  | |- reads_only crash => apply ro_crash
  | |- reads_only (lift _) => apply ro_lift
  | |- reads_only redis_alive => apply ro_alive
  | |- reads_only (find_inode _) => apply ro_find
  | |- reads_only (redisCommand _) => apply ro_command; intros; reflexivity
  | |- reads_only (bind _ _) => apply ro_bind; [| intros ?]
  | |- reads_only (if ?b then _ else _) => destruct b
  | |- reads_only (match ?x with _ => _ end) => destruct x
  end.

(** X21: [fs_getattr], [fs_readdir], [fs_read] and [fs_readlink], and
    the helpers [find_inode], [is_directory] and
    [count_directory_entries], send no command that writes: however the
    call ends, returning or not, the store is what it was. *)
Theorem readers_do_not_write e past_end path len offset s :
  in_step s ->
  db (fs_getattr e past_end path s).2 = db s /\
  db (fs_readdir path s).2 = db s /\
  db (fs_read path len offset s).2 = db s /\
  db (fs_readlink path len s).2 = db s /\
  db (is_directory path s).2 = db s /\
  db (count_directory_entries path s).2 = db s /\
  db ((redis_alive ;; find_inode path) s).2 = db s.
Proof.
  intros Hs. repeat split.
  - unfold fs_getattr. apply ro_step; [| done]. cbv zeta.
    destruct (String.eqb path "/"); [apply ro_ret |].
    apply ro_bind; [apply ro_find | intros inode].
    destruct (inode =? -1); [apply ro_ret |].
    apply ro_append_read; [done |]. intros rep. repeat ro_step_tac.
  - unfold fs_readdir. apply ro_step; [| done]. repeat ro_step_tac.
  - unfold fs_read. apply ro_step; [| done]. cbv zeta. repeat ro_step_tac.
  - unfold fs_readlink. apply ro_step; [| done]. repeat ro_step_tac.
  - unfold is_directory. apply ro_step; [| done]. repeat ro_step_tac.
  - unfold count_directory_entries. apply ro_step; [| done]. repeat ro_step_tac.
  - apply ro_step; [apply ro_find | done].
Qed.

Lemma readers_do_not_write_witness :
  db (fs_read "/f" 4096 12
        (Conn (<[INODE "1" SIZE := VStr "11"]>
                 (<[INODE "1" NAME := VStr "f"]>
                    (<[DIRENT "-99" := VSet {["1"]}]> ∅))) true [] [])).2
  = <[INODE "1" SIZE := VStr "11"]>
      (<[INODE "1" NAME := VStr "f"]> (<[DIRENT "-99" := VSet {["1"]}]> ∅)).
Proof.
  destruct (readers_do_not_write (Env 0 0 0 0 0) None "/f" 4096 12
              (Conn (<[INODE "1" SIZE := VStr "11"]>
                       (<[INODE "1" NAME := VStr "f"]>
                          (<[DIRENT "-99" := VSet {["1"]}]> ∅))) true [] []))
    as (_ & _ & H & _).
  - by left.
  - exact H.
Defined.

(** ** Deleting an inode *)

(** X22: [remove_inode] of a number that is not negative deletes the
    twelve attribute keys of that inode and no other key, and reads all
    twelve replies. *)
Theorem remove_inode_deletes inode s :
  0 <= inode -> in_step s ->
  exists s',
    remove_inode inode s = (Some tt, s') /\ inbuf s' = [] /\
    (forall a, db s' !! INODE (fmt_d inode) a = None) /\
    (forall k, (forall a, k <> INODE (fmt_d inode) a) -> db s' !! k = db s !! k).
Proof.
  intros Hpos Hs. unfold remove_inode.
  destruct (Z.ltb_spec inode 0); [lia |].
  destruct (alive_step s Hs) as (l & E). rewrite bind_run, E.
  pose proof (pipeline_run ((fun a => DEL (INODE (fmt_d inode) a)) <$> all_attrs)
                (db s) l) as Ep.
  change (length ((fun a => DEL (INODE (fmt_d inode) a)) <$> all_attrs))
    with (length all_attrs) in Ep.
  rewrite Ep. eexists. split; [reflexivity |]. split; [reflexivity |].
  cbn [db ready].
  assert (Ecmds : (fun a => DEL (INODE (fmt_d inode) a)) <$> all_attrs
                  = remove_cmds inode).
  { unfold remove_cmds. by destruct (Z.ltb_spec inode 0); [lia |]. }
  rewrite Ecmds. split.
  - intros a. by apply remove_cmds_lookup.
  - intros k Hk. by apply remove_cmds_frame.
Qed.

Lemma remove_inode_deletes_witness :
  exists s',
    remove_inode 1
      (Conn (<[INODE "1" DATA := VStr "hello"]>
               (<[INODE "2" DATA := VStr "world"]> ∅)) true [] [])
    = (Some tt, s') /\
    db s' !! INODE "1" DATA = None /\
    db s' !! INODE "2" DATA = Some (VStr "world").
Proof.
  destruct (remove_inode_deletes 1
              (Conn (<[INODE "1" DATA := VStr "hello"]>
                       (<[INODE "2" DATA := VStr "world"]> ∅)) true [] []))
    as (s' & E & _ & H1 & H2).
  - lia.
  - by left.
  - exists s'. split; [exact E |]. split; [apply (H1 DATA) |].
    rewrite H2 by discriminate. reflexivity.
Defined.

(** ** A parent that does not exist *)

(** X23: [fs_create] and [fs_mkdir] do not check that the parent
    directory was found.  When the parent resolves to no inode they
    still return 0, take a new inode number, write its attributes, and
    file it in the set of inode -1. *)
Theorem create_without_parent c e path mode s parent cnt :
  _g_read_only c = false -> inbuf s = [] ->
  well_formed (db s) cnt -> cnt + 1 <= INT_MAX ->
  get_parent path = Some parent ->
  resolve (db s) parent = Some (-1) ->
  (exists s',
     fs_create c e path mode s = (Some 0, s') /\
     dec (cnt + 1) ∈ members (db s') "-1" /\
     db s' !! INODE (dec (cnt + 1)) TYPE = Some (VStr "FILE") /\
     db s' !! INODE (dec (cnt + 1)) NAME = Some (VStr (get_basename path))) /\
  (exists s',
     fs_mkdir c e path mode s = (Some 0, s') /\
     dec (cnt + 1) ∈ members (db s') "-1" /\
     db s' !! INODE (dec (cnt + 1)) TYPE = Some (VStr "DIR") /\
     db s' !! INODE (dec (cnt + 1)) NAME = Some (VStr (get_basename path))).
Proof.
  intros Hro Hsync Hwf Hmax Hpar Hres.
  destruct (wf_counter _ _ Hwf) as [Hc H0].
  destruct (incr_counter _ _ Hc H0 Hmax) as [Hnext _].
  assert (Hint : is_int (cnt + 1)) by (unfold is_int, INT_MIN, INT_MAX in *; lia).
  assert (Hfmt : fmt_d (cnt + 1) = dec (cnt + 1)) by (by apply fmt_d_dec).
  assert (Hin : forall type,
            dec (cnt + 1)
            ∈ members (exec_all (link_cmds e (-1) (cnt + 1) (get_basename path)
                                    type mode) (after_incr (db s))) "-1").
  { intros type. rewrite (linked_members _ _ cnt) by done.
    change (fmt_d (-1)) with "-1". rewrite decide_True by done.
    rewrite Hfmt. apply elem_of_union_l. by apply elem_of_singleton. }
  split.
  - destruct (fs_create_run c e path mode s parent (-1)) as (l & E); try done.
    rewrite Hnext in E. eexists. split; [exact E |]. cbn [db ready].
    split; [apply Hin |]. rewrite <- Hfmt. by rewrite !link_attr.
  - destruct (fs_mkdir_run c e path mode s parent (-1)) as (l & E); try done.
    rewrite Hnext in E. eexists. split; [exact E |]. cbn [db ready].
    split; [apply Hin |]. rewrite <- Hfmt. by rewrite !link_attr.
Qed.

Lemma create_without_parent_witness :
  exists s',
    fs_create (Config false false) (Env 1000 0 0 0 0) "/nothing/f" 420
      (Conn ∅ false [] []) = (Some 0, s') /\
    "1" ∈ members (db s') "-1".
Proof.
  destruct (create_without_parent (Config false false) (Env 1000 0 0 0 0)
              "/nothing/f" 420 (Conn ∅ false [] []) "/nothing" 0)
    as [(s' & E & Hin & _) _].
  - reflexivity.
  - reflexivity.
  - apply well_formed_empty.
  - vm_compute. discriminate.
  - reflexivity.
  - reflexivity.
  - exists s'. split; [exact E | exact Hin].
Defined.

(** ** The PID file *)



(** ** Truncating and writing, as the next call sees them *)

(** X25: [fs_truncate] does not look at the length it is given: on a
    path that resolves to an entry that is not a directory it returns 0
    for every [size], deletes DATA and sets SIZE to 0, so that a
    following [fs_read] finds no byte, whatever length was asked for. *)
Theorem truncate_empties_file c e path size s inode :
  in_step s -> _g_read_only c = false ->
  resolve (db s) path = Some inode -> inode <> -1 ->
  is_dir (db s) inode = 0 ->
  exists s1,
    fs_truncate c e path size s = (Some 0, s1) /\
    db s1 !! INODE (fmt_d inode) DATA = None /\
    db s1 !! INODE (fmt_d inode) SIZE = Some (VStr "0") /\
    forall n, 0 <= n ->
      exists s2, fs_read path n 0 s1 = (Some (0, ""), s2) /\ db s2 = db s1.
Proof.
  intros Hs Hro Hres Hne Hdir.
  destruct (fs_truncate_step s Hs c e path size inode Hro Hres Hne Hdir)
    as (l & E).
  set (d1 := exec_all (truncate_cmds e inode) (db s)) in *.
  assert (Hdata : d1 !! INODE (fmt_d inode) DATA = None).
  { subst d1. unfold exec_all, truncate_cmds. cbn [foldl exec snd].
    rewrite mset_frame.
    - apply lookup_delete_eq.
    - cbn. intros H. repeat (apply elem_of_cons in H as [H | H]; [done |]).
      by apply elem_of_nil in H. }
  assert (Hsize : d1 !! INODE (fmt_d inode) SIZE = Some (VStr "0")).
  { subst d1. unfold exec_all, truncate_cmds. cbn [foldl exec snd].
    unfold mset. cbn [foldl fst snd].
    rewrite lookup_insert_ne by done. apply lookup_insert_eq. }
  assert (Hres1 : resolve d1 path = Some inode).
  { rewrite <- Hres. subst d1.
    apply resolve_frame; intros i; apply exec_all_frame; intros cm Hcm Hk;
      unfold truncate_cmds in Hcm;
      repeat (apply elem_of_cons in Hcm as [-> | Hcm]);
      try (by apply elem_of_nil in Hcm); cbn in Hk;
      repeat (apply elem_of_cons in Hk as [Hk | Hk]; [done |]);
      by apply elem_of_nil in Hk. }
  exists (ready d1 l). split; [exact E |]. cbn [db ready].
  split; [exact Hdata |]. split; [exact Hsize |]. intros n Hn.
  destruct (fs_read_run path n 0 (ready d1 l) inode "")
    as (s2 & E2 & Hdb); try done.
  all: try (cbn; unfold INT_MAX; lia).
  - by left.
  - unfold file_data. cbn [db ready]. by rewrite Hdata.
  - cbn [db ready] in Hdb. exists s2. split; [| exact Hdb].
    rewrite E2. replace (Z.min n (Z.of_nat (String.length "") - 0)) with 0
      by (cbn; lia). reflexivity.
Qed.

Lemma truncate_empties_file_witness :
  let s := (fs_create (Config false false) (Env 1000 1000 100 0 0) "/f" 420
              (Conn ∅ false [] [])).2 in
  exists s1 s2,
    fs_truncate (Config false false) (Env 2000 0 0 0 0) "/f" 4096 s
    = (Some 0, s1) /\
    fs_read "/f" 4096 0 s1 = (Some (0, ""), s2).
Proof.
  intros s.
  assert (Hs : in_step s) by (left; vm_compute; reflexivity).
  assert (Hr : resolve (db s) "/f" = Some 1) by (vm_compute; reflexivity).
  assert (Hd : is_dir (db s) 1 = 0) by (vm_compute; reflexivity).
  assert (Hn : 1 <> -1) by discriminate.
  destruct (truncate_empties_file (Config false false) (Env 2000 0 0 0 0)
              "/f" 4096 s 1 Hs eq_refl Hr Hn Hd) as (s1 & E1 & _ & _ & Hread).
  destruct (Hread 4096) as (s2 & E2 & _); [lia |].
  exists s1, s2. split; [exact E1 | exact E2].
Defined.

(** X26: [fs_write] at offset 0 to a file returns the number of bytes
    and stores SIZE, MTIME and DATA in one [MSET]; a following
    [fs_getattr] reports that number as the size of the file and the
    time of the write as its modification time, with mode and access
    time as before. *)
Theorem write_then_getattr c e e' past_end s path inode buf
    ctime atime mtime gid uid link mode len :
  in_step s -> _g_read_only c = false -> path <> "/" ->
  resolve (db s) path = Some inode -> inode <> -1 ->
  db s !! INODE (fmt_d inode) CTIME = Some (VStr ctime) ->
  db s !! INODE (fmt_d inode) ATIME = Some (VStr atime) ->
  db s !! INODE (fmt_d inode) MTIME = Some (VStr mtime) ->
  db s !! INODE (fmt_d inode) GID = Some (VStr gid) ->
  db s !! INODE (fmt_d inode) UID = Some (VStr uid) ->
  db s !! INODE (fmt_d inode) LINK = Some (VStr link) ->
  db s !! INODE (fmt_d inode) TYPE = Some (VStr "FILE") ->
  db s !! INODE (fmt_d inode) MODE = Some (VStr mode) ->
  db s !! INODE (fmt_d inode) SIZE = Some (VStr len) ->
  Z.of_nat (String.length buf) <= INT_MAX ->
  exists s1 st s2,
    fs_write c e path buf 0 s = (Some (Z.of_nat (String.length buf)), s1) /\
    fs_getattr e' past_end path s1 = (Some (0, st), s2) /\
    st_size st = Z.of_nat (String.length buf) /\
    st_mtime st = to_int (time_now e) /\
    st_atime st = atoi atime /\
    st_mode st = to_u32 (atoi mode).
Proof.
  intros Hs Hro Hroot Hres Hne H1 H2 H3 H4 H5 H6 H7 H8 H9 Hmax.
  assert (Hint : is_int (Z.of_nat (String.length buf)))
    by (unfold is_int, INT_MIN; lia).
  destruct (fs_write_step s Hs c e path buf 0 Hro) as (l & E).
  rewrite Hres in E. rewrite (to_int_id _ Hint) in E.
  unfold write_cmds, exec_all in E. cbn [Z.eqb foldl exec snd] in E.
  set (kvs := [(INODE (fmt_d inode) SIZE, fmt_d (Z.of_nat (String.length buf)));
               (INODE (fmt_d inode) MTIME, fmt_d (time_now e));
               (INODE (fmt_d inode) DATA, buf)]) in E.
  edestruct (mset_then_getattr s path inode Hroot Hres Hne e' past_end kvs l)
    as (st & l' & E' & Hst).
  { subst kvs. intros k Hk. rewrite !fmap_cons in Hk.
    cbn [fst fmap list_fmap] in Hk.
    repeat (apply elem_of_cons in Hk as [-> | Hk]; [by eexists |]).
    by apply elem_of_nil in Hk. }
  all: try (subst kvs; unfold mset; cbn [foldl fst snd];
            repeat (rewrite lookup_insert_ne by done);
            first [apply lookup_insert_eq | eassumption]).
  exists (ready (mset kvs (db s)) l), st, (ready (mset kvs (db s)) l').
  split; [exact E |]. split; [exact E' |].
  apply getattr_type_fields in Hst as (Hm & _ & _ & Ha & Ht & _ & Hsz).
  destruct (Hsz eq_refl) as [Hsize _].
  cbn [st_atime st_mtime] in *.
  rewrite Hm, Ha, Ht, Hsize, !atoi_fmt_d. rewrite (to_int_id _ Hint).
  repeat split. unfold type_bits. cbn. apply Z.lor_0_r.
Qed.

Lemma write_then_getattr_witness :
  let s := (fs_create (Config false false) (Env 1000 1000 100 0 0) "/f" 420
              (Conn ∅ false [] [])).2 in
  exists s1 st s2,
    fs_write (Config false false) (Env 2000 0 0 0 0) "/f" "hello" 0 s
    = (Some 5, s1) /\
    fs_getattr (Env 2001 0 0 0 0) None "/f" s1 = (Some (0, st), s2) /\
    st_size st = 5 /\ st_mtime st = 2000.
Proof.
  intros s.
  assert (Hs : in_step s) by (left; vm_compute; reflexivity).
  assert (Hr : resolve (db s) "/f" = Some 1) by (vm_compute; reflexivity).
  assert (H1 : db s !! INODE (fmt_d 1) CTIME = Some (VStr "1000"))
    by (vm_compute; reflexivity).
  assert (H2 : db s !! INODE (fmt_d 1) ATIME = Some (VStr "1000"))
    by (vm_compute; reflexivity).
  assert (H3 : db s !! INODE (fmt_d 1) MTIME = Some (VStr "1000"))
    by (vm_compute; reflexivity).
  assert (H4 : db s !! INODE (fmt_d 1) GID = Some (VStr "100"))
    by (vm_compute; reflexivity).
  assert (H5 : db s !! INODE (fmt_d 1) UID = Some (VStr "1000"))
    by (vm_compute; reflexivity).
  assert (H6 : db s !! INODE (fmt_d 1) LINK = Some (VStr "1"))
    by (vm_compute; reflexivity).
  assert (H7 : db s !! INODE (fmt_d 1) TYPE = Some (VStr "FILE"))
    by (vm_compute; reflexivity).
  assert (H8 : db s !! INODE (fmt_d 1) MODE = Some (VStr "420"))
    by (vm_compute; reflexivity).
  assert (H9 : db s !! INODE (fmt_d 1) SIZE = Some (VStr "0"))
    by (vm_compute; reflexivity).
  assert (Hp : "/f" <> "/") by discriminate.
  assert (Hn : 1 <> -1) by discriminate.
  assert (Hm : Z.of_nat (String.length "hello") <= INT_MAX)
    by (vm_compute; discriminate).
  destruct (write_then_getattr (Config false false) (Env 2000 0 0 0 0)
              (Env 2001 0 0 0 0) None s "/f" 1 "hello"
              "1000" "1000" "1000" "100" "1000" "1" "420" "0"
              Hs eq_refl Hp Hr Hn H1 H2 H3 H4 H5 H6 H7 H8 H9 Hm)
    as (s1 & st & s2 & E1 & E2 & Hsz & Ht & _).
  exists s1, st, s2. rewrite Hsz, Ht.
  split; [exact E1 |]. split; [exact E2 |]. split; reflexivity.
Defined.

(** ** The snapshot tool *)

Section SnapshotFacts.

Import Snapshot.

Lemma append_inj (p a b : string) : (p ++ a)%string = (p ++ b)%string -> a = b.
Proof. induction p as [| ch p IH]; [done |]. intros [= H]. by apply IH. Qed.

Lemma append_length (p r : string) :
  String.length (p ++ r)%string = (String.length p + String.length r)%nat.
Proof. induction p as [| ch p IH]; [done |]. simpl. by rewrite IH. Qed.

Lemma str_drop_prefix (p r : string) :
  str_drop (String.length p) (p ++ r)%string = r.
Proof. induction p as [| ch p IH]; [by destruct r |]. exact IH. Qed.

Lemma c_str_suffix (p r : string) :
  c_str (p ++ r)%string = (p ++ r)%string -> c_str r = r.
Proof.
  induction p as [| ch p IH]; [done |]. simpl.
  destruct (Ascii.eqb ch zero); [done |]. intros [= H]. by apply IH.
Qed.

Lemma NoDup_list_filter {A} (f : A -> bool) (l : list A) :
  NoDup l -> NoDup (List.filter f l).
Proof.
  induction 1 as [| x l Hx Hnd IH]; [constructor |]. cbn.
  destruct (f x); [| done]. constructor; [| done].
  rewrite list_elem_of_In, filter_In, <- list_elem_of_In. by intros [? _].
Qed.

Variable stringmatch : string -> string -> bool.

(** The inner loop adds the members to the set that is there. *)
Lemma clone_members_onto new_key : forall ms d acc,
  d !! new_key = Some (VSet acc) ->
  clone_members stringmatch new_key (RStr <$> ms) d
  = Some (<[new_key := VSet (acc ∪ list_to_set ms)]> d).
Proof.
  induction ms as [| m ms IH]; intros d acc Hd.
  - cbn. rewrite (right_id_L ∅ (∪)). by rewrite insert_id.
  - cbn [fmap list_fmap clone_members reply_str run]. rewrite Hd.
    destruct (decide (m ∈ acc)) as [Hin | Hout]; cbn [snd].
    + rewrite (IH d acc Hd). do 3 f_equal. cbn. set_solver.
    + rewrite (IH _ ({[m]} ∪ acc)) by apply lookup_insert_eq.
      rewrite insert_insert_eq. do 3 f_equal. cbn. set_solver.
Qed.

Lemma clone_members_wrongtype new_key x : forall ms d,
  d !! new_key = Some (VStr x) ->
  clone_members stringmatch new_key (RStr <$> ms) d = Some d.
Proof.
  induction ms as [| m ms IH]; intros d Hd; [done |].
  cbn [fmap list_fmap clone_members reply_str run]. rewrite Hd. cbn [snd].
  by apply IH.
Qed.

Lemma clone_members_fresh new_key (set : gset string) d :
  set <> ∅ -> d !! new_key = None ->
  clone_members stringmatch new_key (RStr <$> elements set) d
  = Some (<[new_key := VSet set]> d).
Proof.
  intros Hne Hd. destruct (elements set) as [| m ms] eqn:E.
  { apply elements_empty_inv in E. by apply leibniz_equiv in E. }
  cbn [fmap list_fmap clone_members reply_str run]. rewrite Hd. cbn [snd].
  rewrite (clone_members_onto new_key ms _ {[m]}) by apply lookup_insert_eq.
  rewrite insert_insert_eq. do 3 f_equal.
  rewrite <- (list_to_set_elements_L set), E. done.
Qed.

(** One turn of the outer loop. *)
Lemma clone_key_run prefix new_prefix rest v d :
  c_str (prefix ++ rest)%string = (prefix ++ rest)%string ->
  d !! (prefix ++ rest)%string = Some v -> v <> VSet ∅ ->
  clone_key stringmatch prefix new_prefix (RStr (prefix ++ rest)%string) d
  = Some (<[(new_prefix ++ rest)%string
            := cloned_onto v (d !! (new_prefix ++ rest)%string)]> d).
Proof.
  intros Hc Hv Hne. unfold clone_key.
  destruct (Nat.ltb_spec (String.length (prefix ++ rest)%string)
              (String.length prefix)) as [Hlt | _].
  { rewrite append_length in Hlt. lia. }
  rewrite str_drop_prefix, Hc, (c_str_suffix prefix rest Hc).
  cbn [run reply_str]. rewrite Hv.
  destruct v as [str | set]; cbn [String.eqb Ascii.eqb Bool.eqb]; [done |].
  cbn [reply_elements cloned_onto].
  destruct (d !! (new_prefix ++ rest)%string) as [[x | set'] |] eqn:Ht.
  - rewrite (clone_members_wrongtype _ x) by done. by rewrite insert_id.
  - rewrite (clone_members_onto _ _ _ set') by done.
    by rewrite list_to_set_elements_L.
  - apply clone_members_fresh; [congruence | done].
Qed.

(** The outer loop, over keys that are there and of which none is the
    copy of another. *)
Lemma clone_each_run prefix new_prefix : forall ks d,
  NoDup ks ->
  (forall k, k ∈ ks -> exists rest v,
      k = (prefix ++ rest)%string /\ c_str k = k /\
      d !! k = Some v /\ v <> VSet ∅) ->
  (forall rest, (new_prefix ++ rest)%string ∉ ks) ->
  exists d',
    clone_each stringmatch prefix new_prefix (RStr <$> ks) d = Some d' /\
    (forall rest v, (prefix ++ rest)%string ∈ ks ->
       d !! (prefix ++ rest)%string = Some v ->
       d' !! (new_prefix ++ rest)%string
       = Some (cloned_onto v (d !! (new_prefix ++ rest)%string))) /\
    (forall key,
       (forall rest, key = (new_prefix ++ rest)%string ->
                     (prefix ++ rest)%string ∉ ks) ->
       d' !! key = d !! key).
Proof.
  induction ks as [| k ks IH]; intros d Hnd Hks Hsep.
  { exists d. split; [done |]. split; [| done].
    intros rest v Hin. by apply elem_of_nil in Hin. }
  apply NoDup_cons in Hnd as [Hk Hnd].
  destruct (Hks k) as (rest0 & v0 & -> & Hc0 & Hv0 & Hne0); [by left |].
  cbn [fmap list_fmap clone_each].
  rewrite (clone_key_run prefix new_prefix rest0 v0 d Hc0 Hv0 Hne0).
  set (t0 := (new_prefix ++ rest0)%string).
  set (d1 := <[t0 := cloned_onto v0 (d !! t0)]> d).
  assert (Hd1 : forall k', k' ∈ ks -> d1 !! k' = d !! k').
  { intros k' Hk'. subst d1. apply lookup_insert_ne. intros <-.
    apply (Hsep rest0). by right. }
  destruct (IH d1 Hnd) as (d' & E & Hcopy & Hframe).
  { intros k' Hk'. destruct (Hks k') as (rest & v & -> & Hc & Hv & Hne);
      [by right |].
    exists rest, v. rewrite (Hd1 _ Hk'). done. }
  { intros rest Hin. apply (Hsep rest). by right. }
  exists d'. split; [exact E |]. split.
  - intros rest v Hin Hv. apply elem_of_cons in Hin as [Heq | Hin].
    + apply append_inj in Heq as ->. rewrite Hframe.
      * subst d1. fold t0. rewrite lookup_insert_eq. congruence.
      * intros rest Heq. apply append_inj in Heq as <-. exact Hk.
    + rewrite (Hcopy rest v Hin) by (by rewrite (Hd1 _ Hin)).
      subst d1. rewrite lookup_insert_ne; [done |].
      subst t0. intros Heq. apply append_inj in Heq as ->. done.
  - intros key Hkey. rewrite Hframe.
    + subst d1. apply lookup_insert_ne. intros <-.
      apply (Hkey rest0 eq_refl). by left.
    + intros rest Heq Hin. apply (Hkey rest Heq). by right.
Qed.

(** [clone_keys] when the server matches the pattern against the keys
    that begin with the prefix. *)
Lemma clone_keys_run prefix new_prefix d :
  (forall k, stringmatch (prefix ++ "*")%string k = true
             <-> exists rest, k = (prefix ++ rest)%string) ->
  (forall rest v, d !! (prefix ++ rest)%string = Some v ->
     c_str (prefix ++ rest)%string = (prefix ++ rest)%string /\ v <> VSet ∅) ->
  (forall rest rest', d !! (prefix ++ rest)%string <> None ->
     (prefix ++ rest)%string <> (new_prefix ++ rest')%string) ->
  exists d',
    clone_keys stringmatch prefix new_prefix d = Some d' /\
    (forall rest v, d !! (prefix ++ rest)%string = Some v ->
       d' !! (new_prefix ++ rest)%string
       = Some (cloned_onto v (d !! (new_prefix ++ rest)%string))) /\
    (forall key,
       (forall rest, key = (new_prefix ++ rest)%string ->
                     d !! (prefix ++ rest)%string = None) ->
       d' !! key = d !! key).
Proof.
  intros Hmatch Hkeys Hsep. unfold clone_keys. cbn [run].
  set (ks := List.filter (stringmatch (prefix ++ "*")%string)
               (map_to_list d).*1).
  assert (Hin : forall k, k ∈ ks <->
            (exists rest, k = (prefix ++ rest)%string) /\ d !! k <> None).
  { intros k. subst ks. rewrite list_elem_of_In, filter_In, <- list_elem_of_In.
    rewrite Hmatch, list_elem_of_fmap. split.
    - intros [([k' v] & -> & Hel) Hrest]. split; [done |].
      apply elem_of_map_to_list in Hel. cbn. by rewrite Hel.
    - intros [Hrest Hv]. split; [| done].
      destruct (d !! k) as [v |] eqn:E; [| done].
      exists (k, v). split; [done |]. by apply elem_of_map_to_list. }
  destruct (clone_each_run prefix new_prefix ks d) as (d' & E & Hcopy & Hframe).
  - subst ks. apply NoDup_list_filter, NoDup_fst_map_to_list.
  - intros k Hk. apply Hin in Hk as [[rest ->] Hv].
    destruct (d !! (prefix ++ rest)%string) as [v |] eqn:Ev; [| done].
    destruct (Hkeys rest v Ev) as [Hc Hne]. by exists rest, v.
  - intros rest Hk. apply Hin in Hk as [[rest' Heq] Hv].
    rewrite Heq in Hv. by apply (Hsep rest' rest Hv).
  - exists d'. split; [exact E |]. split.
    + intros rest v Hv. apply Hcopy; [| done]. apply Hin. split; [by eexists |].
      by rewrite Hv.
    + intros key Hkey. apply Hframe. intros rest Heq Hk.
      apply Hin in Hk as [_ Hv]. by apply Hv, Hkey.
Qed.

(** X27: a snapshot into a prefix that no key begins with is a copy.
    When the pattern [prefix*] matches the keys that begin with the
    prefix, these keys hold no NUL byte and no empty set, [clone_keys]
    returns, every key [new_prefix ++ rest] holds what [prefix ++ rest]
    holds (nothing if that key is absent), and every other key is as
    before. *)
Theorem snapshot_copies prefix new_prefix d :
  (forall k, stringmatch (prefix ++ "*")%string k = true
             <-> exists rest, k = (prefix ++ rest)%string) ->
  (forall rest v, d !! (prefix ++ rest)%string = Some v ->
     c_str (prefix ++ rest)%string = (prefix ++ rest)%string /\ v <> VSet ∅) ->
  (forall rest, d !! (new_prefix ++ rest)%string = None) ->
  exists d',
    clone_keys stringmatch prefix new_prefix d = Some d' /\
    (forall rest,
       d' !! (new_prefix ++ rest)%string = d !! (prefix ++ rest)%string) /\
    (forall k v, d !! k = Some v -> d' !! k = Some v) /\
    (forall k, (forall rest, k <> (new_prefix ++ rest)%string) ->
               d' !! k = d !! k).
Proof.
  intros Hmatch Hkeys Hfresh.
  destruct (clone_keys_run prefix new_prefix d Hmatch Hkeys)
    as (d' & E & Hcopy & Hframe).
  { intros rest rest' Hv Heq. apply Hv. rewrite Heq. apply Hfresh. }
  assert (Hother : forall k, (forall rest, k <> (new_prefix ++ rest)%string) ->
                             d' !! k = d !! k).
  { intros k Hk. apply Hframe. intros rest Heq. by destruct (Hk rest). }
  exists d'. split; [exact E |]. split; [| split; [| exact Hother]].
  - intros rest. destruct (d !! (prefix ++ rest)%string) as [v |] eqn:Ev.
    + rewrite (Hcopy rest v Ev), Hfresh. by destruct v.
    + rewrite Hframe; [apply Hfresh |].
      intros rest' Heq. apply append_inj in Heq as <-. exact Ev.
  - intros k v Hv. rewrite Hother; [exact Hv |].
    intros rest ->. by rewrite Hfresh in Hv.
Qed.

(** X28: a snapshot over an earlier one adds to it and removes nothing.
    When no key that begins with the prefix begins with the new prefix,
    a string is copied over what the new key held, the members of a set
    are added to the set the new key held, so that members removed from
    the source since the earlier snapshot stay, and a key of the earlier
    snapshot whose source key is gone is left as it is. *)
Theorem snapshot_over_snapshot prefix new_prefix d :
  (forall k, stringmatch (prefix ++ "*")%string k = true
             <-> exists rest, k = (prefix ++ rest)%string) ->
  (forall rest v, d !! (prefix ++ rest)%string = Some v ->
     c_str (prefix ++ rest)%string = (prefix ++ rest)%string /\ v <> VSet ∅) ->
  (forall rest rest', d !! (prefix ++ rest)%string <> None ->
     (prefix ++ rest)%string <> (new_prefix ++ rest')%string) ->
  exists d',
    clone_keys stringmatch prefix new_prefix d = Some d' /\
    (forall rest str, d !! (prefix ++ rest)%string = Some (VStr str) ->
       d' !! (new_prefix ++ rest)%string = Some (VStr str)) /\
    (forall rest m m',
       d !! (prefix ++ rest)%string = Some (VSet m) ->
       d !! (new_prefix ++ rest)%string = Some (VSet m') ->
       d' !! (new_prefix ++ rest)%string = Some (VSet (m' ∪ m))) /\
    (forall rest, d !! (prefix ++ rest)%string = None ->
       d' !! (new_prefix ++ rest)%string = d !! (new_prefix ++ rest)%string).
Proof.
  intros Hmatch Hkeys Hsep.
  destruct (clone_keys_run prefix new_prefix d Hmatch Hkeys Hsep)
    as (d' & E & Hcopy & Hframe).
  exists d'. split; [exact E |]. repeat split.
  - intros rest str Hv. by rewrite (Hcopy rest _ Hv).
  - intros rest m m' Hv Hold. by rewrite (Hcopy rest _ Hv), Hold.
  - intros rest Hv. apply Hframe. intros rest' Heq.
    apply append_inj in Heq as <-. exact Hv.
Qed.

End SnapshotFacts.

Lemma begins_with_spec p : forall k,
  Snapshot.begins_with p k = true <-> exists rest, k = (p ++ rest)%string.
Proof.
  induction p as [| a p IH]; intros k; cbn.
  - split; [by exists k | done].
  - destruct k as [| b k]; [split; [done | by intros [rest [=]]] |].
    rewrite andb_true_iff, IH. split.
    + intros [Hab [rest ->]]. apply Ascii.eqb_eq in Hab as ->. by exists rest.
    + intros [rest [= -> ->]]. split; [apply Ascii.eqb_refl | by exists rest].
Qed.

Lemma snapshot_copies_witness :
  let d : gmap string value :=
    <["skx:INODE:1:NAME" := VStr "f"]>
      (<["skx:DIRENT:-99" := VSet {["1"]}]>
         (<["other:GLOBAL:INODE" := VStr "7"]> ∅)) in
  exists d',
    Snapshot.clone_keys Snapshot.literal_star "skx" "snapshot" d = Some d' /\
    d' !! "snapshot:INODE:1:NAME" = Some (VStr "f") /\
    d' !! "snapshot:DIRENT:-99" = Some (VSet {["1"]}) /\
    d' !! "other:GLOBAL:INODE" = Some (VStr "7").
Proof.
  intros d.
  destruct (snapshot_copies Snapshot.literal_star "skx" "snapshot" d)
    as (d' & E & Hcopy & Hkeep & _).
  - intros k. change (Snapshot.literal_star ("skx" ++ "*")%string k)
      with (Snapshot.begins_with "skx" k). apply begins_with_spec.
  - intros rest v Hv. subst d.
    apply lookup_insert_Some in Hv as [[Hk <-] | [_ Hv]];
      [rewrite <- Hk; by split |].
    apply lookup_insert_Some in Hv as [[Hk <-] | [_ Hv]].
    { rewrite <- Hk. split; [done |]. by intros [= H]. }
    apply lookup_insert_Some in Hv as [[[=] _] | [_ Hv]].
    by rewrite lookup_empty in Hv.
  - intros rest. subst d. by rewrite !lookup_insert_ne.
  - exists d'. split; [exact E |].
    split; [exact (Hcopy ":INODE:1:NAME") |].
    split; [exact (Hcopy ":DIRENT:-99") |]. by apply Hkeep.
Defined.

Lemma snapshot_over_snapshot_witness :
  let d : gmap string value :=
    <["skx:DIRENT:-99" := VSet {["1"]}]>
      (<["snapshot:DIRENT:-99" := VSet {["2"]}]>
         (<["snapshot:INODE:2:NAME" := VStr "gone"]> ∅)) in
  exists d',
    Snapshot.clone_keys Snapshot.literal_star "skx" "snapshot" d = Some d' /\
    d' !! "snapshot:DIRENT:-99" = Some (VSet ({["2"]} ∪ {["1"]})) /\
    d' !! "snapshot:INODE:2:NAME" = Some (VStr "gone").
Proof.
  intros d.
  destruct (snapshot_over_snapshot Snapshot.literal_star "skx" "snapshot" d)
    as (d' & E & _ & Hset & Hgone).
  - intros k. change (Snapshot.literal_star ("skx" ++ "*")%string k)
      with (Snapshot.begins_with "skx" k). apply begins_with_spec.
  - intros rest v Hv. subst d.
    apply lookup_insert_Some in Hv as [[Hk <-] | [_ Hv]].
    { rewrite <- Hk. split; [done |]. by intros [= H]. }
    apply lookup_insert_Some in Hv as [[[=] _] | [_ Hv]].
    apply lookup_insert_Some in Hv as [[[=] _] | [_ Hv]].
    by rewrite lookup_empty in Hv.
  - by intros rest rest' _ [=].
  - exists d'. split; [exact E |]. split.
    + by apply (Hset ":DIRENT:-99" {["1"]} {["2"]}).
    + change (d' !! ("snapshot" ++ ":INODE:2:NAME")%string
              = Some (VStr "gone")).
      rewrite (Hgone ":INODE:2:NAME"); done.
Defined.
